(** * Verification of devito/passes/iet/language.py

    A shallow embedding of the pragma-based parallelization pass of Devito
    ([Constructs], [PragmaParallelizer], [DeviceAwarePragmaParallelizer] and
    [is_on_device]) together with the properties stated for it.

    Conventions of the embedding:
    - Python objects are records and inductive types carrying the
      attributes the pass reads; an attribute looked up on an object of the
      wrong class raises [AttributeError].
    - Exceptions, failed assertions included, are values of the error monad
      [Result].
    - The dictionary [parrays] and the name counter of the symbol registry,
      which [_make_parallel] shares between the nests of one run, are
      passed from call to call.
    - Methods reached through [self] are called through the record
      [Methods], so that the overrides of the device-aware specializer are
      the ones [_make_parallel] runs.
    - Python compares IET nodes by identity; here nodes are compared by
      structure. The images the pass stores for a node depend on its
      structure only, so two equal nodes would be given equal images.
    - [make_simd] of the host specializer is embedded with the attributes it
      reads of loops, functions and the platform taken as they come. The
      passes of the base classes return the IET as it is, and
      [make_gpudirect] rewrites MPI calls, which the node model does not
      hold; they are not embedded. *)

From Stdlib Require Import ZArith QArith Qround Qminmax List Bool String Lia.
From stdpp Require Import base option list gmap strings pretty.

Set Warnings "-register-all".

Open Scope Z_scope.

(** ** Exceptions and the error monad *)

Inductive Exception : Type :=
| NotImplementedError (msg : string)
| AssertionError
| AttributeError
| TypeError.

Inductive Result (A : Type) : Type :=
| Ok (a : A)
| Raise (e : Exception).

Arguments Ok {A} a.
Arguments Raise {A} e.

#[global] Instance Result_ret : MRet Result := fun A a => Ok a.
#[global] Instance Result_bind : MBind Result := fun A B f r =>
  match r with
  | Ok a => f a
  | Raise e => Raise e
  end.

(** [assert c] of Python. *)
Definition assert (c : bool) : Result unit :=
  if c then Ok tt else Raise AssertionError.

(** ** The dialect construct table *)

(** [class Constructs(dict)]: a dictionary from construct names to the
    builders of a dialect (how a builder renders is the dialect's business). *)
Abbreviation Constructs V := (gmap string V) (only parsing).

(** [Constructs.__getitem__] *)
Definition __getitem__ {V : Type} (self : Constructs V) (k : string) : Result V :=
  match self !! k with
  | None => Raise (NotImplementedError ("Must implement `lang[" +:+ k +:+ "]`"))
  | Some v => Ok v
  end.

(** A builder of the dialect: an opaque directive, or a callable applied to
    its string arguments by [Apply]. *)
Record Builder : Type := { builder_id : string }.

#[global] Instance Builder_eq_dec : EqDecision Builder.
Proof. solve_decision. Defined.

(** ** Symbolic expressions (sympy) *)

Inductive SExpr : Type :=
| Integer (z : Z)
| Sym (name : string)
| Add (a b : SExpr)
| Mul (a b : SExpr)
| Div (a b : SExpr)
| Max (a b : SExpr)
| INT (a : SExpr).

#[global] Instance SExpr_eq_dec : EqDecision SExpr.
Proof. solve_decision. Defined.

#[global] Instance SExpr_countable : Countable SExpr.
Proof.
  set (enc := fix go (e : SExpr) : gen_tree (Z + string) :=
    match e with
    | Integer z => GenLeaf (inl z)
    | Sym x => GenLeaf (inr x)
    | Add a b => GenNode 0 [go a; go b]
    | Mul a b => GenNode 1 [go a; go b]
    | Div a b => GenNode 2 [go a; go b]
    | Max a b => GenNode 3 [go a; go b]
    | INT a => GenNode 4 [go a]
    end).
  set (dec := fix go (t : gen_tree (Z + string)) : SExpr :=
    match t with
    | GenLeaf (inl z) => Integer z
    | GenLeaf (inr x) => Sym x
    | GenNode 0 [a; b] => Add (go a) (go b)
    | GenNode 1 [a; b] => Mul (go a) (go b)
    | GenNode 2 [a; b] => Div (go a) (go b)
    | GenNode 3 [a; b] => Max (go a) (go b)
    | GenNode 4 [a] => INT (go a)
    | _ => Integer 0
    end).
  refine (inj_countable' enc dec _).
  induction x; simpl; congruence.
Defined.

(** [e.free_symbols] *)
Fixpoint free_symbols (e : SExpr) : gset string :=
  match e with
  | Integer _ => ∅
  | Sym x => {[ x ]}
  | Add a b | Mul a b | Div a b | Max a b => free_symbols a ∪ free_symbols b
  | INT a => free_symbols a
  end.

(** [isinstance(e, Symbol)] *)
Definition isinstance_Symbol (e : SExpr) : bool :=
  match e with
  | Sym _ => true
  | _ => false
  end.

(** Truncation toward zero, as [int(...)] of Python and a C cast do. *)
Definition Qtrunc (q : Q) : Z := Z.quot (Qnum q) (Zpos (Qden q)).

(** The value of an expression once its symbols are bound. sympy rewrites
    an expression as it is built; the expression is kept here as written
    and [eval] gives what it stands for. *)
Fixpoint eval (rho : string -> Q) (e : SExpr) : Q :=
  match e with
  | Integer z => inject_Z z
  | Sym x => rho x
  | Add a b => (eval rho a + eval rho b)%Q
  | Mul a b => (eval rho a * eval rho b)%Q
  | Div a b => (eval rho a / eval rho b)%Q
  | Max a b => Qmax (eval rho a) (eval rho b)
  | INT a => inject_Z (Qtrunc (eval rho a))
  end.

(** [int(e)]: the number [e] stands for, [TypeError] when [e] is symbolic. *)
Definition int_ (e : SExpr) : Result Z :=
  if decide (free_symbols e = ∅) then Ok (Qtrunc (eval (fun _ => 0%Q) e))
  else Raise TypeError.

(** [devito.tools.prod]: [reduce(mul, iterable, 1)], on expressions and on
    Python integers. *)
Definition prod (l : list SExpr) : SExpr := fold_left Mul l (Integer 1).
Definition prodZ (l : list Z) : Z := fold_left Z.mul l 1.

(** sympy relations and Booleans: [CondEq(a, b)] is an unevaluated equality;
    [Or()] is [false], [Or(r)] is [r]. The arguments of a disjunction are
    kept as given, where sympy sorts them and drops repetitions. *)
Inductive Relational : Type := CondEq (lhs rhs : SExpr).

Inductive Boolean : Type :=
| BooleanFalse
| Rel (r : Relational)
| OrOf (args : list Relational).

#[global] Instance Relational_eq_dec : EqDecision Relational.
Proof. solve_decision. Defined.
#[global] Instance Boolean_eq_dec : EqDecision Boolean.
Proof. solve_decision. Defined.

Definition Or (args : list Relational) : Boolean :=
  match args with
  | [] => BooleanFalse
  | [r] => Rel r
  | _ => OrOf args
  end.

(** ** Devito types *)

Module Symbol.
(** A scalar symbol of the registry (thread counts, thread index). *)
Record t : Type := { name : string; _C_typedata : string }.
#[global] Instance eq_dec : EqDecision t.
Proof. solve_decision. Defined.
End Symbol.

Module Dimension.
Record t : Type := { name : string; symbolic_size : SExpr }.
#[global] Instance eq_dec : EqDecision t.
Proof. solve_decision. Defined.
#[global] Instance countable : Countable t.
Proof.
  apply (inj_countable' (fun d => (name d, symbolic_size d))
                        (fun p => Build_t p.1 p.2)).
  by intros [].
Defined.
End Dimension.

Module Function.
(** A function-like symbolic object (grid function, array, scalar) with the
    flags every Devito type carries. [save] is [None] unless the whole time
    history is retained. *)
Record t : Type := {
  name : string;
  is_TimeFunction : bool;
  save : option Z;
  is_Array : bool;
  _mem_heap : bool;
  _mem_local : bool;
  symbolic_shape : list SExpr;
  dimensions : list Dimension.t
}.
#[global] Instance eq_dec : EqDecision t.
Proof. solve_decision. Defined.
#[global] Instance countable : Countable t.
Proof.
  apply (inj_countable'
    (fun f => (name f, is_TimeFunction f, save f, is_Array f, _mem_heap f,
               _mem_local f, symbolic_shape f, dimensions f))
    (fun p => let '(a, b, c, d, e, g, h, i) := p in
              Build_t a b c d e g h i)).
  by intros [].
Defined.
(** [Symbol(name=...)]: a fresh scalar. *)
Definition Symbol (n : string) : t :=
  {| name := n; is_TimeFunction := false; save := None; is_Array := false;
     _mem_heap := false; _mem_local := false; symbolic_shape := [];
     dimensions := [] |}.
End Function.

Module PointerArray.
(** An array of per-thread pointers to [array]. *)
Record t : Type := {
  name : string;
  dimensions : list Symbol.t;
  array : Function.t
}.
#[global] Instance eq_dec : EqDecision t.
Proof. solve_decision. Defined.
End PointerArray.

(** The left-hand side of an expression: an array element or a scalar. *)
Inductive Lhs : Type :=
| Indexed (function : Function.t) (indices : list SExpr)
| Scalar (function : Function.t).

#[global] Instance Lhs_eq_dec : EqDecision Lhs.
Proof. solve_decision. Defined.

Definition is_Indexed (o : Lhs) : bool :=
  match o with
  | Indexed _ _ => true
  | Scalar _ => false
  end.

Definition function (o : Lhs) : Function.t :=
  match o with
  | Indexed f _ => f
  | Scalar f => f
  end.

(** ** The IET node model *)

Module Expression.
Record t : Type := {
  output : Lhs;
  rhs : SExpr;
  is_Increment : bool;
  is_ForeignExpression : bool;
  pragmas : list Builder
}.
#[global] Instance eq_dec : EqDecision t.
Proof. solve_decision. Defined.
(** [i.write] *)
Definition write (e : t) : Function.t := function (output e).
(** [i._rebuild(pragmas=p)] *)
Definition _rebuild_pragmas (e : t) (p : Builder) : t :=
  {| output := output e; rhs := rhs e; is_Increment := is_Increment e;
     is_ForeignExpression := is_ForeignExpression e; pragmas := [p] |}.
(** [DummyEq(lhs, rhs)] wrapped in an [Expression]. *)
Definition DummyEq (lhs : Function.t) (value : SExpr) : t :=
  {| output := Scalar lhs; rhs := value; is_Increment := false;
     is_ForeignExpression := false; pragmas := [] |}.
End Expression.

Module IterationArgs.
(** What [root.args] carries besides the body: the loop's dimension, bounds,
    step and legality properties. *)
Record t : Type := {
  dim : Dimension.t;
  symbolic_min : SExpr;
  symbolic_size : SExpr;
  step : SExpr;
  is_ParallelRelaxed : bool;
  is_ParallelAtomic : bool;
  is_Affine : bool;
  is_Vectorized : bool
}.
#[global] Instance eq_dec : EqDecision t.
Proof. solve_decision. Defined.
End IterationArgs.

Module ParallelIteration.
(** The keyword arguments of [self._Iteration(...)]. *)
Record kwargs : Type := {
  schedule : option string;
  ncollapse : nat;
  parallel : bool;
  nthreads : option Symbol.t;
  chunk_size : option Function.t;
  gpu_fit : option (list Function.t);
  reduction : option (list Lhs)
}.
#[global] Instance eq_dec : EqDecision kwargs.
Proof. solve_decision. Defined.
(** [root._rebuild(reduction=r)] *)
Definition _rebuild_reduction (k : kwargs) (r : list Lhs) : kwargs :=
  {| schedule := schedule k; ncollapse := ncollapse k; parallel := parallel k;
     nthreads := nthreads k; chunk_size := chunk_size k; gpu_fit := gpu_fit k;
     reduction := Some r |}.
End ParallelIteration.

(** cgen objects placed in headers and footers. *)
Inductive CGen : Type :=
| Initializer (ctype : string) (cname : string) (value : Builder)
| Line.

#[global] Instance CGen_eq_dec : EqDecision CGen.
Proof. solve_decision. Defined.

(** The nodes of an Iteration/Expression Tree. [Iteration_ None] is a plain
    loop, [Iteration_ (Some kw)] a loop built by [self._Iteration]
    ([ParallelIteration]); [ParallelBlock] is [self._Region]. *)
Inductive Node : Type :=
| Expression_ (e : Expression.t)
| ExpressionBundle (ops : Z) (body : list Node)
| Iteration_ (kw : option ParallelIteration.kwargs) (a : IterationArgs.t)
             (nodes : list Node)
| ParallelTree (prefix : list Node) (body : Node) (nthreads : option Symbol.t)
| ParallelBlock (body : list Node)
| List_ (header : list CGen) (body : list Node) (footer : list CGen)
| Conditional (condition : Boolean) (then_body : list Node)
| Return
| Dereference (array : Function.t) (parray : PointerArray.t)
| Prodder (name : string) (single_thread : bool).

Fixpoint Node_eq_dec (x y : Node) {struct x} : {x = y} + {x <> y}.
Proof.
  pose proof (List.list_eq_dec Node_eq_dec) as Hl.
  decide equality; try solve [apply Hl]; try solve_decision.
Defined.

#[global] Instance Node_EqDecision : EqDecision Node := Node_eq_dec.

(** Induction over trees, with the property available on every child. *)
Section NodeInduction.
Variable P : Node -> Prop.
Hypothesis HExpression : forall e, P (Expression_ e).
Hypothesis HBundle : forall ops body, Forall P body -> P (ExpressionBundle ops body).
Hypothesis HIteration : forall kw a nodes, Forall P nodes -> P (Iteration_ kw a nodes).
Hypothesis HTree : forall prefix body nthreads,
  Forall P prefix -> P body -> P (ParallelTree prefix body nthreads).
Hypothesis HBlock : forall body, Forall P body -> P (ParallelBlock body).
Hypothesis HList : forall header body footer, Forall P body -> P (List_ header body footer).
Hypothesis HConditional : forall c body, Forall P body -> P (Conditional c body).
Hypothesis HReturn : P Return.
Hypothesis HDereference : forall a pa, P (Dereference a pa).
Hypothesis HProdder : forall n st, P (Prodder n st).

Fixpoint Node_nested_ind (o : Node) : P o :=
  let all := fix all (l : list Node) : Forall P l :=
    match l with
    | [] => @List.Forall_nil _ P
    | x :: l' => @List.Forall_cons _ P x l' (Node_nested_ind x) (all l')
    end in
  match o with
  | Expression_ e => HExpression e
  | ExpressionBundle ops body => HBundle ops body (all body)
  | Iteration_ kw a nodes => HIteration kw a nodes (all nodes)
  | ParallelTree prefix body nthreads =>
      HTree prefix body nthreads (all prefix) (Node_nested_ind body)
  | ParallelBlock body => HBlock body (all body)
  | List_ header body footer => HList header body footer (all body)
  | Conditional c body => HConditional c body (all body)
  | Return => HReturn
  | Dereference a pa => HDereference a pa
  | Prodder n st => HProdder n st
  end.
End NodeInduction.

Module Iteration.
(** An [Iteration] object: the typed view of an [Iteration_] node. *)
Record t : Type := {
  kw : option ParallelIteration.kwargs;
  args : IterationArgs.t;
  nodes : list Node
}.
Definition to_node (i : t) : Node := Iteration_ (kw i) (args i) (nodes i).
Definition dim (i : t) := IterationArgs.dim (args i).
Definition symbolic_min (i : t) := IterationArgs.symbolic_min (args i).
Definition symbolic_size (i : t) := IterationArgs.symbolic_size (args i).
Definition step (i : t) := IterationArgs.step (args i).
Definition is_ParallelRelaxed (i : t) := IterationArgs.is_ParallelRelaxed (args i).
Definition is_ParallelAtomic (i : t) := IterationArgs.is_ParallelAtomic (args i).
Definition is_Affine (i : t) := IterationArgs.is_Affine (args i).
Definition is_Vectorized (i : t) := IterationArgs.is_Vectorized (args i).
#[global] Instance eq_dec : EqDecision t.
Proof. solve_decision. Defined.
End Iteration.

Coercion Iteration.to_node : Iteration.t >-> Node.

(** Modelled from the spec: the node classes of the IET node model that the
    pass searches for, and the attributes [root], [prefix] and the loop
    properties that a [ParallelTree] forwards to its root loop. A node of the
    wrong class has no such attribute. *)
Inductive NodeClass : Type :=
| Expression | ExpressionBundle_ | ParallelTree_ | Dereference_ | Prodder_.

Definition isinstance (o : Node) (c : NodeClass) : bool :=
  match o, c with
  | Expression_ _, Expression => true
  | ExpressionBundle _ _, ExpressionBundle_ => true
  | ParallelTree _ _ _, ParallelTree_ => true
  | Dereference _ _, Dereference_ => true
  | Prodder _ _, Prodder_ => true
  | _, _ => false
  end.

(** [isinstance(o, self._Iteration)] *)
Definition isinstance__Iteration (o : Node) : bool :=
  match o with
  | Iteration_ (Some _) _ _ => true
  | _ => false
  end.

Definition root (partree : Node) : Result Node :=
  match partree with
  | ParallelTree _ body _ => Ok body
  | _ => Raise AttributeError
  end.

Definition prefix (partree : Node) : Result (list Node) :=
  match partree with
  | ParallelTree prefix _ _ => Ok prefix
  | _ => Raise AttributeError
  end.

Fixpoint loop_args (o : Node) : Result IterationArgs.t :=
  match o with
  | Iteration_ _ a _ => Ok a
  | ParallelTree _ body _ => loop_args body
  | _ => Raise AttributeError
  end.

Fixpoint ncollapsed (o : Node) : Result nat :=
  match o with
  | Iteration_ (Some kw) _ _ => Ok (ParallelIteration.ncollapse kw)
  | ParallelTree _ body _ => ncollapsed body
  | _ => Raise AttributeError
  end.

(** Modelled from the spec: [FindNodes(cls).visit(o)], the nodes of class
    [cls] in [o], parents before children and left to right. *)
Fixpoint FindNodes (c : NodeClass) (o : Node) : list Node :=
  (if isinstance o c then [o] else []) ++
  match o with
  | ExpressionBundle _ body => flat_map (FindNodes c) body
  | Iteration_ _ _ nodes => flat_map (FindNodes c) nodes
  | ParallelTree prefix body _ => flat_map (FindNodes c) prefix ++ FindNodes c body
  | ParallelBlock body => flat_map (FindNodes c) body
  | List_ _ body _ => flat_map (FindNodes c) body
  | Conditional _ body => flat_map (FindNodes c) body
  | _ => []
  end.

(** A Python dictionary keyed by nodes. Keys are compared structurally. *)
Definition NodeDict : Type := list (Node * Node).

Fixpoint dict_get (d : NodeDict) (k : Node) : option Node :=
  match d with
  | [] => None
  | (k', v) :: d' => if decide (k' = k) then Some v else dict_get d' k
  end.

Definition dict_in (k : Node) (d : NodeDict) : bool :=
  match dict_get d k with
  | Some _ => true
  | None => false
  end.

Definition dict_set (d : NodeDict) (k v : Node) : NodeDict := (k, v) :: d.

(** Modelled from the spec: [Transformer(mapper).visit(o)], the tree [o]
    with every node that is a key of the substitution map replaced by its
    image, all other nodes rebuilt over their transformed children. *)
Fixpoint Transformer (mapper : NodeDict) (o : Node) : Node :=
  match dict_get mapper o with
  | Some handle => handle
  | None =>
      match o with
      | ExpressionBundle ops body => ExpressionBundle ops (map (Transformer mapper) body)
      | Iteration_ kw a nodes => Iteration_ kw a (map (Transformer mapper) nodes)
      | ParallelTree prefix body nthreads =>
          ParallelTree (map (Transformer mapper) prefix) (Transformer mapper body) nthreads
      | ParallelBlock body => ParallelBlock (map (Transformer mapper) body)
      | List_ header body footer => List_ header (map (Transformer mapper) body) footer
      | Conditional c body => Conditional c (map (Transformer mapper) body)
      | _ => o
      end
  end.

Definition as_Expression (o : Node) : option Expression.t :=
  match o with
  | Expression_ e => Some e
  | _ => None
  end.

Definition as_ExpressionBundle_ops (o : Node) : option Z :=
  match o with
  | ExpressionBundle ops _ => Some ops
  | _ => None
  end.

(** [any(f(i) for i in l)] and [all(f(i) for i in l)] over attribute lookups
    that may fail; both stop at the first element that decides them. *)
Fixpoint anyM {A : Type} (f : A -> Result bool) (l : list A) : Result bool :=
  match l with
  | [] => Ok false
  | x :: l' => b ← f x; if b : bool then Ok true else anyM f l'
  end.

Fixpoint allM {A : Type} (f : A -> Result bool) (l : list A) : Result bool :=
  match l with
  | [] => Ok true
  | x :: l' => b ← f x; if b : bool then allM f l' else Ok false
  end.

(** ** What the pass consumes from its collaborators

    The analyses of [devito.ir], the symbol registry's naming scheme and the
    printers are taken as they come; every result below holds whatever they
    compute. *)
Class DevitoIR : Type := {
  (** [IsPerfectIteration(depth=i).visit(root)] *)
  IsPerfectIteration : Iteration.t -> Iteration.t -> bool;
  retrieve_iteration_tree : Node -> list (list Iteration.t);
  filter_iterations : list Iteration.t -> (Iteration.t -> bool) -> list Iteration.t;
  (** [FindSymbols().visit(o)] *)
  FindSymbols : Node -> list Function.t;
  isinstance_NThreadsMixin : Function.t -> bool;
  (** [is_integer(a - b)] *)
  is_integer_sub : SExpr -> SExpr -> bool;
  (** [self._Prodder(i)] *)
  _Prodder : Node -> Node;
  (** the [n]-th name drawn from [sregistry.make_name()] *)
  make_name : nat -> string;
  (** [f._C_get_field(FULL, d).size] *)
  _C_get_field_size : Function.t -> Dimension.t -> SExpr;
  (** ['%s' % e] and [ccode(e)] *)
  str : SExpr -> string;
  ccode : SExpr -> string
}.

Module Platform.
Record t : Type := { cores_physical : Z; threads_per_core : Z }.
End Platform.

Module SymbolRegistry.
Record t : Type := {
  nthreads : Symbol.t;
  nthreads_nested : Symbol.t;
  nthreads_nonaffine : Symbol.t;
  threadid : Symbol.t
}.
End SymbolRegistry.

(** The optimization options, by the key they are read from. *)
Record Options : Type := {
  par_collapse_ncores : Z;
  par_collapse_work : Z;
  par_chunk_nonaffine : Z;
  par_dynamic_work : Z;
  par_nested : Z;
  opt_gpu_fit : list Function.t;
  opt_par_disabled : bool
}.

(** The methods that [_make_parallel] and [_make_nested_partree] reach
    through [self], so that a subclass's overrides are the ones called. *)
Record Methods : Type := {
  m_make_partree :
    list Iteration.t -> option Symbol.t ->
    Result (Iteration.t * option (Node * list Node));
  m_make_nested_partree : Node -> Result Node;
  m_make_reductions : Node -> list Node -> Result Node;
  m_make_threaded_prodders : Node -> Result Node;
  m_make_parregion :
    Node -> gmap Function.t PointerArray.t * nat ->
    Result (Node * (gmap Function.t PointerArray.t * nat));
  m_make_guard : Node -> list Node -> Result Node
}.

(** The arguments a pass reports for the enclosing routine. *)
Inductive Arg : Type :=
| ArgSymbol (s : Function.t)
| ArgArray (a : Function.t) (writethrough : bool)
| ArgPointerArray (pa : PointerArray.t).

Module PragmaParallelizer.

(** The object [self]: what [__init__] stores, and the class attribute
    [lang]. *)
Record t : Type := {
  sregistry : SymbolRegistry.t;
  platform : Platform.t;
  collapse_ncores : Z;
  collapse_work : Z;
  chunk_nonaffine : Z;
  dynamic_work : Z;
  nested : Z;
  lang : Constructs Builder
}.

Definition __init__ (sregistry : SymbolRegistry.t) (options : Options)
    (platform : Platform.t) (lang : Constructs Builder) : t :=
  {| sregistry := sregistry; platform := platform;
     collapse_ncores := par_collapse_ncores options;
     collapse_work := par_collapse_work options;
     chunk_nonaffine := par_chunk_nonaffine options;
     dynamic_work := par_dynamic_work options;
     nested := par_nested options;
     lang := lang |}.

(** [self.key]: [lambda i: i.is_ParallelRelaxed and not i.is_Vectorized] *)
Definition key (i : Iteration.t) : bool :=
  Iteration.is_ParallelRelaxed i && negb (Iteration.is_Vectorized i).

Section Methods.
Context `{DevitoIR} (self : t).

Definition ncores : Z := Platform.cores_physical (platform self).
Definition nhyperthreads : Z := Platform.threads_per_core (platform self).
Definition nthreads : Symbol.t := SymbolRegistry.nthreads (sregistry self).
Definition nthreads_nested : Symbol.t := SymbolRegistry.nthreads_nested (sregistry self).
Definition nthreads_nonaffine : Symbol.t := SymbolRegistry.nthreads_nonaffine (sregistry self).
Definition threadid : Symbol.t := SymbolRegistry.threadid (sregistry self).

(** The body of [try: ... except TypeError: pass] in [_find_collapsable]:
    [Ok true] when the loop must [break]. *)
Definition not_enough_work (nested : list Iteration.t) : Result bool :=
  match mapM (fun j => int_ (Dimension.symbolic_size (Iteration.dim j))) nested with
  | Ok sizes => Ok (bool_decide (prodZ sizes < collapse_work self))
  | Raise TypeError => Ok false
  | Raise e => Raise e
  end.

(** [any(j.dim in i.symbolic_min.free_symbols for j in candidates[:n])] *)
Definition bound_depends (i : Iteration.t) (outer : list Iteration.t) : bool :=
  existsb (fun j => bool_decide (Dimension.name (Iteration.dim j)
                                   ∈ free_symbols (Iteration.symbolic_min i)))
          outer.

(** The [for n, i in enumerate(candidates[1:], 1)] loop; returning is
    [break]. *)
Fixpoint _find_collapsable_loop (root : Iteration.t) (candidates : list Iteration.t)
    (n : nat) (rest : list Iteration.t) (collapsable : list Iteration.t)
    : Result (list Iteration.t) :=
  match rest with
  | [] => Ok collapsable
  | i :: rest' =>
      if negb (IsPerfectIteration i root) then Ok collapsable
      else if bound_depends i (take n candidates) then Ok collapsable
      else if Iteration.is_Vectorized i then Ok collapsable
      else
        let nested := drop (n + 1) candidates in
        stop ← match nested with
               | [] => Ok false
               | _ => not_enough_work nested
               end;
        if stop : bool then Ok collapsable
        else _find_collapsable_loop root candidates (S n) rest' (collapsable ++ [i])
  end.

Definition _find_collapsable (root : Iteration.t) (candidates : list Iteration.t)
    : Result (list Iteration.t) :=
  if bool_decide (ncores >= collapse_ncores self) then
    _find_collapsable_loop root candidates 1 (drop 1 candidates) []
  else Ok [].

(** [cls._make_tid(tid)] *)
Definition _make_tid (tid : Symbol.t) : Result CGen :=
  v ← __getitem__ (lang self) "thread-num";
  Ok (Initializer (Symbol._C_typedata tid) (Symbol.name tid) v).

(** [partree.root._rebuild(reduction=reduction)] *)
Definition _rebuild_reduction (o : Node) (reduction : list Lhs) : Result Node :=
  match o with
  | Iteration_ (Some kw) a nodes =>
      Ok (Iteration_ (Some (ParallelIteration._rebuild_reduction kw reduction)) a nodes)
  | _ => Raise TypeError
  end.

Definition _make_reductions (partree : Node) (collapsed : list Node) : Result Node :=
  atomic ← anyM (fun i => a ← loop_args i; Ok (IterationArgs.is_ParallelAtomic a)) collapsed;
  if negb atomic then Ok partree
  else
    (* Collect expressions inducing reductions *)
    let exprs := omap as_Expression (FindNodes Expression partree) in
    let exprs := List.filter (fun i => Expression.is_Increment i
                                       && negb (Expression.is_ForeignExpression i)) exprs in
    let reduction := map Expression.output exprs in
    affine ← allM (fun i => a ← loop_args i; Ok (IterationArgs.is_Affine a)) collapsed;
    mapper ← (if affine || forallb (fun i => negb (is_Indexed i)) reduction then
                (* Implement reduction *)
                r ← root partree;
                r' ← _rebuild_reduction r reduction;
                Ok [(r, r')]
              else
                (* Make sure the increment is atomic *)
                mapM (fun i => a ← __getitem__ (lang self) "atomic";
                               Ok (Expression_ i,
                                   Expression_ (Expression._rebuild_pragmas i a)))
                     exprs);
    Ok (Transformer mapper partree).

Definition _make_threaded_prodders (partree : Node) : Result Node :=
  let mapper := map (fun i => (i, _Prodder i)) (FindNodes Prodder_ partree) in
  Ok (Transformer mapper partree).

(** [self._Iteration] applied to keyword arguments and to [root.args]. *)
Definition _Iteration (kw : ParallelIteration.kwargs) (root : Iteration.t) : Iteration.t :=
  {| Iteration.kw := Some kw; Iteration.args := Iteration.args root;
     Iteration.nodes := Iteration.nodes root |}.

(** The keyword arguments left at their defaults. *)
Definition kwargs0 (ncollapse : nat) : ParallelIteration.kwargs :=
  {| ParallelIteration.schedule := None; ParallelIteration.ncollapse := ncollapse;
     ParallelIteration.parallel := false; ParallelIteration.nthreads := None;
     ParallelIteration.chunk_size := None; ParallelIteration.gpu_fit := None;
     ParallelIteration.reduction := None |}.

Definition with_schedule (kw : ParallelIteration.kwargs) (s : string) :=
  {| ParallelIteration.schedule := Some s;
     ParallelIteration.ncollapse := ParallelIteration.ncollapse kw;
     ParallelIteration.parallel := ParallelIteration.parallel kw;
     ParallelIteration.nthreads := ParallelIteration.nthreads kw;
     ParallelIteration.chunk_size := ParallelIteration.chunk_size kw;
     ParallelIteration.gpu_fit := ParallelIteration.gpu_fit kw;
     ParallelIteration.reduction := ParallelIteration.reduction kw |}.

Definition with_parallel_nthreads (kw : ParallelIteration.kwargs) (nt : Symbol.t) :=
  {| ParallelIteration.schedule := ParallelIteration.schedule kw;
     ParallelIteration.ncollapse := ParallelIteration.ncollapse kw;
     ParallelIteration.parallel := true;
     ParallelIteration.nthreads := Some nt;
     ParallelIteration.chunk_size := ParallelIteration.chunk_size kw;
     ParallelIteration.gpu_fit := ParallelIteration.gpu_fit kw;
     ParallelIteration.reduction := ParallelIteration.reduction kw |}.

Definition with_chunk_size (kw : ParallelIteration.kwargs) (c : Function.t) :=
  {| ParallelIteration.schedule := ParallelIteration.schedule kw;
     ParallelIteration.ncollapse := ParallelIteration.ncollapse kw;
     ParallelIteration.parallel := ParallelIteration.parallel kw;
     ParallelIteration.nthreads := ParallelIteration.nthreads kw;
     ParallelIteration.chunk_size := Some c;
     ParallelIteration.gpu_fit := ParallelIteration.gpu_fit kw;
     ParallelIteration.reduction := ParallelIteration.reduction kw |}.

Definition with_gpu_fit (kw : ParallelIteration.kwargs) (g : list Function.t) :=
  {| ParallelIteration.schedule := ParallelIteration.schedule kw;
     ParallelIteration.ncollapse := ParallelIteration.ncollapse kw;
     ParallelIteration.parallel := ParallelIteration.parallel kw;
     ParallelIteration.nthreads := ParallelIteration.nthreads kw;
     ParallelIteration.chunk_size := ParallelIteration.chunk_size kw;
     ParallelIteration.gpu_fit := Some g;
     ParallelIteration.reduction := ParallelIteration.reduction kw |}.

(** The chunk size of a non-affine nest:
    [INT(Max(niters / (nthreads*self.chunk_nonaffine), 1))] *)
Definition chunk_value (niters : SExpr) (nthreads : Symbol.t) : SExpr :=
  INT (Max (Div niters (Mul (Sym (Symbol.name nthreads))
                            (Integer (chunk_nonaffine self))))
           (Integer 1)).

Definition _make_partree (candidates : list Iteration.t) (nthreads_ : option Symbol.t)
    : Result (Iteration.t * option (Node * list Node)) :=
  match candidates with
  | [] => Raise AssertionError
  | root :: _ =>
      (* Get the collapsable Iterations *)
      collapsable ← _find_collapsable root candidates;
      let ncollapse := (1 + length collapsable)%nat in
      (* Prepare to build a ParallelTree *)
      '(prefix, body, nthreads_) ←
        (if forallb Iteration.is_Affine candidates then
           let bundles := FindNodes ExpressionBundle_ root in
           let sops := foldr Z.add 0 (omap as_ExpressionBundle_ops bundles) in
           let schedule := if bool_decide (sops >= dynamic_work self)
                           then "dynamic" else "static" in
           match nthreads_ with
           | None =>
               Ok ([], _Iteration (with_schedule (kwargs0 ncollapse) schedule) root,
                   nthreads)
           | Some nthreads_ =>
               Ok ([], _Iteration (with_parallel_nthreads
                                     (with_schedule (kwargs0 ncollapse) schedule)
                                     nthreads_) root,
                   nthreads_)
           end
         else
           _ ← assert (bool_decide (nthreads_ = None));
           let nthreads_ := nthreads_nonaffine in
           let chunk_size := Function.Symbol "chunk_size" in
           let body := _Iteration (with_chunk_size (kwargs0 ncollapse) chunk_size) root in
           let niters := prod (Iteration.symbolic_size root
                               :: map Iteration.symbolic_size collapsable) in
           let value := chunk_value niters nthreads_ in
           Ok ([Expression_ (Expression.DummyEq chunk_size value)], body, nthreads_));
      (* Create a ParallelTree *)
      let partree := ParallelTree prefix (Iteration.to_node body) (Some nthreads_) in
      let collapsed := partree :: map Iteration.to_node collapsable in
      Ok (root, Some (partree, collapsed))
  end.

(** One turn of [for i in heap_private] in [_make_parregion]: the pointer
    array of [i], looked up in [parrays] and created only when absent. *)
Definition promote (st : gmap Function.t PointerArray.t * nat) (i : Function.t)
    : PointerArray.t * (gmap Function.t PointerArray.t * nat) :=
  let '(parrays, names) := st in
  match parrays !! i with
  | Some pi => (pi, st)
  | None =>
      let pi := {| PointerArray.name := make_name names;
                   PointerArray.dimensions := [threadid];
                   PointerArray.array := i |} in
      (pi, (<[i := pi]> parrays, S names))
  end.

Fixpoint heap_globals_loop (heap_private : list Function.t)
    (st : gmap Function.t PointerArray.t * nat) (heap_globals : list Node)
    : list Node * (gmap Function.t PointerArray.t * nat) :=
  match heap_private with
  | [] => (heap_globals, st)
  | i :: rest =>
      let '(pi, st') := promote st i in
      heap_globals_loop rest st' (heap_globals ++ [Dereference i pi])
  end.

(** [partree._rebuild(prefix=prefix)] *)
Definition _rebuild_prefix (o : Node) (p : list Node) : Result Node :=
  match o with
  | ParallelTree _ body nthreads => Ok (ParallelTree p body nthreads)
  | _ => Raise TypeError
  end.

(** The arrays of the unit that are thread-private and on the heap. *)
Definition heap_private (partree : Node) : list Function.t :=
  let arrays := List.filter Function.is_Array (FindSymbols partree) in
  List.filter (fun i => Function._mem_heap i && Function._mem_local i) arrays.

Definition _make_parregion (partree : Node) (st : gmap Function.t PointerArray.t * nat)
    : Result (Node * (gmap Function.t PointerArray.t * nat)) :=
  (* Detect thread-private arrays on the heap and "map" them to shared
     vector-expanded (one entry per thread) Arrays *)
  let '(heap_globals, st') := heap_globals_loop (heap_private partree) st [] in
  partree ← match heap_globals with
            | [] => Ok partree
            | _ =>
                tid ← _make_tid threadid;
                pfx ← prefix partree;
                let prefix := List_ [tid] (heap_globals ++ pfx) [Line] in
                _rebuild_prefix partree [prefix]
            end;
  Ok (ParallelBlock [partree], st').

Definition _make_guard (partree : Node) (collapsed : list Node) : Result Node :=
  (* Do not enter the parallel region if the step increment is 0 *)
  steps ← mapM (fun i => a ← loop_args i; Ok (IterationArgs.step a)) collapsed;
  let cond := map (fun s => CondEq s (Integer 0)) (List.filter isinstance_Symbol steps) in
  let cond := Or cond in
  if bool_decide (cond <> BooleanFalse) then
    Ok (List_ [] [Conditional cond [Return]; partree] [])
  else Ok partree.

(** The [for i in inner] loop of [_make_nested_partree]. *)
Fixpoint nested_candidates (outer inner candidates : list Iteration.t)
    : list Iteration.t :=
  match inner with
  | [] => candidates
  | i :: inner' =>
      if key i && existsb (fun j => is_integer_sub (Iteration.step j)
                                                   (Iteration.symbolic_size i)) outer
      then nested_candidates outer inner' (candidates ++ [i])
      else match candidates with
           | [] => nested_candidates outer inner' candidates
           | _ => candidates
           end
  end.

(** The [for tree in retrieve_iteration_tree(partree)] loop of
    [_make_nested_partree]. A sub-nest whose parallelization is declined is
    mapped to [None] and so dropped by the rewrite: an empty [List]. *)
Fixpoint _make_nested_partree_loop
    (make_partree : list Iteration.t -> option Symbol.t ->
                    Result (Iteration.t * option (Node * list Node)))
    (partree : Node) (trees : list (list Iteration.t)) (mapper : NodeDict)
    : Result NodeDict :=
  match trees with
  | [] => Ok mapper
  | tree :: trees' =>
      nc ← ncollapsed partree;
      let outer := take nc tree in
      let inner := drop nc tree in
      let candidates := nested_candidates outer inner [] in
      match candidates with
      | [] => _make_nested_partree_loop make_partree partree trees' mapper
      | _ =>
          (* Introduce nested parallelism *)
          '(subroot, sub) ← make_partree candidates (Some nthreads_nested);
          let subpartree := match sub with
                            | Some (subpartree, _) => subpartree
                            | None => List_ [] [] []
                            end in
          _make_nested_partree_loop make_partree partree trees'
            (dict_set mapper (Iteration.to_node subroot) subpartree)
      end
  end.

Definition _make_nested_partree
    (make_partree : list Iteration.t -> option Symbol.t ->
                    Result (Iteration.t * option (Node * list Node)))
    (partree : Node) : Result Node :=
  (* Apply heuristic *)
  if bool_decide (nhyperthreads <= nested self) then Ok partree
  else
    mapper ← _make_nested_partree_loop make_partree partree
               (retrieve_iteration_tree partree) [];
    Ok (Transformer mapper partree).

(** The [for tree in retrieve_iteration_tree(iet)] loop of [_make_parallel],
    over the substitution map, [parrays] and the registry's name counter. *)
Fixpoint _make_parallel_loop (m : Methods) (trees : list (list Iteration.t))
    (mapper : NodeDict) (st : gmap Function.t PointerArray.t * nat)
    : Result (NodeDict * (gmap Function.t PointerArray.t * nat)) :=
  match trees with
  | [] => Ok (mapper, st)
  | tree :: trees' =>
      (* Get the parallelizable Iterations in `tree` *)
      let candidates := filter_iterations tree key in
      match candidates with
      | [] => _make_parallel_loop m trees' mapper st
      | _ =>
          (* Outer parallelism *)
          '(root, res) ← m_make_partree m candidates None;
          match res with
          | None => _make_parallel_loop m trees' mapper st
          | Some (partree, collapsed) =>
              if dict_in (Iteration.to_node root) mapper
              then _make_parallel_loop m trees' mapper st
              else
                (* Nested parallelism *)
                partree ← m_make_nested_partree m partree;
                (* Handle reductions *)
                partree ← m_make_reductions m partree collapsed;
                (* Atomicize and optimize single-thread prodders *)
                partree ← m_make_threaded_prodders m partree;
                (* Wrap within a parallel region *)
                '(parregion, st') ← m_make_parregion m partree st;
                (* Protect the parallel region if necessary *)
                parregion ← m_make_guard m parregion collapsed;
                _make_parallel_loop m trees'
                  (dict_set mapper (Iteration.to_node root) parregion) st'
          end
      end
  end.

Definition dereference_args (n : Node) : list Arg :=
  match n with
  | Dereference a pa => [ArgArray a true; ArgPointerArray pa]
  | _ => []
  end.

(** [_make_parallel]; [names] is the registry's name counter on entry, and
    the counter on exit is returned with the result. *)
Definition _make_parallel (m : Methods) (iet : Node) (names : nat)
    : Result (Node * (list Arg * list Builder) * nat) :=
  '(mapper, (parrays, names')) ←
    _make_parallel_loop m (retrieve_iteration_tree iet) [] (∅, names);
  let iet := Transformer mapper iet in
  (* The new arguments introduced by this pass *)
  let args := map ArgSymbol (List.filter isinstance_NThreadsMixin (FindSymbols iet)) in
  let args := args ++ flat_map dereference_args (FindNodes Dereference_ iet) in
  header ← __getitem__ (lang self) "header";
  Ok (iet, (args, [header]), names').

(** The methods of a [PragmaParallelizer] object. *)
Definition methods : Methods :=
  {| m_make_partree := _make_partree;
     m_make_nested_partree := _make_nested_partree _make_partree;
     m_make_reductions := _make_reductions;
     m_make_threaded_prodders := _make_threaded_prodders;
     m_make_parregion := _make_parregion;
     m_make_guard := _make_guard |}.

(** [make_parallel] *)
Definition make_parallel (iet : Node) (names : nat) :=
  _make_parallel methods iet names.

End Methods.

End PragmaParallelizer.

(** ** Device placement *)

(** What [is_on_device] may be given: an [Indexed], a [Function], or a piece
    of IET. *)
Inductive MaybeSymbol : Type :=
| OfIndexed (i : Lhs)
| OfFunction (f : Function.t)
| OfNode (iet : Node).

(** The test under [all(...)] in [is_on_device]: [f] is kept on the host. *)
Definition not_on_device (gpu_fit : list Function.t) (f : Function.t) : bool :=
  Function.is_TimeFunction f && bool_decide (Function.save f <> None)
  && negb (bool_decide (f ∈ gpu_fit)).

(** The functions [is_on_device] inspects. *)
Definition inspected_functions `{DevitoIR} (maybe_symbol : MaybeSymbol)
    (only_writes : bool) : gset Function.t :=
  match maybe_symbol with
  | OfIndexed i => {[ function i ]}
  | OfFunction f => {[ f ]}
  | OfNode iet =>
      let functions := list_to_set (FindSymbols iet) in
      if only_writes then
        let expressions := omap as_Expression (FindNodes Expression iet) in
        functions ∩ list_to_set (map Expression.write expressions)
      else functions
  end.

Definition is_on_device `{DevitoIR} (maybe_symbol : MaybeSymbol)
    (gpu_fit : list Function.t) (only_writes : bool) : bool :=
  let functions := inspected_functions maybe_symbol only_writes in
  forallb (fun f => negb (not_on_device gpu_fit f)) (elements functions).

(** ** The device-aware specializer *)

(** An entry of an index mask: the whole extent, a [(start, size)] pair, or
    a single index. *)
Inductive IMask : Type :=
| FULL
| Range (start size : SExpr)
| Index (start : SExpr).

(** A dialect builder applied to its arguments. *)
Inductive Directive : Type := Apply (b : Builder) (args : list string).

Module DeviceAwarePragmaParallelizer.

Record t : Type := {
  base : PragmaParallelizer.t;
  gpu_fit : list Function.t;
  par_disabled : bool
}.

Definition __init__ (sregistry : SymbolRegistry.t) (options : Options)
    (platform : Platform.t) (lang : Constructs Builder) : t :=
  {| base := PragmaParallelizer.__init__ sregistry options platform lang;
     gpu_fit := opt_gpu_fit options;
     par_disabled := opt_par_disabled options |}.

Section Methods.
Context `{DevitoIR} (self : t).

Definition lang : Constructs Builder := PragmaParallelizer.lang (base self).

Definition _map_data (f : Function.t) : list SExpr :=
  if Function.is_Array f then Function.symbolic_shape f
  else map (fun d => _C_get_field_size f d) (Function.dimensions f).

Definition section_of (i : IMask) (j : SExpr) : string :=
  match i with
  | FULL => "[" +:+ "0" +:+ ":" +:+ str j +:+ "]"
  | Range start size => "[" +:+ ccode start +:+ ":" +:+ str size +:+ "]"
  | Index start => "[" +:+ ccode start +:+ ":" +:+ "1" +:+ "]"
  end.

Definition _make_sections_from_imask (f : Function.t) (imask : option (list IMask))
    : Result string :=
  let datasize := _map_data f in
  let imask := match imask with
               | None => replicate (length datasize) FULL
               | Some imask => imask
               end in
  _ ← assert (bool_decide (length imask = length datasize));
  let sections := map (fun ij => section_of ij.1 ij.2) (zip imask datasize) in
  Ok (String.concat "" sections).

Definition _map_to (f : Function.t) (imask : option (list IMask)) : Result Directive :=
  sections ← _make_sections_from_imask f imask;
  b ← __getitem__ lang "map-enter-to";
  Ok (Apply b [Function.name f; sections]).

Definition _map_alloc (f : Function.t) (imask : option (list IMask)) : Result Directive :=
  sections ← _make_sections_from_imask f imask;
  b ← __getitem__ lang "map-enter-alloc";
  Ok (Apply b [Function.name f; sections]).

Definition full_sections (f : Function.t) : string :=
  String.concat "" (map (fun i => "[0:" +:+ str i +:+ "]") (_map_data f)).

Definition _map_update (f : Function.t) : Result Directive :=
  b ← __getitem__ lang "map-update";
  Ok (Apply b [Function.name f; full_sections f]).

Definition _map_update_host (f : Function.t) (imask : option (list IMask))
    : Result Directive :=
  sections ← _make_sections_from_imask f imask;
  b ← __getitem__ lang "map-update-host";
  Ok (Apply b [Function.name f; sections]).

Definition _map_update_device (f : Function.t) (imask : option (list IMask))
    : Result Directive :=
  sections ← _make_sections_from_imask f imask;
  b ← __getitem__ lang "map-update-device";
  Ok (Apply b [Function.name f; sections]).

Definition _map_release (f : Function.t) (devicerm : option Symbol.t) : Result Directive :=
  b ← __getitem__ lang "map-release";
  Ok (Apply b [Function.name f; full_sections f;
               match devicerm with
               | Some devicerm => " if(" +:+ Symbol.name devicerm +:+ ")"
               | None => ""
               end]).

(** The items joined by [' && '] in [_map_delete]. *)
Definition delete_items (f : Function.t) (devicerm : option Symbol.t) : list string :=
  let items := [] in
  let items := match devicerm with
               | Some devicerm => items ++ [Symbol.name devicerm]
               | None => items
               end in
  items ++ map (fun i => "(" +:+ str i +:+ " != 0)") (_map_data f).

Definition _map_delete (f : Function.t) (imask : option (list IMask))
    (devicerm : option Symbol.t) : Result Directive :=
  sections ← _make_sections_from_imask f imask;
  (* This ugly condition is to avoid a copy-back when, due to
     domain decomposition, the local size of a Function is 0, which
     would cause a crash *)
  let items := delete_items f devicerm in
  let cond := " if(" +:+ String.concat " && " items +:+ ")" in
  b ← __getitem__ lang "map-exit-delete";
  Ok (Apply b [Function.name f; sections; cond]).

Definition _make_threaded_prodders (partree : Node) : Result Node :=
  r ← root partree;
  if isinstance__Iteration r then Ok partree (* no-op for now *)
  else PragmaParallelizer._make_threaded_prodders partree.

Definition _make_partree (candidates : list Iteration.t) (nthreads : option Symbol.t)
    : Result (Iteration.t * option (Node * list Node)) :=
  match candidates with
  | [] => Raise AssertionError
  | root :: _ =>
      if is_on_device (OfNode (Iteration.to_node root)) (gpu_fit self) true then
        (* Get the collapsable Iterations *)
        collapsable ← PragmaParallelizer._find_collapsable (base self) root candidates;
        let ncollapse := (1 + length collapsable)%nat in
        let body := PragmaParallelizer._Iteration
                      (PragmaParallelizer.with_gpu_fit
                         (PragmaParallelizer.kwargs0 ncollapse) (gpu_fit self)) root in
        let partree := ParallelTree [] (Iteration.to_node body) nthreads in
        let collapsed := partree :: map Iteration.to_node collapsable in
        Ok (root, Some (partree, collapsed))
      else if negb (par_disabled self) then
        (* Resort to host parallelism *)
        PragmaParallelizer._make_partree (base self) candidates nthreads
      else Ok (root, None)
  end.

Definition _make_parregion (partree : Node) (st : gmap Function.t PointerArray.t * nat)
    : Result (Node * (gmap Function.t PointerArray.t * nat)) :=
  r ← root partree;
  if isinstance__Iteration r then Ok (partree, st) (* no-op for now *)
  else PragmaParallelizer._make_parregion (base self) partree st.

(** [i.root for i in partrees] *)
Definition roots (partrees : list Node) : list Node :=
  omap (fun i => match i with
                 | ParallelTree _ body _ => Some body
                 | _ => None
                 end) partrees.

Definition _make_guard (parregion : Node) (collapsed : list Node) : Result Node :=
  let partrees := FindNodes ParallelTree_ parregion in
  if existsb isinstance__Iteration (roots partrees) then Ok parregion (* no-op for now *)
  else PragmaParallelizer._make_guard parregion collapsed.

Definition _make_nested_partree (partree : Node) : Result Node :=
  r ← root partree;
  if isinstance__Iteration r then Ok partree (* no-op for now *)
  else PragmaParallelizer._make_nested_partree (base self) _make_partree partree.

(** The methods of a [DeviceAwarePragmaParallelizer] object: its overrides,
    and [_make_reductions] as inherited. *)
Definition methods : Methods :=
  {| m_make_partree := _make_partree;
     m_make_nested_partree := _make_nested_partree;
     m_make_reductions := PragmaParallelizer._make_reductions (base self);
     m_make_threaded_prodders := _make_threaded_prodders;
     m_make_parregion := _make_parregion;
     m_make_guard := _make_guard |}.

Definition make_parallel (iet : Node) (names : nat) :=
  PragmaParallelizer._make_parallel (base self) methods iet names.

End Methods.

End DeviceAwarePragmaParallelizer.

(** ** The host specializer *)

(** The properties attached to a loop; [make_simd] adds [VECTORIZED]. *)
Inductive Property : Type :=
| VECTORIZED
| OtherProperty (name : string).

#[global] Instance Property_eq_dec : EqDecision Property.
Proof. solve_decision. Defined.

(** A pragma attached to a loop: a construct of the dialect as it is, or
    the construct for aligned vectorization applied to the names of the
    aligned functions, joined by commas, and to the register size. *)
Inductive Pragma : Type :=
| PragmaOf (b : Builder)
| PragmaAligned (b : Builder) (names : string) (simd_reg_size : Z).

#[global] Instance Pragma_eq_dec : EqDecision Pragma.
Proof. solve_decision. Defined.

(** What [make_simd] reads of its collaborators, besides the analyses
    above: further attributes of loops, functions and the platform, and the
    rebuilding of a loop with new pragmas and properties. *)
Class DevitoLoops : Type := {
  is_Parallel : Iteration.t -> bool;
  (** [FindSymbols('symbolics').visit(o)] *)
  FindSymbols_symbolics : Node -> list Function.t;
  is_DiscreteFunction : Function.t -> bool;
  (** [i.pragmas] and [i.properties] *)
  pragmas : Iteration.t -> list Pragma;
  properties : Iteration.t -> list Property;
  (** [i._rebuild(pragmas=pragmas, properties=properties)] *)
  _rebuild : Iteration.t -> list Pragma -> list Property -> Node;
  (** [platform.simd_reg_size] *)
  platform_simd_reg_size : Platform.t -> Z
}.

Module HostPragmaParallelizer.

Section Methods.
Context `{DevitoIR} `{DevitoLoops} (self : PragmaParallelizer.t).

Definition simd_reg_size : Z := platform_simd_reg_size (PragmaParallelizer.platform self).

(** The [for tree in retrieve_iteration_tree(iet)] loop of [make_simd],
    over the substitution map. *)
Fixpoint make_simd_loop (trees : list (list Iteration.t)) (mapper : NodeDict)
    : Result NodeDict :=
  match trees with
  | [] => Ok mapper
  | tree :: trees' =>
      let candidates := List.filter is_Parallel tree in
      (* As long as there's an outer level of parallelism, the innermost
         PARALLEL Iteration gets vectorized *)
      match candidates with
      | [] | [_] => make_simd_loop trees' mapper
      | outermost :: inner =>
          let candidate := List.last inner outermost in
          (* Add SIMD pragma *)
          let aligned := List.filter is_DiscreteFunction
                           (FindSymbols_symbolics (Iteration.to_node candidate)) in
          simd ← match aligned with
                 | [] =>
                     simd ← __getitem__ (PragmaParallelizer.lang self) "simd-for";
                     Ok [PragmaOf simd]
                 | _ =>
                     simd ← __getitem__ (PragmaParallelizer.lang self) "simd-for-aligned";
                     Ok [PragmaAligned simd
                           (String.concat "," (map Function.name aligned))
                           simd_reg_size]
                 end;
          let pragmas := pragmas candidate ++ simd in
          (* Add VECTORIZED property *)
          let properties := properties candidate ++ [VECTORIZED] in
          make_simd_loop trees'
            (dict_set mapper (Iteration.to_node candidate)
                      (_rebuild candidate pragmas properties))
      end
  end.

(** [make_simd]; the pass reports neither arguments nor includes. *)
Definition make_simd (iet : Node) : Result (Node * (list Arg * list Builder)) :=
  mapper ← make_simd_loop (retrieve_iteration_tree iet) [];
  let iet := Transformer mapper iet in
  Ok (iet, ([], [])).

End Methods.

End HostPragmaParallelizer.

(** * The stated properties, in the terms of the model

    The definitions of this part follow the wording of the properties, to
    be compared with what the code computes. *)

(** ** The guard of map-exit-delete *)

(** The guard as the specification words it: the removal flag, when one is
    supplied, and one non-zero test per mapped extent, all conjoined. *)
Inductive GuardTest : Type :=
| RemovalFlag (name : string)
| NonZero (extent : SExpr).

Definition guard_tests `{DevitoIR} (f : Function.t) (devicerm : option Symbol.t)
    : list GuardTest :=
  match devicerm with
  | Some d => [RemovalFlag (Symbol.name d)]
  | None => []
  end ++ map NonZero (DeviceAwarePragmaParallelizer._map_data f).

Definition render_test `{DevitoIR} (t : GuardTest) : string :=
  match t with
  | RemovalFlag n => n
  | NonZero e => "(" +:+ str e +:+ " != 0)"
  end.

Definition render_guard `{DevitoIR} (tests : list GuardTest) : string :=
  " if(" +:+ String.concat " && " (map render_test tests) +:+ ")".

(** What a test evaluates to at run time, given the flags and the values of
    the symbols; a conjunction holds when all its tests do. *)
Definition test_holds (flags : string -> bool) (rho : string -> Q) (t : GuardTest) : bool :=
  match t with
  | RemovalFlag n => flags n
  | NonZero e => negb (Qeq_bool (eval rho e) 0)
  end.

Definition guard_holds (flags : string -> bool) (rho : string -> Q)
    (tests : list GuardTest) : bool :=
  forallb (test_holds flags rho) tests.

(** ** Collapse groups *)

Section CollapseSpecification.
Context `{DevitoIR} (self : PragmaParallelizer.t).

(** The size of a loop's dimension when it is a number. *)
Definition static_size (j : Iteration.t) : option Z :=
  let e := Dimension.symbolic_size (Iteration.dim j) in
  if decide (free_symbols e = ∅) then Some (Qtrunc (eval (fun _ => 0%Q) e)) else None.

(** The work left in the loops [nested], as the specification words it: the
    product of their sizes, when all of them are statically known. *)
Definition static_work (nested : list Iteration.t) : option Z :=
  sizes ← mapM static_size nested; Some (prodZ sizes).

(** The three conditions on the structure of the nest under which loop
    [i], the [n]-th candidate, may join the group: perfectly nested under
    the root, lower bound free of the induction variables of the candidates
    before it, and not vectorized. *)
Definition collapsable_at (root : Iteration.t) (candidates : list Iteration.t)
    (n : nat) (i : Iteration.t) : bool :=
  IsPerfectIteration i root
  && negb (PragmaParallelizer.bound_depends i (take n candidates))
  && negb (Iteration.is_Vectorized i).

(** The longest run of inner candidates that meet the three conditions. *)
Fixpoint eligible_group (root : Iteration.t) (candidates : list Iteration.t)
    (n : nat) (rest : list Iteration.t) : list Iteration.t :=
  match rest with
  | [] => []
  | i :: rest' =>
      if collapsable_at root candidates n i
      then i :: eligible_group root candidates (S n) rest'
      else []
  end.

(** There are loops left inside the [n]-th candidate and their statically
    known work is below the threshold. *)
Definition too_little_work (candidates : list Iteration.t) (n : nat) : bool :=
  match drop (n + 1) candidates with
  | [] => false
  | nested =>
      match static_work nested with
      | Some work => bool_decide (work < PragmaParallelizer.collapse_work self)
      | None => false
      end
  end.

(** The run of inner candidates that meet the three conditions and are not
    stopped for lack of work. *)
Fixpoint worthwhile_group (root : Iteration.t) (candidates : list Iteration.t)
    (n : nat) (rest : list Iteration.t) : list Iteration.t :=
  match rest with
  | [] => []
  | i :: rest' =>
      if collapsable_at root candidates n i && negb (too_little_work candidates n)
      then i :: worthwhile_group root candidates (S n) rest'
      else []
  end.

End CollapseSpecification.

(** ** Reductions and guards *)

(** The increments of a unit that induce reductions. *)
Definition increments (partree : Node) : list Expression.t :=
  List.filter (fun i => Expression.is_Increment i
                        && negb (Expression.is_ForeignExpression i))
              (omap as_Expression (FindNodes Expression partree)).

(** The condition of the guard: one test per symbolic step. *)
Definition zero_step_condition (cargs : list IterationArgs.t) : Boolean :=
  Or (map (fun s => CondEq s (Integer 0))
          (List.filter isinstance_Symbol (map IterationArgs.step cargs))).

(** ** Promotion of thread-private heap arrays *)

Section PromotionSpecification.
Context `{DevitoIR}.

(** [d] dereferences buffer [i] through the pointer array that [parrays]
    holds for it. *)
Definition bound_in (parrays : gmap Function.t PointerArray.t) (i : Function.t)
    (d : Node) : Prop :=
  exists pi, d = Dereference i pi /\ parrays !! i = Some pi.

(** [region] is [partree] wrapped in a region, with the dereferences
    [derefs], if any, placed at the head of its prologue after the thread
    index. *)
Definition region_over (partree : Node) (derefs : list Node) (region : Node) : Prop :=
  (derefs = [] /\ region = ParallelBlock [partree])
  \/ exists tid pfx body nthreads,
       partree = ParallelTree pfx body nthreads
       /\ region = ParallelBlock
                     [ParallelTree [List_ [tid] (derefs ++ pfx) [Line]] body nthreads].

(** [v] is a region built by the pass, guarded or not, whose dereferences
    go through [parrays]. *)
Definition emitted (parrays : gmap Function.t PointerArray.t) (v : Node) : Prop :=
  exists partree region derefs,
    Forall2 (bound_in parrays) (PragmaParallelizer.heap_private partree) derefs
    /\ region_over partree derefs region
    /\ (v = region \/ exists cond, v = List_ [] [Conditional cond [Return]; region] []).

(** Every pointer array is bound to the buffer it points to. *)
Definition owned (parrays : gmap Function.t PointerArray.t) : Prop :=
  forall a pa, parrays !! a = Some pa -> PointerArray.array pa = a.

(** What a step leaves of the state before it: the bindings, each name
    drawn paid by a new binding, and ownership. *)
Definition extends (st st' : gmap Function.t PointerArray.t * nat) : Prop :=
  st.1 ⊆ st'.1
  /\ (st'.2 + size st.1 = st.2 + size st'.1)%nat
  /\ (owned st.1 -> owned st'.1).

End PromotionSpecification.

(** ** Units, rewrites and heuristics *)

(** A unit: a tree over a loop built by [self._Iteration]. *)
Definition is_unit (v : Node) : Prop :=
  exists prefix kw a nodes nthreads,
    v = ParallelTree prefix (Iteration_ (Some kw) a nodes) nthreads.

(** The tree [o] with every node selected by [sel] replaced by its image
    under [f], and every other node kept over its rewritten children. *)
Fixpoint replace_nodes (sel : Node -> bool) (f : Node -> Node) (o : Node) : Node :=
  if sel o then f o
  else match o with
       | ExpressionBundle ops body => ExpressionBundle ops (map (replace_nodes sel f) body)
       | Iteration_ kw a nodes => Iteration_ kw a (map (replace_nodes sel f) nodes)
       | ParallelTree prefix body nthreads =>
           ParallelTree (map (replace_nodes sel f) prefix) (replace_nodes sel f body) nthreads
       | ParallelBlock body => ParallelBlock (map (replace_nodes sel f) body)
       | List_ header body footer => List_ header (map (replace_nodes sel f) body) footer
       | Conditional c body => Conditional c (map (replace_nodes sel f) body)
       | _ => o
       end.

(** An expression that induces a reduction, and the same expression made
    atomic with the construct [b]. *)
Definition is_reduction_increment (o : Node) : bool :=
  match o with
  | Expression_ e => Expression.is_Increment e && negb (Expression.is_ForeignExpression e)
  | _ => false
  end.

Definition made_atomic (b : Builder) (o : Node) : Node :=
  match o with
  | Expression_ e => Expression_ (Expression._rebuild_pragmas e b)
  | _ => o
  end.

(** The heuristic of nested parallelism: loop [i] is parallel and iterates
    within a block of one of the loops [outer]. *)
Definition within_block `{DevitoIR} (outer : list Iteration.t) (i : Iteration.t) : bool :=
  PragmaParallelizer.key i
  && existsb (fun j => is_integer_sub (Iteration.step j) (Iteration.symbolic_size i)) outer.

(** An entry of the substitution map of nested parallelism: the first
    nested candidate of a tree, sent to a parallel loop on [nthreads_nested]. *)
Definition nested_entry `{DevitoIR} (self : PragmaParallelizer.t) (partree : Node)
    (trees : list (list Iteration.t)) (k v : Node) : Prop :=
  exists tree nc subroot rest kw,
    tree ∈ trees
    /\ ncollapsed partree = Ok nc
    /\ PragmaParallelizer.nested_candidates (take nc tree) (drop nc tree) []
       = subroot :: rest
    /\ forallb Iteration.is_Affine (subroot :: rest) = true
    /\ k = Iteration.to_node subroot
    /\ v = ParallelTree []
             (Iteration_ (Some kw) (Iteration.args subroot) (Iteration.nodes subroot))
             (Some (PragmaParallelizer.nthreads_nested self))
    /\ ParallelIteration.parallel kw = true
    /\ ParallelIteration.nthreads kw = Some (PragmaParallelizer.nthreads_nested self)
    /\ ParallelIteration.chunk_size kw = None
    /\ is_Some (ParallelIteration.schedule kw).

(** The pragma that vectorizes loop [c]: the plain construct when no
    discrete function is found under the loop, the aligned one, applied to
    the names of these functions and to the register size, otherwise. *)
Definition simd_pragma `{DevitoIR} `{DevitoLoops} (self : PragmaParallelizer.t)
    (c : Iteration.t) (p : Pragma) : Prop :=
  match List.filter is_DiscreteFunction (FindSymbols_symbolics (Iteration.to_node c)) with
  | [] => exists b, PragmaParallelizer.lang self !! "simd-for" = Some b /\ p = PragmaOf b
  | aligned =>
      exists b, PragmaParallelizer.lang self !! "simd-for-aligned" = Some b
                /\ p = PragmaAligned b (String.concat "," (map Function.name aligned))
                         (HostPragmaParallelizer.simd_reg_size self)
  end.

(** An entry of the substitution map of [make_simd]: the innermost parallel
    loop of a tree that has an outer parallel loop, sent to the same loop
    with one more pragma and the property [VECTORIZED] added last. *)
Definition simd_entry `{DevitoIR} `{DevitoLoops} (self : PragmaParallelizer.t)
    (trees : list (list Iteration.t)) (k v : Node) : Prop :=
  exists tree outer c p,
    tree ∈ trees
    /\ List.filter is_Parallel tree = outer ++ [c]
    /\ outer <> []
    /\ k = Iteration.to_node c
    /\ v = _rebuild c (pragmas c ++ [p]) (properties c ++ [VECTORIZED])
    /\ simd_pragma self c p.

(** What a relation and a Boolean evaluate to at run time, given the values
    of the symbols. *)
Definition Relational_holds (rho : string -> Q) (r : Relational) : bool :=
  match r with
  | CondEq lhs rhs => Qeq_bool (eval rho lhs) (eval rho rhs)
  end.

Definition Boolean_holds (rho : string -> Q) (b : Boolean) : bool :=
  match b with
  | BooleanFalse => false
  | Rel r => Relational_holds rho r
  | OrOf args => existsb (Relational_holds rho) args
  end.

(** The pointer arrays of [st] carry names drawn from the registry since
    its counter was [names0], and no two of them carry the same name. *)
Definition distinctly_named `{DevitoIR} (names0 : nat)
    (st : gmap Function.t PointerArray.t * nat) : Prop :=
  (names0 <= st.2)%nat
  /\ (forall a pa, st.1 !! a = Some pa ->
                   exists k, (names0 <= k < st.2)%nat /\ PointerArray.name pa = make_name k)
  /\ (forall a a' pa pa',
        st.1 !! a = Some pa -> st.1 !! a' = Some pa' ->
        PointerArray.name pa = PointerArray.name pa' -> a = a').

(** The root loop of a tree: its first parallelizable loop. *)
Definition rooted_in `{DevitoIR} (trees : list (list Iteration.t)) (k : Node) : Prop :=
  exists tree root rest,
    tree ∈ trees
    /\ filter_iterations tree PragmaParallelizer.key = root :: rest
    /\ k = Iteration.to_node root.

(** * Sample data *)

(** The table of a dialect that only knows how to read the thread index. *)
Definition sample_lang : Constructs Builder :=
  {[ "thread-num" := {| builder_id := "omp_get_thread_num" |} ]}.

(** ** A reference interpretation of the collaborators

    Used to run the pass on concrete nests: a nest is perfect down to
    [depth] when every loop on the way has a single child; the symbols of a
    tree are the functions its expressions write; printing is infix. *)

Module Sample.

Fixpoint perfect_upto (depth : Node) (o : Node) : bool :=
  if decide (o = depth) then true
  else match o with
       | Iteration_ _ _ [c] => perfect_upto depth c
       | _ => false
       end.

Fixpoint iteration_trees (o : Node) : list (list Iteration.t) :=
  match o with
  | Iteration_ kw a nodes =>
      let it := {| Iteration.kw := kw; Iteration.args := a; Iteration.nodes := nodes |} in
      match flat_map iteration_trees nodes with
      | [] => [[it]]
      | sub => map (cons it) sub
      end
  | ExpressionBundle _ body | ParallelBlock body | List_ _ body _ | Conditional _ body =>
      flat_map iteration_trees body
  | ParallelTree prefix body _ => flat_map iteration_trees prefix ++ iteration_trees body
  | _ => []
  end.

Fixpoint first_run (key : Iteration.t -> bool) (tree filtered : list Iteration.t)
    : list Iteration.t :=
  match tree with
  | [] => filtered
  | i :: tree' =>
      if key i then first_run key tree' (filtered ++ [i])
      else match filtered with
           | [] => first_run key tree' filtered
           | _ => filtered
           end
  end.

Fixpoint show (e : SExpr) : string :=
  match e with
  | Integer z => pretty z
  | Sym x => x
  | Add a b => "(" +:+ show a +:+ " + " +:+ show b +:+ ")"
  | Mul a b => show a +:+ "*" +:+ show b
  | Div a b => show a +:+ "/" +:+ show b
  | Max a b => "max(" +:+ show a +:+ ", " +:+ show b +:+ ")"
  | INT a => "(int)(" +:+ show a +:+ ")"
  end.

Definition threaded (o : Node) : Node :=
  match o with
  | Prodder n _ => Prodder n true
  | _ => o
  end.

#[export] Instance ir : DevitoIR :=
  {| IsPerfectIteration := fun depth root =>
       perfect_upto (Iteration.to_node depth) (Iteration.to_node root);
     retrieve_iteration_tree := iteration_trees;
     filter_iterations := fun tree key => first_run key tree [];
     FindSymbols := fun o =>
       remove_dups (map Expression.write (omap as_Expression (FindNodes Expression o)));
     isinstance_NThreadsMixin := fun f =>
       bool_decide (Function.name f ∈ ["nthreads"; "nthreads_nested"; "nthreads_nonaffine"]);
     is_integer_sub := fun a b => bool_decide (a = b);
     _Prodder := threaded;
     make_name := fun n => "name" +:+ pretty n;
     _C_get_field_size := fun f d =>
       Sym (Function.name f +:+ "_vec->size[" +:+ Dimension.name d +:+ "]");
     str := show;
     ccode := show |}.

Definition sregistry : SymbolRegistry.t :=
  {| SymbolRegistry.nthreads := {| Symbol.name := "nthreads"; Symbol._C_typedata := "int" |};
     SymbolRegistry.nthreads_nested :=
       {| Symbol.name := "nthreads_nested"; Symbol._C_typedata := "int" |};
     SymbolRegistry.nthreads_nonaffine :=
       {| Symbol.name := "nthreads_nonaffine"; Symbol._C_typedata := "int" |};
     SymbolRegistry.threadid := {| Symbol.name := "tid"; Symbol._C_typedata := "int" |} |}.

(** Eight physical cores, one thread each. *)
Definition platform : Platform.t :=
  {| Platform.cores_physical := 8; Platform.threads_per_core := 1 |}.

Definition options : Options :=
  {| par_collapse_ncores := 4; par_collapse_work := 512; par_chunk_nonaffine := 3;
     par_dynamic_work := 10; par_nested := 2; opt_gpu_fit := [];
     opt_par_disabled := false |}.

Definition lang : Constructs Builder :=
  list_to_map (map (fun k => (k, {| builder_id := k |}))
    ["header"; "thread-num"; "atomic"; "simd-for"; "simd-for-aligned";
     "map-enter-to"; "map-enter-alloc"; "map-update"; "map-update-host";
     "map-update-device"; "map-release"; "map-exit-delete"]).

(** The flag telling whether device memory is to be freed. *)
Definition devicerm : Symbol.t :=
  {| Symbol.name := "devicerm"; Symbol._C_typedata := "int" |}.

Definition host : PragmaParallelizer.t :=
  PragmaParallelizer.__init__ sregistry options platform lang.

Definition device : DeviceAwarePragmaParallelizer.t :=
  DeviceAwarePragmaParallelizer.__init__ sregistry options platform lang.

(** A loop over dimension [d] of static size [size], with bounds, step and
    properties as given. *)
Definition loop (d : string) (size : SExpr) (lower step : SExpr)
    (atomic affine : bool) (nodes : list Node) : Iteration.t :=
  {| Iteration.kw := None;
     Iteration.args :=
       {| IterationArgs.dim := {| Dimension.name := d; Dimension.symbolic_size := size |};
          IterationArgs.symbolic_min := lower;
          IterationArgs.symbolic_size := Add (Sym (d +:+ "_M")) (Integer 1);
          IterationArgs.step := step;
          IterationArgs.is_ParallelRelaxed := true;
          IterationArgs.is_ParallelAtomic := atomic;
          IterationArgs.is_Affine := affine;
          IterationArgs.is_Vectorized := false |};
     Iteration.nodes := nodes |}.

(** A grid function, a time function saving [save] steps, a local heap array. *)
Definition grid_function (n : string) : Function.t :=
  {| Function.name := n; Function.is_TimeFunction := false; Function.save := None;
     Function.is_Array := false; Function._mem_heap := false;
     Function._mem_local := false; Function.symbolic_shape := [];
     Function.dimensions := [ {| Dimension.name := "x"; Dimension.symbolic_size := Sym "x_size" |};
                              {| Dimension.name := "y"; Dimension.symbolic_size := Sym "y_size" |} ] |}.

Definition time_function (n : string) (save : option Z) : Function.t :=
  {| Function.name := n; Function.is_TimeFunction := true; Function.save := save;
     Function.is_Array := false; Function._mem_heap := false;
     Function._mem_local := false; Function.symbolic_shape := [];
     Function.dimensions := [ {| Dimension.name := "time"; Dimension.symbolic_size := Sym "time_size" |};
                              {| Dimension.name := "x"; Dimension.symbolic_size := Sym "x_size" |} ] |}.

Definition heap_array (n : string) (shape : list SExpr) : Function.t :=
  {| Function.name := n; Function.is_TimeFunction := false; Function.save := None;
     Function.is_Array := true; Function._mem_heap := true;
     Function._mem_local := true; Function.symbolic_shape := shape;
     Function.dimensions := [] |}.

(** [lhs += rhs] when [inc], else [lhs = rhs]. *)
Definition stmt (lhs : Lhs) (rhs : SExpr) (inc : bool) : Node :=
  Expression_ {| Expression.output := lhs; Expression.rhs := rhs;
                 Expression.is_Increment := inc;
                 Expression.is_ForeignExpression := false;
                 Expression.pragmas := [] |}.

End Sample.

(** ** Sample nests, units and trees *)

Module SampleNests.
Import Sample.

Definition u : Function.t := grid_function "u".

(** [for x: for y: for z: u[x] = 1], every dimension of static size 32. *)
Definition z32 : Iteration.t :=
  loop "z" (Integer 32) (Sym "z_m") (Integer 1) false true
       [stmt (Indexed u [Sym "x"]) (Integer 1) false].
Definition y32 : Iteration.t :=
  loop "y" (Integer 32) (Sym "y_m") (Integer 1) false true [Iteration.to_node z32].
Definition x32 : Iteration.t :=
  loop "x" (Integer 32) (Sym "x_m") (Integer 1) false true [Iteration.to_node y32].

(** The same nest over dimensions of symbolic size. *)
Definition z : Iteration.t :=
  loop "z" (Sym "z_size") (Sym "z_m") (Integer 1) false true
       [stmt (Indexed u [Sym "x"]) (Integer 1) false].
Definition y : Iteration.t :=
  loop "y" (Sym "y_size") (Sym "y_m") (Integer 1) false true [Iteration.to_node z].
Definition x : Iteration.t :=
  loop "x" (Sym "x_size") (Sym "x_m") (Integer 1) false true [Iteration.to_node y].

(** A loop with a symbolic step that writes a time function saving 100
    time steps. *)
Definition saving : Iteration.t :=
  loop "x" (Sym "x_size") (Sym "x_m") (Sym "x_step") false true
       [stmt (Indexed (time_function "usave" (Some 100)) [Sym "time"; Sym "x"])
             (Integer 1) false].

(** A loop around a progress check writes nothing; it is offloaded even
    with host fallback available. *)
Definition polling : Iteration.t :=
  loop "x" (Sym "x_size") (Sym "x_m") (Integer 1) false true [Prodder "prod" false].

End SampleNests.

Module SampleUnits.
Import Sample.

Definition s : Function.t := Function.Symbol "s".
Definition u : Function.t := grid_function "u".

(** [s += 1] and [u[p] += 1]. *)
Definition scalar_inc : Expression.t :=
  {| Expression.output := Scalar s; Expression.rhs := Integer 1;
     Expression.is_Increment := true; Expression.is_ForeignExpression := false;
     Expression.pragmas := [] |}.
Definition indexed_inc : Expression.t :=
  {| Expression.output := Indexed u [Sym "p"]; Expression.rhs := Integer 1;
     Expression.is_Increment := true; Expression.is_ForeignExpression := false;
     Expression.pragmas := [] |}.

(** A non-affine loop, candidate for atomic reductions, over [nodes]. *)
Definition sparse (step : SExpr) (nodes : list Node) : Iteration.t :=
  {| Iteration.kw := None;
     Iteration.args :=
       {| IterationArgs.dim := {| Dimension.name := "p"; Dimension.symbolic_size := Sym "p_size" |};
          IterationArgs.symbolic_min := Sym "p_m";
          IterationArgs.symbolic_size := Sym "p_n";
          IterationArgs.step := step;
          IterationArgs.is_ParallelRelaxed := true;
          IterationArgs.is_ParallelAtomic := true;
          IterationArgs.is_Affine := false;
          IterationArgs.is_Vectorized := false |};
     Iteration.nodes := nodes |}.

(** [for p: s += 1; u[p] += 1] and [for p: s += 1]. *)
Definition mixed : Iteration.t :=
  sparse (Integer 1) [Expression_ scalar_inc; Expression_ indexed_inc].
Definition scalar_only : Iteration.t := sparse (Integer 1) [Expression_ scalar_inc].

(** The unit built around [scalar_only]. *)
Definition scalar_unit : Node :=
  ParallelTree []
    (Iteration_ (Some (PragmaParallelizer.kwargs0 1)) (Iteration.args scalar_only)
                (Iteration.nodes scalar_only))
    (Some (PragmaParallelizer.nthreads_nonaffine host)).

(** A non-affine loop of 100 iterations, to be cut in chunks of
    [max(1, 100 / (nthreads_nonaffine*3))]. *)
Definition p_sparse : Iteration.t :=
  {| Iteration.kw := None;
     Iteration.args :=
       {| IterationArgs.dim := {| Dimension.name := "p"; Dimension.symbolic_size := Sym "p_size" |};
          IterationArgs.symbolic_min := Sym "p_m";
          IterationArgs.symbolic_size := Integer 100;
          IterationArgs.step := Integer 1;
          IterationArgs.is_ParallelRelaxed := true;
          IterationArgs.is_ParallelAtomic := true;
          IterationArgs.is_Affine := false;
          IterationArgs.is_Vectorized := false |};
     Iteration.nodes :=
       [stmt (Indexed (grid_function "u") [Sym "p"]) (Integer 1) true] |}.

(** A unit over a loop whose step is the symbol [p_step], and the region
    that wraps it. *)
Definition strided_unit : Node :=
  ParallelTree []
    (Iteration_ (Some (PragmaParallelizer.kwargs0 1))
                (Iteration.args (sparse (Sym "p_step") [Expression_ scalar_inc]))
                [Expression_ scalar_inc])
    (Some (PragmaParallelizer.nthreads_nonaffine Sample.host)).

End SampleUnits.

Module SamplePass.
Import Sample.

(** Two nests that write the same thread-private heap array [r]. *)
Definition r : Function.t := heap_array "r" [Sym "x_size"].

Definition over_x : Iteration.t :=
  loop "x" (Sym "x_size") (Sym "x_m") (Integer 1) false true
       [stmt (Indexed r [Sym "x"]) (Integer 1) false].

Definition over_y : Iteration.t :=
  loop "y" (Sym "y_size") (Sym "y_m") (Sym "y_step") false true
       [stmt (Indexed r [Sym "y"]) (Integer 2) false].

Definition two_nests : Node :=
  List_ [] [Iteration.to_node over_x; Iteration.to_node over_y] [].

End SamplePass.

Module SampleLoops.
Import Sample.

(** A reference interpretation of the loop attributes read by [make_simd]:
    a loop is parallel when it is a candidate that needs no atomics, the
    symbols are the functions written, grid functions are the discrete
    ones, loops start without pragmas or properties, and rebuilding records
    [VECTORIZED] in the loop's flags. *)
#[export] Instance loops : DevitoLoops :=
  {| is_Parallel := fun i =>
       Iteration.is_ParallelRelaxed i && negb (Iteration.is_ParallelAtomic i);
     FindSymbols_symbolics := fun o =>
       remove_dups (map Expression.write (omap as_Expression (FindNodes Expression o)));
     is_DiscreteFunction := fun f => negb (Function.is_Array f);
     pragmas := fun _ => [];
     properties := fun _ => [];
     _rebuild := fun i _ props =>
       Iteration_ (Iteration.kw i)
         {| IterationArgs.dim := Iteration.dim i;
            IterationArgs.symbolic_min := Iteration.symbolic_min i;
            IterationArgs.symbolic_size := Iteration.symbolic_size i;
            IterationArgs.step := Iteration.step i;
            IterationArgs.is_ParallelRelaxed := Iteration.is_ParallelRelaxed i;
            IterationArgs.is_ParallelAtomic := Iteration.is_ParallelAtomic i;
            IterationArgs.is_Affine := Iteration.is_Affine i;
            IterationArgs.is_Vectorized := bool_decide (VECTORIZED ∈ props) |}
         (Iteration.nodes i);
     platform_simd_reg_size := fun _ => 32 |}.

End SampleLoops.

Module SampleRuns.
Import Sample.

(** A platform with four threads per core, above the par-nested threshold,
    and the host specializer on it. *)
Definition four_threads_per_core : Platform.t :=
  {| Platform.cores_physical := 64; Platform.threads_per_core := 4 |}.

Definition nesting_host : PragmaParallelizer.t :=
  PragmaParallelizer.__init__ sregistry options four_threads_per_core lang.

(** A platform with two cores only, below the par-collapse-ncores threshold,
    and the device-aware specializer on it. *)
Definition two_cores : Platform.t :=
  {| Platform.cores_physical := 2; Platform.threads_per_core := 1 |}.

Definition small_device : DeviceAwarePragmaParallelizer.t :=
  DeviceAwarePragmaParallelizer.__init__ sregistry options two_cores lang.

(** The device-aware specializer with par-disabled set. *)
Definition strict_device : DeviceAwarePragmaParallelizer.t :=
  DeviceAwarePragmaParallelizer.__init__ sregistry
    {| par_collapse_ncores := 4; par_collapse_work := 512; par_chunk_nonaffine := 3;
       par_dynamic_work := 10; par_nested := 2; opt_gpu_fit := [];
       opt_par_disabled := true |}
    platform lang.

(** The host specializer left with the empty construct table that
    [LanguageSpecializer] declares. *)
Definition abstract_host : PragmaParallelizer.t :=
  PragmaParallelizer.__init__ sregistry options platform ∅.

(** The device-aware specializer on four threads per core, with a dialect
    that only defines the header and the atomic construct. *)
Definition bare_device : DeviceAwarePragmaParallelizer.t :=
  DeviceAwarePragmaParallelizer.__init__ sregistry options four_threads_per_core
    (list_to_map [("header", {| builder_id := "header" |});
                  ("atomic", {| builder_id := "atomic" |})]).

(** The host specializer with a work threshold of 16. *)
Definition eager_host : PragmaParallelizer.t :=
  PragmaParallelizer.__init__ sregistry
    {| par_collapse_ncores := 4; par_collapse_work := 16; par_chunk_nonaffine := 3;
       par_dynamic_work := 10; par_nested := 2; opt_gpu_fit := [];
       opt_par_disabled := false |}
    platform lang.

(** [for time: u[time] = 1], a loop that is not parallel. *)
Definition stepping : Iteration.t :=
  {| Iteration.kw := None;
     Iteration.args :=
       {| IterationArgs.dim :=
            {| Dimension.name := "time"; Dimension.symbolic_size := Sym "time_size" |};
          IterationArgs.symbolic_min := Sym "time_m";
          IterationArgs.symbolic_size := Add (Sym "time_M") (Integer 1);
          IterationArgs.step := Integer 1;
          IterationArgs.is_ParallelRelaxed := false;
          IterationArgs.is_ParallelAtomic := false;
          IterationArgs.is_Affine := true;
          IterationArgs.is_Vectorized := false |};
     Iteration.nodes := [stmt (Indexed (grid_function "u") [Sym "time"]) (Integer 1) false] |}.

(** A loop over blocks and the loop within a block:
    [for xb by x_M + 1: for x from xb: u[x] = 1]. *)
Definition within : Iteration.t :=
  loop "x" (Sym "x_size") (Sym "xb") (Integer 1) false true
       [stmt (Indexed (grid_function "u") [Sym "x"]) (Integer 1) false].

Definition blocks : Iteration.t :=
  loop "xb" (Sym "xb_size") (Sym "xb_m") (Add (Sym "x_M") (Integer 1)) false true
       [Iteration.to_node within].

(** The unit built around the loop over blocks; the loop within a block
    starts at [xb] and is not collapsed. *)
Definition blocks_unit : Node :=
  ParallelTree []
    (Iteration_ (Some (PragmaParallelizer.with_schedule (PragmaParallelizer.kwargs0 1)
                         "static"))
                (Iteration.args blocks) (Iteration.nodes blocks))
    (Some (PragmaParallelizer.nthreads nesting_host)).

(** An affine unit that increments an array element: [for x: u[x] += 1]. *)
Definition summing : Iteration.t :=
  loop "x" (Sym "x_size") (Sym "x_m") (Integer 1) true true
       [Expression_ SampleUnits.indexed_inc].

Definition summing_unit : Node :=
  ParallelTree []
    (Iteration_ (Some (PragmaParallelizer.kwargs0 1)) (Iteration.args summing)
                (Iteration.nodes summing))
    (Some (PragmaParallelizer.nthreads host)).

(** The unit built around the non-affine loop that increments a scalar and
    an array element. *)
Definition mixed_unit : Node :=
  ParallelTree []
    (Iteration_ (Some (PragmaParallelizer.kwargs0 1)) (Iteration.args SampleUnits.mixed)
                (Iteration.nodes SampleUnits.mixed))
    (Some (PragmaParallelizer.nthreads_nonaffine host)).

End SampleRuns.

(** * Properties *)

(** ** The error monad *)

Lemma bind_Ok {A B : Type} (m : Result A) (f : A -> Result B) (b : B) :
  m ≫= f = Ok b <-> exists a, m = Ok a /\ f a = Ok b.
Proof.
  destruct m as [a|e]; simpl; split.
  - intros Hf. exists a. auto.
  - intros (a' & Ha & Hf). congruence.
  - discriminate.
  - intros (a' & Ha & _). discriminate.
Qed.

Lemma bind_Raise {A B : Type} (m : Result A) (f : A -> Result B) (e : Exception) :
  m = Raise e -> m ≫= f = Raise e.
Proof. intros ->. reflexivity. Qed.

Lemma bind_Ok_l {A B : Type} (m : Result A) (f : A -> Result B) (a : A) :
  m = Ok a -> m ≫= f = f a.
Proof. intros ->. reflexivity. Qed.

Ltac inv_bind H :=
  let a := fresh "a" in
  let Ha := fresh "Ha" in
  apply bind_Ok in H; destruct H as (a & Ha & H).

(** ** The construct table *)

(** C9: looking a key up in the construct table fails at once with a
    [NotImplementedError] naming the key when the table does not define it,
    and never yields a fallback value; for a defined key it returns the
    stored builder. *)
Theorem Constructs_getitem_defined_or_raises {V : Type} (self : Constructs V) (k : string) :
  (self !! k = None ->
   __getitem__ self k = Raise (NotImplementedError ("Must implement `lang[" +:+ k +:+ "]`")))
  /\ (forall v, self !! k = Some v -> __getitem__ self k = Ok v)
  /\ (forall v, __getitem__ self k = Ok v -> self !! k = Some v).
Proof.
  unfold __getitem__. repeat split.
  - intros ->. reflexivity.
  - intros v ->. reflexivity.
  - intros v. destruct (self !! k); congruence.
Qed.

Example getitem_sample_defined :
  __getitem__ sample_lang "thread-num" = Ok {| builder_id := "omp_get_thread_num" |}.
Proof. reflexivity. Qed.

Example getitem_sample_missing :
  __getitem__ sample_lang "atomic"
  = Raise (NotImplementedError "Must implement `lang[atomic]`").
Proof. reflexivity. Qed.

Lemma Constructs_getitem_witness :
  sample_lang !! "simd-for" = None
  /\ __getitem__ sample_lang "simd-for"
     = Raise (NotImplementedError "Must implement `lang[simd-for]`").
Proof.
  assert (sample_lang !! "simd-for" = None) as Hk by reflexivity.
  split; [exact Hk|].
  destruct (Constructs_getitem_defined_or_raises sample_lang "simd-for") as [Hraise _].
  exact (Hraise Hk).
Defined.

(** ** Data movement: the guard of map-exit-delete *)

Lemma delete_items_render `{DevitoIR} (f : Function.t) (devicerm : option Symbol.t) :
  DeviceAwarePragmaParallelizer.delete_items f devicerm
  = map render_test (guard_tests f devicerm).
Proof.
  unfold DeviceAwarePragmaParallelizer.delete_items, guard_tests.
  destruct devicerm; simpl; rewrite map_map; reflexivity.
Qed.

Lemma sections_Ok `{DevitoIR} (f : Function.t) (imask : option (list IMask)) :
  match imask with
  | None => True
  | Some m => length m = length (DeviceAwarePragmaParallelizer._map_data f)
  end ->
  exists sections,
    DeviceAwarePragmaParallelizer._make_sections_from_imask f imask = Ok sections.
Proof.
  intros Hlen. unfold DeviceAwarePragmaParallelizer._make_sections_from_imask.
  destruct imask as [m|].
  - rewrite bool_decide_eq_true_2 by exact Hlen. simpl. eauto.
  - rewrite bool_decide_eq_true_2 by apply length_replicate. simpl. eauto.
Qed.

Lemma guard_holds_zero_extent (flags : string -> bool) (rho : string -> Q)
    (tests : list GuardTest) (e : SExpr) :
  NonZero e ∈ tests -> (eval rho e == 0)%Q -> guard_holds flags rho tests = false.
Proof.
  intros Hin Hz. unfold guard_holds.
  apply not_true_is_false. intros Hall.
  rewrite forallb_forall in Hall.
  apply list_elem_of_In in Hin. specialize (Hall _ Hin). simpl in Hall.
  apply Qeq_bool_iff in Hz. rewrite Hz in Hall. discriminate.
Qed.

(** C8: the condition handed to the map-exit-delete builder is the
    conjunction of the removal flag (when one is supplied) and of one
    `extent != 0` test for every mapped dimension of the buffer; so the
    condition is false as soon as one mapped extent is zero. *)
Theorem map_delete_guard_conjoins_nonzero_extents `{DevitoIR}
    (self : DeviceAwarePragmaParallelizer.t) (f : Function.t)
    (imask : option (list IMask)) (devicerm : option Symbol.t) (b : Builder) :
  DeviceAwarePragmaParallelizer.lang self !! "map-exit-delete" = Some b ->
  match imask with
  | None => True
  | Some m => length m = length (DeviceAwarePragmaParallelizer._map_data f)
  end ->
  exists sections,
    DeviceAwarePragmaParallelizer._map_delete self f imask devicerm
    = Ok (Apply b [Function.name f; sections; render_guard (guard_tests f devicerm)])
    /\ (forall e, e ∈ DeviceAwarePragmaParallelizer._map_data f ->
                  NonZero e ∈ guard_tests f devicerm)
    /\ (forall d, devicerm = Some d ->
                  RemovalFlag (Symbol.name d) ∈ guard_tests f devicerm)
    /\ (forall flags rho e,
          e ∈ DeviceAwarePragmaParallelizer._map_data f ->
          (eval rho e == 0)%Q ->
          guard_holds flags rho (guard_tests f devicerm) = false).
Proof.
  intros Hb Hlen.
  destruct (sections_Ok f imask Hlen) as [sections Hs].
  assert (Hin : forall e, e ∈ DeviceAwarePragmaParallelizer._map_data f ->
                          NonZero e ∈ guard_tests f devicerm).
  { intros e He. unfold guard_tests. apply elem_of_app. right.
    apply list_elem_of_fmap. exists e. auto. }
  exists sections. repeat split.
  - unfold DeviceAwarePragmaParallelizer._map_delete.
    rewrite Hs. simpl. unfold __getitem__. rewrite Hb. simpl.
    rewrite delete_items_render. reflexivity.
  - exact Hin.
  - intros d ->. unfold guard_tests. apply elem_of_app. left. apply list_elem_of_singleton.
    reflexivity.
  - intros flags rho e He Hz. eapply guard_holds_zero_extent; eauto.
Qed.

Section MapDeleteRun.
#[local] Existing Instance Sample.ir.

(** The guard of a grid function whose first extent is zero at run time. *)
Lemma map_delete_guard_witness :
  exists sections,
    DeviceAwarePragmaParallelizer._map_delete Sample.device (Sample.grid_function "u")
      None (Some Sample.devicerm)
    = Ok (Apply {| builder_id := "map-exit-delete" |}
            ["u"; sections;
             " if(devicerm && (u_vec->size[x] != 0) && (u_vec->size[y] != 0))"])
    /\ guard_holds (fun _ => true)
         (fun x => if decide (x = "u_vec->size[x]") then 0%Q else 1%Q)
         (guard_tests (Sample.grid_function "u") (Some Sample.devicerm))
       = false.
Proof.
  destruct (map_delete_guard_conjoins_nonzero_extents Sample.device
              (Sample.grid_function "u") None (Some Sample.devicerm)
              {| builder_id := "map-exit-delete" |})
    as (sections & Hd & _ & _ & Hz).
  - reflexivity.
  - exact I.
  - exists sections. split.
    + exact Hd.
    + apply (Hz _ _ (Sym "u_vec->size[x]")).
      * apply list_elem_of_here.
      * reflexivity.
Defined.

End MapDeleteRun.

(** ** Collapse analysis *)

Section Collapse.
Context `{DevitoIR} (self : PragmaParallelizer.t).

Lemma int_static (j : Iteration.t) :
  int_ (Dimension.symbolic_size (Iteration.dim j))
  = match static_size j with
    | Some size => Ok size
    | None => Raise TypeError
    end.
Proof. unfold static_size, int_. destruct (decide _); reflexivity. Qed.

Lemma mapM_int_static (nested : list Iteration.t) :
  mapM (fun j => int_ (Dimension.symbolic_size (Iteration.dim j))) nested
  = match mapM static_size nested with
    | Some sizes => Ok sizes
    | None => Raise TypeError
    end.
Proof.
  induction nested as [|j nested IH]; [reflexivity|].
  cbn [mapM]. rewrite int_static, IH.
  destruct (static_size j); simpl; [|reflexivity].
  destruct (mapM static_size nested); reflexivity.
Qed.

Lemma not_enough_work_static (nested : list Iteration.t) :
  PragmaParallelizer.not_enough_work self nested
  = Ok match static_work nested with
       | Some work => bool_decide (work < PragmaParallelizer.collapse_work self)
       | None => false
       end.
Proof.
  unfold PragmaParallelizer.not_enough_work, static_work.
  rewrite mapM_int_static. destruct (mapM static_size nested); reflexivity.
Qed.

Lemma find_collapsable_loop_group (root : Iteration.t) (candidates : list Iteration.t)
    (rest : list Iteration.t) :
  forall n acc,
    PragmaParallelizer._find_collapsable_loop self root candidates n rest acc
    = Ok (acc ++ worthwhile_group self root candidates n rest).
Proof.
  induction rest as [|i rest IH]; intros n acc; simpl.
  - rewrite app_nil_r. reflexivity.
  - unfold collapsable_at, too_little_work.
    destruct (IsPerfectIteration i root); simpl; [|by rewrite app_nil_r].
    destruct (PragmaParallelizer.bound_depends i (take n candidates)); simpl;
      [by rewrite app_nil_r|].
    destruct (Iteration.is_Vectorized i); simpl; [by rewrite app_nil_r|].
    destruct (drop (n + 1) candidates) as [|j nested] eqn:Hd; simpl.
    + rewrite IH, <- app_assoc. reflexivity.
    + rewrite not_enough_work_static. simpl.
      destruct (static_work (j :: nested)) as [work|]; simpl.
      * destruct (bool_decide (work < PragmaParallelizer.collapse_work self)); simpl.
        -- by rewrite app_nil_r.
        -- rewrite IH, <- app_assoc. reflexivity.
      * rewrite IH, <- app_assoc. reflexivity.
Qed.

Lemma find_collapsable_group (root : Iteration.t) (candidates : list Iteration.t) :
  PragmaParallelizer._find_collapsable self root candidates
  = Ok (if bool_decide (PragmaParallelizer.ncores self
                        >= PragmaParallelizer.collapse_ncores self)
        then worthwhile_group self root candidates 1 (drop 1 candidates)
        else []).
Proof.
  unfold PragmaParallelizer._find_collapsable.
  destruct (bool_decide _); [|reflexivity].
  rewrite find_collapsable_loop_group. reflexivity.
Qed.

Lemma worthwhile_prefix_eligible (root : Iteration.t) (candidates rest : list Iteration.t) :
  forall n, worthwhile_group self root candidates n rest
            `prefix_of` eligible_group root candidates n rest.
Proof.
  induction rest as [|i rest IH]; intros n; simpl; [done|].
  destruct (collapsable_at root candidates n i); simpl; [|done].
  destruct (too_little_work self candidates n); simpl.
  - apply prefix_nil.
  - apply prefix_cons, IH.
Qed.

Lemma worthwhile_eq_eligible (root : Iteration.t) (candidates rest : list Iteration.t) :
  (forall n, too_little_work self candidates n = false) ->
  forall n, worthwhile_group self root candidates n rest = eligible_group root candidates n rest.
Proof.
  intros Hw. induction rest as [|i rest IH]; intros n; simpl; [done|].
  rewrite Hw, andb_true_r. destruct (collapsable_at root candidates n i); [|done].
  by rewrite IH.
Qed.

Lemma worthwhile_lookup (root : Iteration.t) (candidates rest : list Iteration.t) :
  forall n k i,
    worthwhile_group self root candidates n rest !! k = Some i ->
    rest !! k = Some i /\ collapsable_at root candidates (n + k) i = true.
Proof.
  induction rest as [|i0 rest IH]; intros n k i; simpl; [done|].
  destruct (collapsable_at root candidates n i0) eqn:Hc; simpl; [|done].
  destruct (too_little_work self candidates n); simpl; [done|].
  destruct k as [|k]; simpl.
  - intros [= <-]. rewrite Nat.add_0_r. auto.
  - intros Hk. apply IH in Hk as [Hr Hk]. split; [done|].
    by replace (n + S k)%nat with (S n + k)%nat by lia.
Qed.

End Collapse.

Section CollapseResults.
Context `{DevitoIR} (self : PragmaParallelizer.t).

Lemma mapM_static_size_None (nested : list Iteration.t) (j : Iteration.t) :
  j ∈ nested ->
  free_symbols (Dimension.symbolic_size (Iteration.dim j)) <> ∅ ->
  mapM static_size nested = None.
Proof.
  intros Hin Hfree.
  assert (static_size j = None) as Hj.
  { unfold static_size. destruct (decide _); [done|reflexivity]. }
  induction Hin as [j nested|j j' nested Hin IH]; cbn [mapM].
  - rewrite Hj. reflexivity.
  - rewrite (IH Hfree Hj). destruct (static_size j'); reflexivity.
Qed.

Lemma bound_depends_false (i : Iteration.t) (outer : list Iteration.t) (j : Iteration.t) :
  PragmaParallelizer.bound_depends i outer = false ->
  j ∈ outer ->
  Dimension.name (Iteration.dim j) ∉ free_symbols (Iteration.symbolic_min i).
Proof.
  unfold PragmaParallelizer.bound_depends. intros Hex Hin Hmem.
  assert (existsb (fun j => bool_decide (Dimension.name (Iteration.dim j)
                              ∈ free_symbols (Iteration.symbolic_min i))) outer = true)
    as Htrue.
  { apply existsb_exists. exists j. split.
    - by apply list_elem_of_In.
    - by apply bool_decide_eq_true_2. }
  congruence.
Qed.

(** What [_make_partree] returns, whenever it returns: the root, and a tree
    over a loop built by [self._Iteration] from the root's arguments, whose
    collapse degree is one more than the loops found collapsable. *)
Lemma make_partree_shape (root : Iteration.t) (rest : list Iteration.t)
    (nthreads : option Symbol.t) r :
  PragmaParallelizer._make_partree self (root :: rest) nthreads = Ok r ->
  exists collapsable prefix kw nt,
    PragmaParallelizer._find_collapsable self root (root :: rest) = Ok collapsable
    /\ ParallelIteration.ncollapse kw = (1 + length collapsable)%nat
    /\ r = (root,
            Some (ParallelTree prefix
                    (Iteration_ (Some kw) (Iteration.args root) (Iteration.nodes root))
                    (Some nt),
                  ParallelTree prefix
                    (Iteration_ (Some kw) (Iteration.args root) (Iteration.nodes root))
                    (Some nt)
                  :: map Iteration.to_node collapsable)).
Proof.
  unfold PragmaParallelizer._make_partree.
  rewrite find_collapsable_group. simpl.
  set (collapsable := if bool_decide _ then _ else _).
  destruct (Iteration.is_Affine root && forallb Iteration.is_Affine rest).
  - destruct nthreads as [nt|]; simpl; intros [= <-];
      eexists collapsable, _, _, _; (split; [reflexivity|]);
      (split; [|reflexivity]); reflexivity.
  - destruct nthreads as [nt|]; simpl; [discriminate|].
    intros [= <-].
    eexists collapsable, _, _, _; (split; [reflexivity|]);
      (split; [|reflexivity]); reflexivity.
Qed.

Lemma make_partree_None_Ok (root : Iteration.t) (rest : list Iteration.t) :
  exists r, PragmaParallelizer._make_partree self (root :: rest) None = Ok r.
Proof.
  unfold PragmaParallelizer._make_partree.
  rewrite find_collapsable_group. simpl.
  destruct (Iteration.is_Affine root && forallb Iteration.is_Affine rest);
    simpl; eauto.
Qed.

(** C1 (amended): when the physical core count meets the threshold, the
    collapse degree produced by [_make_partree] is one plus the number of
    consecutive inner candidates that are perfectly nested, have a lower
    bound free of the earlier candidates' induction variables, are not
    vectorized, and are not stopped by the work check; this run is a prefix
    of the run counted without the work check, and equal to it when the
    work check never fires; no loop of the collapsed group has a lower
    bound that mentions the induction variable of a loop collapsed before
    it. *)
Theorem collapse_degree_counts_worthwhile_group (root : Iteration.t)
    (rest : list Iteration.t) :
  PragmaParallelizer.ncores self >= PragmaParallelizer.collapse_ncores self ->
  (exists r, PragmaParallelizer._make_partree self (root :: rest) None = Ok r)
  /\ (forall nthreads r,
        PragmaParallelizer._make_partree self (root :: rest) nthreads = Ok r ->
        exists partree,
          r = (root, Some (partree,
                           partree :: map Iteration.to_node
                                        (worthwhile_group self root (root :: rest) 1 rest)))
          /\ ncollapsed partree
             = Ok (1 + length (worthwhile_group self root (root :: rest) 1 rest))%nat)
  /\ worthwhile_group self root (root :: rest) 1 rest
     `prefix_of` eligible_group root (root :: rest) 1 rest
  /\ ((forall n, too_little_work self (root :: rest) n = false) ->
      worthwhile_group self root (root :: rest) 1 rest
      = eligible_group root (root :: rest) 1 rest)
  /\ (forall a b ia ib,
        (a < b)%nat ->
        (root :: worthwhile_group self root (root :: rest) 1 rest) !! a = Some ia ->
        (root :: worthwhile_group self root (root :: rest) 1 rest) !! b = Some ib ->
        Dimension.name (Iteration.dim ia) ∉ free_symbols (Iteration.symbolic_min ib)).
Proof.
  intros Hcores. split; [apply make_partree_None_Ok|]. split; [|split; [|split]].
  - intros nthreads r Hr.
    apply make_partree_shape in Hr as (collapsable & prefix & kw & nt & Hc & Hn & ->).
    rewrite find_collapsable_group in Hc.
    rewrite bool_decide_eq_true_2 in Hc by exact Hcores. simpl in Hc.
    injection Hc as <-. eexists. split; [reflexivity|]. simpl. by rewrite Hn.
  - apply worthwhile_prefix_eligible.
  - intros Hw. by apply worthwhile_eq_eligible.
  - intros a b ia ib Hab Ha Hb.
    destruct b as [|b]; [lia|]. simpl in Hb.
    apply worthwhile_lookup in Hb as [Hrest Hc].
    unfold collapsable_at in Hc.
    apply andb_true_iff in Hc as [Hc _]. apply andb_true_iff in Hc as [_ Hc].
    apply negb_true_iff in Hc.
    eapply bound_depends_false; [exact Hc|].
    apply list_elem_of_lookup. exists a.
    rewrite lookup_take_lt by lia.
    destruct a as [|a]; simpl in *; [done|].
    apply worthwhile_lookup in Ha as [Ha _]. exact Ha.
Qed.

(** C7: at a loop with loops left inside it, a statically known product
    of their sizes below the threshold stops the collapse there, the loop
    itself left out; at such a loop that passes the nesting, bound and
    vectorization tests, a product that cannot be computed ([int] fails on
    a symbolic size) skips the test, and the loop is collapsed, as it is
    when the product is known and reaches the threshold. *)
Theorem work_check_stops_or_is_skipped (root : Iteration.t)
    (candidates : list Iteration.t) (n : nat) (i : Iteration.t)
    (rest acc : list Iteration.t) :
  drop (n + 1) candidates <> [] ->
  (forall sizes,
     mapM (fun j => int_ (Dimension.symbolic_size (Iteration.dim j)))
          (drop (n + 1) candidates) = Ok sizes ->
     prodZ sizes < PragmaParallelizer.collapse_work self ->
     PragmaParallelizer._find_collapsable_loop self root candidates n (i :: rest) acc
     = Ok acc)
  /\ (collapsable_at root candidates n i = true ->
      ((exists j, j ∈ drop (n + 1) candidates
                  /\ free_symbols (Dimension.symbolic_size (Iteration.dim j)) <> ∅) ->
       mapM (fun j => int_ (Dimension.symbolic_size (Iteration.dim j)))
            (drop (n + 1) candidates) = Raise TypeError
       /\ exists more,
            PragmaParallelizer._find_collapsable_loop self root candidates n (i :: rest) acc
            = Ok (acc ++ i :: more))
      /\ (forall sizes,
            mapM (fun j => int_ (Dimension.symbolic_size (Iteration.dim j)))
                 (drop (n + 1) candidates) = Ok sizes ->
            prodZ sizes >= PragmaParallelizer.collapse_work self ->
            exists more,
              PragmaParallelizer._find_collapsable_loop self root candidates n
                (i :: rest) acc
              = Ok (acc ++ i :: more))).
Proof.
  intros Hnested.
  rewrite find_collapsable_loop_group. cbn [worthwhile_group].
  unfold too_little_work, static_work. rewrite mapM_int_static.
  destruct (drop (n + 1) candidates) as [|j0 nested] eqn:Hd; [done|].
  split; [|intros ->; split].
  - intros sizes Hs Hlt. destruct (mapM static_size (j0 :: nested)); [|discriminate].
    injection Hs as ->. simpl. rewrite bool_decide_eq_true_2 by exact Hlt.
    rewrite andb_false_r. by rewrite app_nil_r.
  - intros (j & Hin & Hfree).
    rewrite (mapM_static_size_None _ j Hin Hfree). simpl. eauto.
  - intros sizes Hs Hge. destruct (mapM static_size (j0 :: nested)); [|discriminate].
    injection Hs as ->. simpl. rewrite bool_decide_eq_false_2 by lia.
    simpl. eauto.
Qed.

End CollapseResults.

Section CollapseRuns.
#[local] Existing Instance Sample.ir.
Import SampleNests.

(** C1 as stated fails: a perfect nest of three parallel, non-vectorized
    loops with independent bounds and static sizes 32, on eight cores with a
    core threshold of four, is collapsed to degree one, because the work
    left inside the second loop (32) is below the work threshold (512);
    two further loops meet the three conditions, which would make degree
    three. *)
Lemma collapse_degree_counterexample :
  PragmaParallelizer.key x32 = true
  /\ PragmaParallelizer.ncores Sample.host >= PragmaParallelizer.collapse_ncores Sample.host
  /\ length (eligible_group x32 [x32; y32; z32] 1 [y32; z32]) = 2%nat
  /\ exists partree collapsed,
       PragmaParallelizer._make_partree Sample.host [x32; y32; z32] None
       = Ok (x32, Some (partree, collapsed))
       /\ ncollapsed partree = Ok 1%nat
       /\ ncollapsed partree
          <> Ok (1 + length (eligible_group x32 [x32; y32; z32] 1 [y32; z32]))%nat.
Proof.
  split; [reflexivity|]. split; [vm_compute; discriminate|]. split; [reflexivity|].
  eexists _, _. split; [vm_compute; reflexivity|].
  split; [reflexivity|]. vm_compute. discriminate.
Qed.

(** With symbolic sizes the work check is skipped and the three loops are
    collapsed. *)
Lemma collapse_degree_witness :
  PragmaParallelizer.ncores Sample.host >= PragmaParallelizer.collapse_ncores Sample.host
  /\ exists partree,
       PragmaParallelizer._make_partree Sample.host [x; y; z] None
       = Ok (x, Some (partree, partree :: map Iteration.to_node [y; z]))
       /\ ncollapsed partree = Ok 3%nat.
Proof.
  assert (PragmaParallelizer.ncores Sample.host
          >= PragmaParallelizer.collapse_ncores Sample.host) as Hcores
    by (vm_compute; discriminate).
  split; [exact Hcores|].
  destruct (collapse_degree_counts_worthwhile_group Sample.host x [y; z] Hcores)
    as ([r Hr] & Hshape & _).
  destruct (Hshape None r Hr) as (partree & -> & Hn).
  exists partree. split; [exact Hr|exact Hn].
Defined.

(** In the static nest the work check stops the collapse at the second
    loop; in the symbolic nest it is skipped and the second loop is
    collapsed. *)
Lemma work_check_witness :
  drop (1 + 1) [x32; y32; z32] <> []
  /\ PragmaParallelizer._find_collapsable_loop Sample.host x32 [x32; y32; z32] 1
       [y32; z32] []
     = Ok []
  /\ collapsable_at x [x; y; z] 1 y = true
  /\ exists more,
       PragmaParallelizer._find_collapsable_loop Sample.host x [x; y; z] 1 [y; z] []
       = Ok ([] ++ y :: more).
Proof.
  assert (drop (1 + 1) [x32; y32; z32] <> []) as Hn32 by discriminate.
  assert (drop (1 + 1) [x; y; z] <> []) as Hn by discriminate.
  assert (collapsable_at x [x; y; z] 1 y = true) as Hc by reflexivity.
  split; [exact Hn32|]. split; [|split; [exact Hc|]].
  - destruct (work_check_stops_or_is_skipped Sample.host x32 [x32; y32; z32] 1 y32
                [z32] [] Hn32) as (Hstop & _).
    apply (Hstop [32]); reflexivity.
  - destruct (work_check_stops_or_is_skipped Sample.host x [x; y; z] 1 y
                [z] [] Hn) as (_ & Hskip).
    destruct (Hskip Hc) as (Hsym & _).
    apply Hsym. exists z. split; [apply list_elem_of_here|].
    vm_compute. discriminate.
Defined.

End CollapseRuns.

(** ** Non-affine nests *)

Lemma eval_fold_Mul (rho : string -> Q) (l : list SExpr) :
  forall a,
    (eval rho (fold_left Mul l a)
     == eval rho a * fold_right (fun e acc => eval rho e * acc) 1 l)%Q.
Proof.
  induction l as [|e l IH]; intros a; simpl.
  - ring.
  - rewrite IH. simpl. ring.
Qed.

(** The value of [prod(l)] is the product of the values. *)
Lemma eval_prod (rho : string -> Q) (l : list SExpr) :
  (eval rho (prod l) == fold_right (fun e acc => eval rho e * acc) 1 l)%Q.
Proof. unfold prod. rewrite eval_fold_Mul. simpl. ring. Qed.

Lemma Qtrunc_ge_1 (q : Q) : (1 <= q)%Q -> 1 <= Qtrunc q.
Proof.
  unfold Qle, Qtrunc. simpl. intros Hq.
  rewrite Z.quot_div_nonneg by lia.
  apply Z.div_le_lower_bound; lia.
Qed.

Lemma chunk_value_ge_1 (rho : string -> Q) (q : SExpr) :
  (1 <= eval rho (INT (Max q (Integer 1))))%Q.
Proof.
  simpl. change 1%Q with (inject_Z 1). rewrite <- Zle_Qle.
  apply Qtrunc_ge_1. apply Q.le_max_r.
Qed.

Section NonAffine.
Context `{DevitoIR} (self : PragmaParallelizer.t).

(** C3: a nest with a non-affine candidate is given the non-affine thread
    count and a prologue [chunk_size = INT(Max(N / (nthreads_nonaffine *
    chunk_nonaffine), 1))], where [N] is the product of the trip counts of
    the root and of the collapsed loops, so that the chunk size is at least
    one; and asking for it with a thread count supplied from outside fails
    an assertion. *)
Theorem nonaffine_nest_chunk_prologue (root : Iteration.t) (rest : list Iteration.t) :
  forallb Iteration.is_Affine (root :: rest) = false ->
  (exists collapsable kw,
     PragmaParallelizer._find_collapsable self root (root :: rest) = Ok collapsable
     /\ PragmaParallelizer._make_partree self (root :: rest) None
        = Ok (root,
              Some (ParallelTree
                      [Expression_
                         (Expression.DummyEq (Function.Symbol "chunk_size")
                            (INT (Max (Div (prod (Iteration.symbolic_size root
                                                  :: map Iteration.symbolic_size collapsable))
                                           (Mul (Sym (Symbol.name
                                                        (PragmaParallelizer.nthreads_nonaffine self)))
                                                (Integer (PragmaParallelizer.chunk_nonaffine self))))
                                      (Integer 1))))]
                      (Iteration_ (Some kw) (Iteration.args root) (Iteration.nodes root))
                      (Some (PragmaParallelizer.nthreads_nonaffine self)),
                    ParallelTree
                      [Expression_
                         (Expression.DummyEq (Function.Symbol "chunk_size")
                            (INT (Max (Div (prod (Iteration.symbolic_size root
                                                  :: map Iteration.symbolic_size collapsable))
                                           (Mul (Sym (Symbol.name
                                                        (PragmaParallelizer.nthreads_nonaffine self)))
                                                (Integer (PragmaParallelizer.chunk_nonaffine self))))
                                      (Integer 1))))]
                      (Iteration_ (Some kw) (Iteration.args root) (Iteration.nodes root))
                      (Some (PragmaParallelizer.nthreads_nonaffine self))
                    :: map Iteration.to_node collapsable))
     /\ ParallelIteration.chunk_size kw = Some (Function.Symbol "chunk_size")
     /\ ParallelIteration.ncollapse kw = (1 + length collapsable)%nat
     /\ forall rho,
          (eval rho (prod (Iteration.symbolic_size root
                           :: map Iteration.symbolic_size collapsable))
           == fold_right (fun e acc => eval rho e * acc) 1
                (Iteration.symbolic_size root :: map Iteration.symbolic_size collapsable))%Q
          /\ (1 <= eval rho
                     (INT (Max (Div (prod (Iteration.symbolic_size root
                                           :: map Iteration.symbolic_size collapsable))
                                    (Mul (Sym (Symbol.name
                                                 (PragmaParallelizer.nthreads_nonaffine self)))
                                         (Integer (PragmaParallelizer.chunk_nonaffine self))))
                               (Integer 1))))%Q)
  /\ (forall nthreads,
        PragmaParallelizer._make_partree self (root :: rest) (Some nthreads)
        = Raise AssertionError).
Proof.
  intros Haffine. simpl in Haffine. split.
  - eexists _, _. split; [apply find_collapsable_group|].
    split; [|split; [|split]].
    + unfold PragmaParallelizer._make_partree.
      rewrite find_collapsable_group. simpl. rewrite Haffine. simpl. reflexivity.
    + reflexivity.
    + reflexivity.
    + intros rho. split; [apply eval_prod|apply chunk_value_ge_1].
  - intros nthreads. unfold PragmaParallelizer._make_partree.
    rewrite find_collapsable_group. simpl. rewrite Haffine. reflexivity.
Qed.

End NonAffine.

Section NonAffineRun.
#[local] Existing Instance Sample.ir.
Import Sample SampleUnits.

Lemma nonaffine_nest_witness :
  forallb Iteration.is_Affine [p_sparse] = false
  /\ (exists kw,
        PragmaParallelizer._make_partree host [p_sparse] None
        = Ok (p_sparse,
              Some (ParallelTree
                      [Expression_
                         (Expression.DummyEq (Function.Symbol "chunk_size")
                            (INT (Max (Div (Mul (Integer 1) (Integer 100))
                                           (Mul (Sym "nthreads_nonaffine") (Integer 3)))
                                      (Integer 1))))]
                      (Iteration_ (Some kw) (Iteration.args p_sparse)
                                  (Iteration.nodes p_sparse))
                      (Some (PragmaParallelizer.nthreads_nonaffine host)),
                    [ParallelTree
                      [Expression_
                         (Expression.DummyEq (Function.Symbol "chunk_size")
                            (INT (Max (Div (Mul (Integer 1) (Integer 100))
                                           (Mul (Sym "nthreads_nonaffine") (Integer 3)))
                                      (Integer 1))))]
                      (Iteration_ (Some kw) (Iteration.args p_sparse)
                                  (Iteration.nodes p_sparse))
                      (Some (PragmaParallelizer.nthreads_nonaffine host))])))
  /\ PragmaParallelizer._make_partree host [p_sparse]
       (Some (PragmaParallelizer.nthreads_nested host))
     = Raise AssertionError.
Proof.
  assert (forallb Iteration.is_Affine [p_sparse] = false) as Hna by reflexivity.
  split; [exact Hna|].
  destruct (nonaffine_nest_chunk_prologue host p_sparse [] Hna)
    as ((collapsable & kw & Hc & Hp & _) & Hassert).
  split; [|apply Hassert].
  vm_compute in Hc. injection Hc as <-.
  exists kw. exact Hp.
Defined.

(** With four threads the chunk size of that nest is [int(100/12) = 8]. *)
Example nonaffine_chunk_of_100 :
  eval (fun _ => 4%Q)
       (INT (Max (Div (Mul (Integer 1) (Integer 100))
                      (Mul (Sym "nthreads_nonaffine") (Integer 3)))
                 (Integer 1)))
  = inject_Z 8.
Proof. reflexivity. Qed.

(** The device-aware specializer offloads the same nest, which writes a
    grid function only: the tree it builds there has no prologue. *)
Example nonaffine_nest_on_device :
  exists kw,
    DeviceAwarePragmaParallelizer._make_partree device [p_sparse] None
    = Ok (p_sparse,
          Some (ParallelTree []
                  (Iteration_ (Some kw) (Iteration.args p_sparse)
                              (Iteration.nodes p_sparse)) None,
                [ParallelTree []
                  (Iteration_ (Some kw) (Iteration.args p_sparse)
                              (Iteration.nodes p_sparse)) None])).
Proof. eexists. vm_compute. reflexivity. Qed.

End NonAffineRun.

(** ** Rewriting trees *)

Lemma Transformer_unfold (mapper : NodeDict) (o : Node) :
  Transformer mapper o
  = match dict_get mapper o with
    | Some handle => handle
    | None =>
        match o with
        | ExpressionBundle ops body => ExpressionBundle ops (map (Transformer mapper) body)
        | Iteration_ kw a nodes => Iteration_ kw a (map (Transformer mapper) nodes)
        | ParallelTree prefix body nthreads =>
            ParallelTree (map (Transformer mapper) prefix) (Transformer mapper body) nthreads
        | ParallelBlock body => ParallelBlock (map (Transformer mapper) body)
        | List_ header body footer => List_ header (map (Transformer mapper) body) footer
        | Conditional c body => Conditional c (map (Transformer mapper) body)
        | _ => o
        end
    end.
Proof. destruct o; reflexivity. Qed.

Lemma dict_get_singleton (k v o : Node) :
  dict_get [(k, v)] o = if decide (k = o) then Some v else None.
Proof. reflexivity. Qed.

Lemma flat_map_map_Forall {A B : Type} (f : A -> list B) (g : A -> A) (l : list A) :
  Forall (fun x => f (g x) = f x) l -> flat_map f (map g l) = flat_map f l.
Proof. induction 1; simpl; congruence. Qed.

(** A substitution whose images hold the same expressions as their keys
    leaves the expressions of a tree as they are. *)
Lemma FindNodes_Expression_rebuilt (mapper : NodeDict) :
  (forall k v, dict_get mapper k = Some v ->
               FindNodes Expression v = FindNodes Expression k) ->
  forall o, FindNodes Expression (Transformer mapper o) = FindNodes Expression o.
Proof.
  intros Hm o. induction o using Node_nested_ind; rewrite Transformer_unfold;
    (destruct (dict_get mapper _) eqn:Hk; [by apply Hm|]); simpl;
    rewrite ?flat_map_map_Forall by assumption; congruence.
Qed.

Lemma forallb_fmap {A B : Type} (p : B -> bool) (f : A -> B) (l : list A) :
  forallb p (map f l) = forallb (fun x => p (f x)) l.
Proof. induction l; simpl; congruence. Qed.

Lemma anyM_loop_args (p : IterationArgs.t -> bool) (collapsed : list Node) :
  forall cargs,
    mapM loop_args collapsed = Ok cargs ->
    anyM (fun i => a ← loop_args i; Ok (p a)) collapsed = Ok (existsb p cargs).
Proof.
  induction collapsed as [|i collapsed IH]; intros cargs Hc; cbn [mapM] in Hc.
  - injection Hc as <-. reflexivity.
  - inv_bind Hc. inv_bind Hc. injection Hc as <-. cbn [anyM existsb].
    rewrite Ha. simpl. rewrite (IH _ Ha0). by destruct (p a).
Qed.

Lemma allM_loop_args (p : IterationArgs.t -> bool) (collapsed : list Node) :
  forall cargs,
    mapM loop_args collapsed = Ok cargs ->
    allM (fun i => a ← loop_args i; Ok (p a)) collapsed = Ok (forallb p cargs).
Proof.
  induction collapsed as [|i collapsed IH]; intros cargs Hc; cbn [mapM] in Hc.
  - injection Hc as <-. reflexivity.
  - inv_bind Hc. inv_bind Hc. injection Hc as <-. cbn [allM forallb].
    rewrite Ha. simpl. rewrite (IH _ Ha0). by destruct (p a).
Qed.

(** The loops the pass hands on as [collapsed] all have loop attributes. *)
Lemma mapM_loop_args_collapsed (prefix : list Node) (body : Iteration.t)
    (nthreads : option Symbol.t) (collapsable : list Iteration.t) :
  mapM loop_args (ParallelTree prefix (Iteration.to_node body) nthreads
                  :: map Iteration.to_node collapsable)
  = Ok (Iteration.args body :: map Iteration.args collapsable).
Proof.
  cbn [mapM]. simpl.
  assert (mapM loop_args (map Iteration.to_node collapsable)
          = Ok (map Iteration.args collapsable)) as ->.
  { induction collapsable as [|i l IH]; [reflexivity|].
    cbn [mapM map]. simpl. rewrite IH. reflexivity. }
  reflexivity.
Qed.

(** ** Reductions *)

Section Reductions.
Context `{DevitoIR} (self : PragmaParallelizer.t).

(** C2 (amended): in a unit whose collapsed loops include an atomic
    candidate, whenever the collapsed loops are all affine or no increment
    of the unit targets an indexed location, the targets of all the
    increments, the scalar ones among them, are attached as the reduction
    set of the root loop and no expression is rewritten, so none is given
    the atomic annotation; in particular the increments of a unit without
    indexed increment targets are reduced whether the collapsed loops are
    affine or not. Whatever is handed to the rewriter, when no collapsed
    loop is an atomic candidate it is returned as it is. *)
Theorem scalar_increments_are_reduced (prefix : list Node)
    (kw : ParallelIteration.kwargs) (a : IterationArgs.t) (nodes : list Node)
    (nthreads : option Symbol.t) (collapsed : list Node)
    (cargs : list IterationArgs.t) :
  mapM loop_args collapsed = Ok cargs ->
  (existsb IterationArgs.is_ParallelAtomic cargs = true ->
   forallb IterationArgs.is_Affine cargs = true
   \/ forallb (fun i => negb (is_Indexed (Expression.output i)))
              (increments (ParallelTree prefix (Iteration_ (Some kw) a nodes) nthreads))
      = true ->
   exists prefix',
     PragmaParallelizer._make_reductions self
       (ParallelTree prefix (Iteration_ (Some kw) a nodes) nthreads) collapsed
     = Ok (ParallelTree prefix'
             (Iteration_
                (Some (ParallelIteration._rebuild_reduction kw
                         (map Expression.output
                              (increments (ParallelTree prefix
                                             (Iteration_ (Some kw) a nodes) nthreads)))))
                a nodes)
             nthreads)
     /\ FindNodes Expression
          (ParallelTree prefix'
             (Iteration_
                (Some (ParallelIteration._rebuild_reduction kw
                         (map Expression.output
                              (increments (ParallelTree prefix
                                             (Iteration_ (Some kw) a nodes) nthreads)))))
                a nodes)
             nthreads)
        = FindNodes Expression
            (ParallelTree prefix (Iteration_ (Some kw) a nodes) nthreads)
     /\ forall i,
          i ∈ increments (ParallelTree prefix (Iteration_ (Some kw) a nodes) nthreads) ->
          is_Indexed (Expression.output i) = false ->
          Expression.output i
          ∈ map Expression.output
              (increments (ParallelTree prefix (Iteration_ (Some kw) a nodes) nthreads))
          /\ Expression_ i
             ∈ FindNodes Expression
                 (ParallelTree prefix'
                    (Iteration_
                       (Some (ParallelIteration._rebuild_reduction kw
                                (map Expression.output
                                     (increments (ParallelTree prefix
                                                    (Iteration_ (Some kw) a nodes)
                                                    nthreads)))))
                       a nodes)
                    nthreads))
  /\ (forall partree,
        existsb IterationArgs.is_ParallelAtomic cargs = false ->
        PragmaParallelizer._make_reductions self partree collapsed = Ok partree).
Proof.
  intros Hc. split.
  - intros Hatomic Hcase.
    unfold PragmaParallelizer._make_reductions.
    rewrite (anyM_loop_args _ _ _ Hc), Hatomic. cbn [mbind Result_bind negb].
    rewrite (allM_loop_args _ _ _ Hc). cbn [mbind Result_bind].
    fold (increments (ParallelTree prefix (Iteration_ (Some kw) a nodes) nthreads)).
    assert (forallb IterationArgs.is_Affine cargs
            || forallb (fun i => negb (is_Indexed i))
                 (map Expression.output
                    (increments (ParallelTree prefix (Iteration_ (Some kw) a nodes)
                                              nthreads)))
            = true) as ->.
    { rewrite forallb_fmap. destruct Hcase as [-> | ->]; [reflexivity|apply orb_true_r]. }
    cbn [root mbind Result_bind PragmaParallelizer._rebuild_reduction].
    set (r := Iteration_ (Some kw) a nodes).
    set (r' := Iteration_ (Some _) a nodes).
    assert (forall k v, dict_get [(r, r')] k = Some v ->
                        FindNodes Expression v = FindNodes Expression k) as Hm.
    { intros k v. simpl. destruct (decide (r = k)) as [<-|]; [|discriminate].
      intros [= <-]. reflexivity. }
    exists (map (Transformer [(r, r')]) prefix).
    assert (Transformer [(r, r')] (ParallelTree prefix r nthreads)
            = ParallelTree (map (Transformer [(r, r')]) prefix) r' nthreads) as Ht.
    { rewrite Transformer_unfold. simpl.
      destruct (decide (r = ParallelTree prefix r nthreads)); [discriminate|].
      f_equal. fold r. destruct (decide (r = r)); [reflexivity|done]. }
    rewrite Ht.
    assert (FindNodes Expression (ParallelTree (map (Transformer [(r, r')]) prefix) r' nthreads)
            = FindNodes Expression (ParallelTree prefix r nthreads)) as Hsame.
    { rewrite <- Ht. by apply FindNodes_Expression_rebuilt. }
    split; [reflexivity|]. split; [exact Hsame|].
    intros i Hi _. split.
    + apply list_elem_of_fmap. by exists i.
    + rewrite Hsame. unfold increments in Hi.
      apply list_elem_of_In, filter_In in Hi as [Hi _].
      apply list_elem_of_In, list_elem_of_omap in Hi as (o & Ho & Hoi).
      destruct o; try discriminate. injection Hoi as ->. exact Ho.
  - intros partree Hatomic. unfold PragmaParallelizer._make_reductions.
    rewrite (anyM_loop_args _ _ _ Hc), Hatomic. reflexivity.
Qed.

End Reductions.

Section ReductionRuns.
#[local] Existing Instance Sample.ir.
Import SampleUnits.

(** C2 as stated fails: in a non-affine unit that increments both a scalar
    and an array element, the increment of the scalar is rewritten with the
    atomic annotation and the root loop is given no reduction set. *)
Lemma scalar_increment_counterexample :
  exists partree collapsed prefix kw a nodes nthreads,
    PragmaParallelizer._make_partree Sample.host [mixed] None
    = Ok (mixed, Some (partree, collapsed))
    /\ Expression_ scalar_inc ∈ FindNodes Expression partree
    /\ Expression.is_Increment scalar_inc = true
    /\ is_Indexed (Expression.output scalar_inc) = false
    /\ PragmaParallelizer._make_reductions Sample.host partree collapsed
       = Ok (ParallelTree prefix (Iteration_ (Some kw) a nodes) nthreads)
    /\ ParallelIteration.reduction kw = None
    /\ Expression_ (Expression._rebuild_pragmas scalar_inc {| builder_id := "atomic" |})
       ∈ FindNodes Expression (ParallelTree prefix (Iteration_ (Some kw) a nodes) nthreads)
    /\ Expression_ scalar_inc
       ∉ FindNodes Expression (ParallelTree prefix (Iteration_ (Some kw) a nodes) nthreads).
Proof.
  eexists _, _, _, _, _, _, _.
  split; [vm_compute; reflexivity|].
  split; [apply (bool_decide_unpack _); vm_compute; exact I|].
  split; [reflexivity|]. split; [reflexivity|].
  split; [vm_compute; reflexivity|].
  split; [reflexivity|].
  split; apply (bool_decide_unpack _); vm_compute; exact I.
Qed.

(** A unit that only increments a scalar gets the scalar as reduction set,
    although its loop is not affine; a loop that is no atomic candidate is
    returned as it is, indexed increment or not. *)
Lemma scalar_increments_witness :
  mapM loop_args [scalar_unit] = Ok [Iteration.args scalar_only]
  /\ forallb (fun i => negb (is_Indexed (Expression.output i))) (increments scalar_unit)
     = true
  /\ forallb IterationArgs.is_Affine [Iteration.args scalar_only] = false
  /\ (exists prefix',
        PragmaParallelizer._make_reductions Sample.host scalar_unit [scalar_unit]
        = Ok (ParallelTree prefix'
                (Iteration_
                   (Some (ParallelIteration._rebuild_reduction
                            (PragmaParallelizer.kwargs0 1) [Scalar s]))
                   (Iteration.args scalar_only) (Iteration.nodes scalar_only))
                (Some (PragmaParallelizer.nthreads_nonaffine Sample.host))))
  /\ PragmaParallelizer._make_reductions Sample.host
       (Iteration_ None (Iteration.args SampleNests.x) [Expression_ indexed_inc])
       [Iteration.to_node SampleNests.x]
     = Ok (Iteration_ None (Iteration.args SampleNests.x) [Expression_ indexed_inc]).
Proof.
  assert (mapM loop_args [scalar_unit] = Ok [Iteration.args scalar_only]) as Hc
    by reflexivity.
  assert (forallb (fun i => negb (is_Indexed (Expression.output i)))
                  (increments scalar_unit) = true) as Hs by reflexivity.
  split; [exact Hc|]. split; [exact Hs|]. split; [reflexivity|]. split.
  - destruct (scalar_increments_are_reduced Sample.host []
                (PragmaParallelizer.kwargs0 1) (Iteration.args scalar_only)
                (Iteration.nodes scalar_only)
                (Some (PragmaParallelizer.nthreads_nonaffine Sample.host))
                [scalar_unit] [Iteration.args scalar_only] Hc) as [Hred _].
    destruct (Hred eq_refl (or_intror Hs)) as (prefix' & Hr & _).
    exists prefix'. exact Hr.
  - destruct (scalar_increments_are_reduced Sample.host []
                (PragmaParallelizer.kwargs0 1) (Iteration.args scalar_only)
                (Iteration.nodes scalar_only)
                (Some (PragmaParallelizer.nthreads_nonaffine Sample.host))
                [Iteration.to_node SampleNests.x] [Iteration.args SampleNests.x] eq_refl)
      as [_ Hplain].
    apply Hplain. reflexivity.
Defined.

End ReductionRuns.

(** ** Device placement *)

Lemma not_on_device_true (gpu_fit : list Function.t) (f : Function.t) :
  not_on_device gpu_fit f = true
  <-> Function.is_TimeFunction f = true /\ Function.save f <> None /\ f ∉ gpu_fit.
Proof.
  unfold not_on_device.
  rewrite !andb_true_iff, negb_true_iff, bool_decide_eq_true, bool_decide_eq_false.
  tauto.
Qed.

Lemma is_on_device_true `{DevitoIR} (maybe_symbol : MaybeSymbol)
    (gpu_fit : list Function.t) (only_writes : bool) :
  is_on_device maybe_symbol gpu_fit only_writes = true
  <-> forall f, f ∈ inspected_functions maybe_symbol only_writes ->
                not_on_device gpu_fit f = false.
Proof.
  unfold is_on_device. rewrite forallb_forall. split.
  - intros Hall f Hf. apply negb_true_iff, Hall, list_elem_of_In, elem_of_elements, Hf.
  - intros Hall f Hf. apply negb_true_iff, Hall, elem_of_elements, list_elem_of_In, Hf.
Qed.

Lemma is_on_device_false `{DevitoIR} (maybe_symbol : MaybeSymbol)
    (gpu_fit : list Function.t) (only_writes : bool) :
  is_on_device maybe_symbol gpu_fit only_writes = false
  <-> exists f, f ∈ inspected_functions maybe_symbol only_writes
                /\ not_on_device gpu_fit f = true.
Proof.
  rewrite <- not_true_iff_false, is_on_device_true. split.
  - intros Hn. unfold is_on_device in *.
    destruct (existsb (not_on_device gpu_fit)
                (elements (inspected_functions maybe_symbol only_writes))) eqn:He.
    + apply existsb_exists in He as (f & Hf & Hnot).
      exists f. split; [|exact Hnot].
      by apply elem_of_elements, list_elem_of_In.
    + exfalso. apply Hn. intros f Hf.
      apply not_true_iff_false. intros Hnot.
      assert (existsb (not_on_device gpu_fit)
                (elements (inspected_functions maybe_symbol only_writes)) = true)
        as Htrue; [|congruence].
      apply existsb_exists. exists f. split; [|exact Hnot].
      by apply list_elem_of_In, elem_of_elements.
  - intros (f & Hf & Hnot) Hall. specialize (Hall f Hf). congruence.
Qed.

(** C5: a function listed in gpu-fit is never found off the device by
    [is_on_device], whether it keeps its time history or not; a function is
    found off the device exactly when it is a time function that saves its
    history and is not in gpu-fit; and a piece of IET is off the device
    exactly when one of the functions inspected in it is. *)
Theorem gpu_fit_function_is_on_device `{DevitoIR} (f : Function.t)
    (gpu_fit : list Function.t) (only_writes : bool) :
  (f ∈ gpu_fit -> is_on_device (OfFunction f) gpu_fit only_writes = true)
  /\ (is_on_device (OfFunction f) gpu_fit only_writes = false
      <-> Function.is_TimeFunction f = true /\ Function.save f <> None /\ f ∉ gpu_fit)
  /\ (forall indices,
        is_on_device (OfIndexed (Indexed f indices)) gpu_fit only_writes = false
        <-> Function.is_TimeFunction f = true /\ Function.save f <> None /\ f ∉ gpu_fit)
  /\ (forall iet,
        is_on_device (OfNode iet) gpu_fit only_writes = false
        <-> exists g, g ∈ inspected_functions (OfNode iet) only_writes
                      /\ Function.is_TimeFunction g = true
                      /\ Function.save g <> None /\ g ∉ gpu_fit)
  /\ (forall iet,
        (forall g, g ∈ inspected_functions (OfNode iet) only_writes -> g ∈ gpu_fit) ->
        is_on_device (OfNode iet) gpu_fit only_writes = true).
Proof.
  assert (forall ms, inspected_functions ms only_writes = {[ f ]} ->
            is_on_device ms gpu_fit only_writes = false
            <-> Function.is_TimeFunction f = true /\ Function.save f <> None
                /\ f ∉ gpu_fit) as Hone.
  { intros ms Hms. rewrite is_on_device_false, Hms, <- not_on_device_true. split.
    - intros (g & Hg & Hnot). apply elem_of_singleton in Hg. by subst.
    - intros Hnot. exists f. split; [by apply elem_of_singleton|exact Hnot]. }
  split; [|split; [|split; [|split]]].
  - intros Hfit. apply not_false_iff_true. intros Hoff.
    apply (Hone (OfFunction f) eq_refl) in Hoff. tauto.
  - apply Hone. reflexivity.
  - intros indices. apply Hone. reflexivity.
  - intros iet. rewrite is_on_device_false.
    split; intros (g & Hg & Hnot); exists g; (split; [exact Hg|]);
      by apply not_on_device_true.
  - intros iet Hfit. apply is_on_device_true. intros g Hg.
    apply not_true_iff_false. intros Hnot. apply not_on_device_true in Hnot.
    specialize (Hfit g Hg). tauto.
Qed.

Section PlacementRuns.
#[local] Existing Instance Sample.ir.

(** A time function saving 100 steps is off the device unless gpu-fit
    lists it. *)
Example saved_time_function_off_device :
  is_on_device (OfFunction (Sample.time_function "usave" (Some 100))) [] false = false.
Proof. vm_compute. reflexivity. Qed.

Example saved_time_function_in_gpu_fit :
  is_on_device (OfFunction (Sample.time_function "usave" (Some 100)))
               [Sample.time_function "usave" (Some 100)] false = true.
Proof. vm_compute. reflexivity. Qed.

Lemma gpu_fit_function_witness :
  Sample.time_function "usave" (Some 100) ∈ [Sample.time_function "usave" (Some 100)]
  /\ is_on_device (OfFunction (Sample.time_function "usave" (Some 100)))
                  [Sample.time_function "usave" (Some 100)] true = true.
Proof.
  assert (Sample.time_function "usave" (Some 100)
          ∈ [Sample.time_function "usave" (Some 100)]) as Hfit
    by apply list_elem_of_here.
  split; [exact Hfit|].
  destruct (gpu_fit_function_is_on_device (Sample.time_function "usave" (Some 100))
              [Sample.time_function "usave" (Some 100)] true) as [Hon _].
  exact (Hon Hfit).
Defined.

End PlacementRuns.

Section DevicePartree.
Context `{DevitoIR} (self : DeviceAwarePragmaParallelizer.t).

Lemma inspected_no_writes (iet : Node) :
  map Expression.write (omap as_Expression (FindNodes Expression iet)) = [] ->
  inspected_functions (OfNode iet) true = ∅.
Proof.
  intros Hw. unfold inspected_functions. rewrite Hw. simpl.
  apply (right_absorb_L ∅ (∩)).
Qed.

(** C10: a nest none of whose expressions writes a function passes the
    device placement test with [only_writes=True] over an empty set, and the
    device-aware [_make_partree] offloads it: the tree it returns has no
    prologue and its loop carries [gpu_fit] and the collapse degree. *)
Theorem nest_without_writes_is_offloaded (root : Iteration.t)
    (rest : list Iteration.t) (nthreads : option Symbol.t) :
  map Expression.write
      (omap as_Expression (FindNodes Expression (Iteration.to_node root))) = [] ->
  inspected_functions (OfNode (Iteration.to_node root)) true = ∅
  /\ is_on_device (OfNode (Iteration.to_node root))
                  (DeviceAwarePragmaParallelizer.gpu_fit self) true = true
  /\ exists collapsable,
       PragmaParallelizer._find_collapsable (DeviceAwarePragmaParallelizer.base self)
         root (root :: rest) = Ok collapsable
       /\ DeviceAwarePragmaParallelizer._make_partree self (root :: rest) nthreads
          = Ok (root,
                Some (ParallelTree []
                        (Iteration_
                           (Some (PragmaParallelizer.with_gpu_fit
                                    (PragmaParallelizer.kwargs0 (1 + length collapsable))
                                    (DeviceAwarePragmaParallelizer.gpu_fit self)))
                           (Iteration.args root) (Iteration.nodes root))
                        nthreads,
                      ParallelTree []
                        (Iteration_
                           (Some (PragmaParallelizer.with_gpu_fit
                                    (PragmaParallelizer.kwargs0 (1 + length collapsable))
                                    (DeviceAwarePragmaParallelizer.gpu_fit self)))
                           (Iteration.args root) (Iteration.nodes root))
                        nthreads
                      :: map Iteration.to_node collapsable)).
Proof.
  intros Hw. pose proof (inspected_no_writes _ Hw) as He.
  assert (is_on_device (OfNode (Iteration.to_node root))
            (DeviceAwarePragmaParallelizer.gpu_fit self) true = true) as Hon.
  { apply is_on_device_true. intros f Hf. rewrite He in Hf.
    by apply not_elem_of_empty in Hf. }
  split; [exact He|]. split; [exact Hon|].
  eexists. split; [apply find_collapsable_group|].
  unfold DeviceAwarePragmaParallelizer._make_partree.
  rewrite Hon, find_collapsable_group. reflexivity.
Qed.

End DevicePartree.

Section DevicePartreeRun.
#[local] Existing Instance Sample.ir.
Import SampleNests.

Lemma nest_without_writes_witness :
  map Expression.write
      (omap as_Expression (FindNodes Expression (Iteration.to_node polling))) = []
  /\ DeviceAwarePragmaParallelizer.par_disabled Sample.device = false
  /\ DeviceAwarePragmaParallelizer._make_partree Sample.device [polling] None
     = Ok (polling,
           Some (ParallelTree []
                   (Iteration_
                      (Some (PragmaParallelizer.with_gpu_fit
                               (PragmaParallelizer.kwargs0 1) []))
                      (Iteration.args polling) (Iteration.nodes polling))
                   None,
                 [ParallelTree []
                   (Iteration_
                      (Some (PragmaParallelizer.with_gpu_fit
                               (PragmaParallelizer.kwargs0 1) []))
                      (Iteration.args polling) (Iteration.nodes polling))
                   None])).
Proof.
  assert (map Expression.write
            (omap as_Expression (FindNodes Expression (Iteration.to_node polling))) = [])
    as Hw by reflexivity.
  split; [exact Hw|]. split; [reflexivity|].
  destruct (nest_without_writes_is_offloaded Sample.device polling [] None Hw)
    as (_ & _ & collapsable & Hc & Hp).
  vm_compute in Hc. injection Hc as <-. exact Hp.
Defined.

End DevicePartreeRun.

(** ** The zero-step guard *)

Lemma Or_false (args : list Relational) : Or args = BooleanFalse <-> args = [].
Proof.
  destruct args as [|r [|r' args]]; simpl; split; intros Heq;
    first [reflexivity | discriminate].
Qed.

Lemma filter_nil_existsb {A : Type} (p : A -> bool) (l : list A) :
  List.filter p l = [] <-> existsb p l = false.
Proof.
  induction l as [|x l IH]; simpl; [tauto|].
  destruct (p x); simpl; [split; discriminate|exact IH].
Qed.

Lemma existsb_fmap {A B : Type} (p : B -> bool) (f : A -> B) (l : list A) :
  existsb p (map f l) = existsb (fun x => p (f x)) l.
Proof. induction l; simpl; congruence. Qed.

Lemma mapM_loop_attr {B : Type} (f : IterationArgs.t -> B) (collapsed : list Node) :
  forall cargs,
    mapM loop_args collapsed = Ok cargs ->
    mapM (fun i => a ← loop_args i; Ok (f a)) collapsed = Ok (map f cargs).
Proof.
  induction collapsed as [|i collapsed IH]; intros cargs Hc; cbn [mapM] in Hc.
  - injection Hc as <-. reflexivity.
  - inv_bind Hc. inv_bind Hc. injection Hc as <-. cbn [mapM map].
    rewrite Ha. simpl. rewrite (IH _ Ha0). reflexivity.
Qed.

(** [_make_guard] of the host specializer, once and for all. *)
Lemma make_guard_cases (partree : Node) (collapsed : list Node)
    (cargs : list IterationArgs.t) :
  mapM loop_args collapsed = Ok cargs ->
  PragmaParallelizer._make_guard partree collapsed
  = Ok (if existsb (fun a => isinstance_Symbol (IterationArgs.step a)) cargs
        then List_ [] [Conditional (zero_step_condition cargs) [Return]; partree] []
        else partree).
Proof.
  intros Hc. unfold PragmaParallelizer._make_guard.
  rewrite (mapM_loop_attr IterationArgs.step _ _ Hc). cbn [mbind Result_bind].
  fold (zero_step_condition cargs).
  rewrite <- existsb_fmap.
  destruct (existsb isinstance_Symbol (map IterationArgs.step cargs)) eqn:He.
  - rewrite bool_decide_eq_true_2; [reflexivity|].
    unfold zero_step_condition. rewrite Or_false. intros Hnil.
    apply fmap_nil_inv in Hnil. apply filter_nil_existsb in Hnil. congruence.
  - rewrite bool_decide_eq_false_2; [reflexivity|].
    intros Hne. apply Hne. unfold zero_step_condition. apply Or_false.
    apply filter_nil_existsb in He. by rewrite He.
Qed.

Lemma make_guard_shape (partree : Node) (collapsed : list Node) (r : Node) :
  PragmaParallelizer._make_guard partree collapsed = Ok r ->
  r = partree \/ exists cond, r = List_ [] [Conditional cond [Return]; partree] [].
Proof.
  unfold PragmaParallelizer._make_guard. intros Hr. inv_bind Hr.
  destruct (bool_decide _); injection Hr as <-; eauto.
Qed.

Section Reshaping.
Context `{DevitoIR} (self : PragmaParallelizer.t).

Lemma dict_get_expression_keys (mapper : NodeDict) (o : Node) :
  Forall (fun kv => exists e, kv.1 = Expression_ e) mapper ->
  as_Expression o = None ->
  dict_get mapper o = None.
Proof.
  intros Hkeys Ho. induction Hkeys as [|[k v] mapper (e & Hk) _ IH]; [reflexivity|].
  simpl in *. subst k. destruct (decide (Expression_ e = o)) as [<-|]; [discriminate|].
  exact IH.
Qed.

Lemma atomic_mapper_keys (exprs : list Expression.t) (mapper : NodeDict) :
  mapM (fun i => a ← __getitem__ (PragmaParallelizer.lang self) "atomic";
                 Ok (Expression_ i, Expression_ (Expression._rebuild_pragmas i a)))
       exprs = Ok mapper ->
  Forall (fun kv => exists e, kv.1 = Expression_ e) mapper.
Proof.
  revert mapper. induction exprs as [|i exprs IH]; intros mapper Hm; cbn [mapM] in Hm.
  - injection Hm as <-. constructor.
  - inv_bind Hm. inv_bind Hm. injection Hm as <-.
    inv_bind Ha. injection Ha as <-. constructor; [by eexists|]. by apply IH.
Qed.

(** Handling reductions keeps a unit a tree over a loop built by
    [self._Iteration]. *)
Lemma make_reductions_shape (prefix : list Node) (kw : ParallelIteration.kwargs)
    (a : IterationArgs.t) (nodes : list Node) (nthreads : option Symbol.t)
    (collapsed : list Node) (r : Node) :
  PragmaParallelizer._make_reductions self
    (ParallelTree prefix (Iteration_ (Some kw) a nodes) nthreads) collapsed = Ok r ->
  exists prefix' kw' nodes',
    r = ParallelTree prefix' (Iteration_ (Some kw') a nodes') nthreads.
Proof.
  unfold PragmaParallelizer._make_reductions. intros Hr.
  inv_bind Hr. destruct a0; [|injection Hr as <-; eauto].
  change (negb true) with false in Hr. cbv iota in Hr.
  inv_bind Hr. inv_bind Hr.
  replace r with (Transformer a1 (ParallelTree prefix (Iteration_ (Some kw) a nodes)
                                               nthreads)) by congruence.
  clear Hr. destruct (a0 || _).
  - cbn [root mbind Result_bind PragmaParallelizer._rebuild_reduction] in Ha1.
    injection Ha1 as <-.
    rewrite Transformer_unfold, (Transformer_unfold _ (Iteration_ _ _ _)).
    rewrite !dict_get_singleton.
    rewrite decide_False by discriminate. rewrite decide_True by reflexivity.
    eauto.
  - apply atomic_mapper_keys in Ha1.
    rewrite Transformer_unfold, (Transformer_unfold _ (Iteration_ _ _ _)).
    rewrite !(dict_get_expression_keys _ _ Ha1) by reflexivity. eauto.
Qed.

End Reshaping.

Section DeviceGuard.
Context `{DevitoIR} (self : DeviceAwarePragmaParallelizer.t).

(** On a tree over a loop built by [self._Iteration], the overrides of the
    device-aware specializer do nothing. *)
Lemma device_overrides_are_noops (prefix : list Node) (kw : ParallelIteration.kwargs)
    (a : IterationArgs.t) (nodes : list Node) (nthreads : option Symbol.t) :
  DeviceAwarePragmaParallelizer._make_nested_partree self
    (ParallelTree prefix (Iteration_ (Some kw) a nodes) nthreads)
  = Ok (ParallelTree prefix (Iteration_ (Some kw) a nodes) nthreads)
  /\ DeviceAwarePragmaParallelizer._make_threaded_prodders
       (ParallelTree prefix (Iteration_ (Some kw) a nodes) nthreads)
     = Ok (ParallelTree prefix (Iteration_ (Some kw) a nodes) nthreads)
  /\ (forall st,
        DeviceAwarePragmaParallelizer._make_parregion self
          (ParallelTree prefix (Iteration_ (Some kw) a nodes) nthreads) st
        = Ok (ParallelTree prefix (Iteration_ (Some kw) a nodes) nthreads, st))
  /\ (forall collapsed,
        DeviceAwarePragmaParallelizer._make_guard
          (ParallelTree prefix (Iteration_ (Some kw) a nodes) nthreads) collapsed
        = Ok (ParallelTree prefix (Iteration_ (Some kw) a nodes) nthreads)).
Proof. repeat split. Qed.

End DeviceGuard.

Lemma existsb_elem_of {A : Type} (p : A -> bool) (l : list A) :
  existsb p l = true <-> exists a, a ∈ l /\ p a = true.
Proof.
  rewrite existsb_exists. split; intros (a & Ha & Hp); exists a;
    (split; [by apply list_elem_of_In|exact Hp]).
Qed.

(** C4: the host specializer prefixes the region with a conditional early
    return exactly when the step of some collapsed loop is a symbol, the
    condition being the disjunction of the `step == 0` tests of these
    steps, which is then not the constant false; otherwise the region is
    returned as it is. A unit that the device-aware specializer places on
    the device goes through nested parallelism, prodders, region assembly
    and guard injection unchanged, so it receives no guard. The equivalence
    is lost under the device-aware specializer for a unit that is not
    placed on the device: with par-disabled unset its tree is the one of
    the host [_make_partree], over a loop built by the same
    [self._Iteration], so the four overrides leave it as it is and the pass
    maps the root to the bare tree, although a collapsed loop has a symbol
    for step and the host [_make_guard], to which the override should have
    deferred, prefixes the early return. *)
Theorem zero_step_guard_lost_on_host_fallback `{DevitoIR} :
  (forall (partree : Node) (collapsed : list Node) (cargs : list IterationArgs.t),
     mapM loop_args collapsed = Ok cargs ->
     ((exists a, a ∈ cargs /\ isinstance_Symbol (IterationArgs.step a) = true) ->
      zero_step_condition cargs <> BooleanFalse
      /\ PragmaParallelizer._make_guard partree collapsed
         = Ok (List_ [] [Conditional (zero_step_condition cargs) [Return]; partree] []))
     /\ ((forall a, a ∈ cargs -> isinstance_Symbol (IterationArgs.step a) = false) ->
         PragmaParallelizer._make_guard partree collapsed = Ok partree))
  /\ (forall (self : DeviceAwarePragmaParallelizer.t) (root : Iteration.t)
             (rest : list Iteration.t) (nthreads : option Symbol.t)
             (partree : Node) (collapsed : list Node),
        is_on_device (OfNode (Iteration.to_node root))
                     (DeviceAwarePragmaParallelizer.gpu_fit self) true = true ->
        DeviceAwarePragmaParallelizer._make_partree self (root :: rest) nthreads
        = Ok (root, Some (partree, collapsed)) ->
        DeviceAwarePragmaParallelizer._make_nested_partree self partree = Ok partree
        /\ forall reduced,
             PragmaParallelizer._make_reductions (DeviceAwarePragmaParallelizer.base self)
               partree collapsed = Ok reduced ->
             DeviceAwarePragmaParallelizer._make_threaded_prodders reduced = Ok reduced
             /\ (forall st,
                   DeviceAwarePragmaParallelizer._make_parregion self reduced st
                   = Ok (reduced, st))
             /\ DeviceAwarePragmaParallelizer._make_guard reduced collapsed = Ok reduced
             /\ exists prefix kw a nodes,
                  reduced = ParallelTree prefix (Iteration_ (Some kw) a nodes) nthreads)
  /\ (forall (self : DeviceAwarePragmaParallelizer.t) (tree : list Iteration.t)
             (trees : list (list Iteration.t)) (root : Iteration.t)
             (rest : list Iteration.t) (mapper : NodeDict)
             (st : gmap Function.t PointerArray.t * nat)
             (partree reduced : Node) (collapsed : list Node)
             (cargs : list IterationArgs.t),
        filter_iterations tree PragmaParallelizer.key = root :: rest ->
        is_on_device (OfNode (Iteration.to_node root))
                     (DeviceAwarePragmaParallelizer.gpu_fit self) true = false ->
        DeviceAwarePragmaParallelizer.par_disabled self = false ->
        dict_in (Iteration.to_node root) mapper = false ->
        DeviceAwarePragmaParallelizer._make_partree self (root :: rest) None
        = Ok (root, Some (partree, collapsed)) ->
        PragmaParallelizer._make_reductions (DeviceAwarePragmaParallelizer.base self)
          partree collapsed = Ok reduced ->
        mapM loop_args collapsed = Ok cargs ->
        (exists a, a ∈ cargs /\ isinstance_Symbol (IterationArgs.step a) = true) ->
        PragmaParallelizer._make_partree (DeviceAwarePragmaParallelizer.base self)
          (root :: rest) None
        = Ok (root, Some (partree, collapsed))
        /\ DeviceAwarePragmaParallelizer._make_nested_partree self partree = Ok partree
        /\ DeviceAwarePragmaParallelizer._make_threaded_prodders reduced = Ok reduced
        /\ DeviceAwarePragmaParallelizer._make_parregion self reduced st
           = Ok (reduced, st)
        /\ DeviceAwarePragmaParallelizer._make_guard reduced collapsed = Ok reduced
        /\ PragmaParallelizer._make_parallel_loop
             (DeviceAwarePragmaParallelizer.methods self) (tree :: trees) mapper st
           = PragmaParallelizer._make_parallel_loop
               (DeviceAwarePragmaParallelizer.methods self) trees
               (dict_set mapper (Iteration.to_node root) reduced) st
        /\ (exists prefix kw a nodes nt,
              reduced = ParallelTree prefix (Iteration_ (Some kw) a nodes) nt)
        /\ PragmaParallelizer._make_guard reduced collapsed
           = Ok (List_ [] [Conditional (zero_step_condition cargs) [Return]; reduced] [])
        /\ DeviceAwarePragmaParallelizer._make_guard reduced collapsed
           <> PragmaParallelizer._make_guard reduced collapsed).
Proof.
  split; [|split].
  - intros partree collapsed cargs Hc.
    rewrite (make_guard_cases _ _ _ Hc). split.
    + intros Hex. apply existsb_elem_of in Hex. rewrite Hex. split; [|reflexivity].
      unfold zero_step_condition. rewrite Or_false. intros Hnil.
      apply fmap_nil_inv, filter_nil_existsb in Hnil.
      rewrite existsb_fmap in Hnil. congruence.
    + intros Hall.
      destruct (existsb _ cargs) eqn:Hex; [|reflexivity].
      apply existsb_elem_of in Hex as (a & Ha & Hs).
      specialize (Hall a Ha). congruence.
  - intros self root rest nthreads partree collapsed Hon Hp.
    unfold DeviceAwarePragmaParallelizer._make_partree in Hp.
    rewrite Hon, find_collapsable_group in Hp.
    cbn [mbind Result_bind] in Hp.
    assert (exists kw,
              partree = ParallelTree [] (Iteration_ (Some kw) (Iteration.args root)
                                                    (Iteration.nodes root)) nthreads)
      as [kw ->].
    { eexists. unfold PragmaParallelizer._Iteration in Hp. simpl in Hp.
      injection Hp as <- _. reflexivity. }
    clear Hp.
    split; [apply (device_overrides_are_noops self)|].
    intros reduced Hr.
    apply make_reductions_shape in Hr as (prefix' & kw' & nodes' & ->).
    split; [apply (device_overrides_are_noops self)|].
    split; [apply (device_overrides_are_noops self)|].
    split; [apply (device_overrides_are_noops self)|].
    eauto.
  - intros self tree trees root rest mapper st partree reduced collapsed cargs
           Hcand Hoff Hd Hfresh Hp Hr Hc Hex.
    assert (PragmaParallelizer._make_partree (DeviceAwarePragmaParallelizer.base self)
              (root :: rest) None
            = Ok (root, Some (partree, collapsed))) as Hhost.
    { unfold DeviceAwarePragmaParallelizer._make_partree in Hp.
      rewrite Hoff, Hd in Hp. exact Hp. }
    split; [exact Hhost|].
    destruct (make_partree_shape _ _ _ _ _ Hhost)
      as (collapsable & prefix & kw & nt & _ & _ & Heq).
    injection Heq as -> ->.
    destruct (device_overrides_are_noops self prefix kw (Iteration.args root)
                (Iteration.nodes root) (Some nt)) as (Hnested & _).
    split; [exact Hnested|].
    destruct (make_reductions_shape _ _ _ _ _ _ _ _ Hr) as (prefix' & kw' & nodes' & ->).
    destruct (device_overrides_are_noops self prefix' kw' (Iteration.args root)
                nodes' (Some nt)) as (_ & Hprod & Hregion & Hguard).
    split; [exact Hprod|]. split; [apply Hregion|]. split; [apply Hguard|].
    split.
    { cbn [PragmaParallelizer._make_parallel_loop]. rewrite Hcand.
      cbn [m_make_partree m_make_nested_partree m_make_reductions
           m_make_threaded_prodders m_make_parregion m_make_guard
           DeviceAwarePragmaParallelizer.methods].
      rewrite Hp. cbn [mbind Result_bind]. rewrite Hfresh.
      rewrite Hnested. cbn [mbind Result_bind].
      rewrite Hr. cbn [mbind Result_bind].
      rewrite Hprod. cbn [mbind Result_bind].
      rewrite Hregion. cbn [mbind Result_bind].
      rewrite Hguard. reflexivity. }
    split; [eauto 10|].
    apply existsb_elem_of in Hex.
    rewrite Hguard, (make_guard_cases _ _ _ Hc), Hex.
    split; [reflexivity|]. discriminate.
Qed.

Section GuardRuns.
#[local] Existing Instance Sample.ir.
Import SampleNests SampleUnits.

(** The nest [saving], whose loop has the symbol [x_step] for step and
    writes a time function with saved history, under the device-aware
    specializer with par-disabled unset: it is not placed on the device, the
    host [_make_partree] builds its tree, and the pass maps its root to the
    bare tree, where the host [_make_guard] prefixes the early return on
    [x_step == 0]. *)
Lemma zero_step_guard_lost_witness :
  is_on_device (OfNode (Iteration.to_node saving))
               (DeviceAwarePragmaParallelizer.gpu_fit Sample.device) true = false
  /\ DeviceAwarePragmaParallelizer.par_disabled Sample.device = false
  /\ exists partree collapsed,
       DeviceAwarePragmaParallelizer._make_partree Sample.device [saving] None
       = Ok (saving, Some (partree, collapsed))
       /\ mapM loop_args collapsed = Ok [Iteration.args saving]
       /\ isinstance_Symbol (IterationArgs.step (Iteration.args saving)) = true
       /\ PragmaParallelizer._make_reductions
            (DeviceAwarePragmaParallelizer.base Sample.device) partree collapsed
          = Ok partree
       /\ DeviceAwarePragmaParallelizer._make_guard partree collapsed = Ok partree
       /\ PragmaParallelizer._make_parallel_loop
            (DeviceAwarePragmaParallelizer.methods Sample.device) [[saving]] [] (∅, 0%nat)
          = Ok ([(Iteration.to_node saving, partree)], (∅, 0%nat))
       /\ PragmaParallelizer._make_guard partree collapsed
          = Ok (List_ [] [Conditional (Rel (CondEq (Sym "x_step") (Integer 0))) [Return];
                          partree] []).
Proof.
  assert (is_on_device (OfNode (Iteration.to_node saving))
                       (DeviceAwarePragmaParallelizer.gpu_fit Sample.device) true = false)
    as Hoff by (vm_compute; reflexivity).
  split; [exact Hoff|]. split; [reflexivity|].
  eexists _, _.
  match goal with
  | |- ?P /\ _ => assert P as Hp by (vm_compute; reflexivity)
  end.
  split; [exact Hp|].
  match goal with
  | |- ?P /\ _ => assert P as Hc by reflexivity
  end.
  split; [exact Hc|]. split; [reflexivity|].
  match goal with
  | |- ?P /\ _ => assert P as Hr by reflexivity
  end.
  split; [exact Hr|].
  destruct zero_step_guard_lost_on_host_fallback as (_ & _ & Hfall).
  destruct (Hfall Sample.device [saving] [] saving [] [] (∅, 0%nat) _ _ _ _
                  eq_refl Hoff eq_refl eq_refl Hp Hr Hc)
    as (_ & _ & _ & _ & Hguard & Hloop & _ & Hhost & _).
  { eexists. split; [apply list_elem_of_here|reflexivity]. }
  split; [exact Hguard|]. split; [exact Hloop|]. exact Hhost.
Defined.

(** Under the device-aware specializer a nest that writes a time function
    with saved history is built on the host path; its tree is over a loop
    built by the same [self._Iteration], so the overrides leave it without
    region and without guard, symbolic step or not. *)
Example host_fallback_under_device_specializer :
  is_on_device (OfNode (Iteration.to_node saving)) [] true = false
  /\ exists partree collapsed,
       DeviceAwarePragmaParallelizer._make_partree Sample.device [saving] None
       = Ok (saving, Some (partree, collapsed))
       /\ DeviceAwarePragmaParallelizer._make_parregion Sample.device partree (∅, 0%nat)
          = Ok (partree, (∅, 0%nat))
       /\ DeviceAwarePragmaParallelizer._make_guard partree collapsed = Ok partree
       /\ PragmaParallelizer._make_guard partree collapsed
          = Ok (List_ [] [Conditional (Rel (CondEq (Sym "x_step") (Integer 0))) [Return];
                          partree] []).
Proof.
  split; [vm_compute; reflexivity|].
  eexists _, _. split; [vm_compute; reflexivity|].
  split; [reflexivity|]. split; reflexivity.
Qed.

End GuardRuns.

(** ** Promotion of thread-private heap arrays *)

Section Promotion.
Context `{DevitoIR} (self : PragmaParallelizer.t).

Lemma extends_refl st : extends st st.
Proof. repeat split; auto. Qed.

Lemma extends_trans st1 st2 st3 : extends st1 st2 -> extends st2 st3 -> extends st1 st3.
Proof.
  intros (Hs1 & Hn1 & Ho1) (Hs2 & Hn2 & Ho2). repeat split.
  - by etrans.
  - lia.
  - auto.
Qed.

Lemma bound_in_weaken (parrays parrays' : gmap Function.t PointerArray.t) i d :
  parrays ⊆ parrays' -> bound_in parrays i d -> bound_in parrays' i d.
Proof.
  intros Hsub (pi & -> & Hpi). exists pi. split; [reflexivity|].
  by eapply lookup_weaken.
Qed.

Lemma emitted_weaken (parrays parrays' : gmap Function.t PointerArray.t) v :
  parrays ⊆ parrays' -> emitted parrays v -> emitted parrays' v.
Proof.
  intros Hsub (partree & region & derefs & Hd & Hr & Hv).
  exists partree, region, derefs. split; [|auto].
  eapply Forall2_impl; [exact Hd|]. intros i d. by apply bound_in_weaken.
Qed.

(** The map is consulted first: a buffer already bound keeps its pointer
    array and nothing is created; otherwise one name is drawn and one
    binding added. *)
Lemma promote_spec st i pi st' :
  PragmaParallelizer.promote self st i = (pi, st') ->
  st'.1 !! i = Some pi
  /\ extends st st'
  /\ (forall pi0, st.1 !! i = Some pi0 -> pi = pi0 /\ st' = st).
Proof.
  destruct st as [parrays names]. unfold PragmaParallelizer.promote.
  destruct (parrays !! i) as [pi0|] eqn:Hi; intros [= <- <-]; simpl.
  - split; [exact Hi|]. split; [apply extends_refl|].
    intros pi1 Hpi1. split; congruence.
  - split; [apply lookup_insert_eq|].
    split; [|intros pi1 Hpi1; simpl in Hpi1; congruence].
    repeat split; simpl.
    + by apply insert_subseteq.
    + rewrite map_size_insert_None by exact Hi. lia.
    + intros Ho a pa. destruct (decide (i = a)) as [<-|Hne].
      * rewrite lookup_insert_eq. by intros [= <-].
      * rewrite lookup_insert_ne by exact Hne. apply Ho.
Qed.

Lemma heap_globals_loop_spec (heap_private : list Function.t) :
  forall st acc heap_globals st',
    PragmaParallelizer.heap_globals_loop self heap_private st acc = (heap_globals, st') ->
    extends st st'
    /\ exists derefs,
         heap_globals = acc ++ derefs
         /\ Forall2 (bound_in st'.1) heap_private derefs.
Proof.
  induction heap_private as [|i rest IH]; intros st acc heap_globals st'; simpl.
  - intros [= <- <-]. split; [apply extends_refl|].
    exists []. split; [by rewrite app_nil_r|constructor].
  - destruct (PragmaParallelizer.promote self st i) as [pi st1] eqn:Hp.
    intros Hl. apply promote_spec in Hp as (Hpi & Hext & _).
    apply IH in Hl as (Hext' & derefs & -> & Hd).
    split; [by eapply extends_trans|].
    exists (Dereference i pi :: derefs). split; [by rewrite <- app_assoc|].
    constructor; [|exact Hd].
    exists pi. split; [reflexivity|].
    destruct Hext' as (Hsub & _). by eapply lookup_weaken.
Qed.

Lemma make_parregion_spec (partree : Node) st region st' :
  PragmaParallelizer._make_parregion self partree st = Ok (region, st') ->
  extends st st'
  /\ exists derefs,
       Forall2 (bound_in st'.1) (PragmaParallelizer.heap_private partree) derefs
       /\ region_over partree derefs region.
Proof.
  unfold PragmaParallelizer._make_parregion.
  destruct (PragmaParallelizer.heap_globals_loop self _ st [])
    as [heap_globals st1] eqn:Hl.
  apply heap_globals_loop_spec in Hl as (Hext & derefs & -> & Hd). simpl.
  intros Hr. inv_bind Hr. injection Hr as <- <-.
  split; [exact Hext|]. exists derefs. split; [exact Hd|].
  destruct derefs as [|d derefs].
  - injection Ha as <-. by left.
  - right. inv_bind Ha. inv_bind Ha.
    destruct partree; try discriminate. simpl in Ha1, Ha.
    injection Ha1 as <-. injection Ha as <-. eauto 10.
Qed.

Lemma make_parallel_loop_cons (m : Methods) tree trees mapper st :
  PragmaParallelizer._make_parallel_loop m (tree :: trees) mapper st
  = match filter_iterations tree PragmaParallelizer.key with
    | [] => PragmaParallelizer._make_parallel_loop m trees mapper st
    | _ =>
        '(root, res) ← m_make_partree m
                         (filter_iterations tree PragmaParallelizer.key) None;
        match res with
        | None => PragmaParallelizer._make_parallel_loop m trees mapper st
        | Some (partree, collapsed) =>
            if dict_in (Iteration.to_node root) mapper
            then PragmaParallelizer._make_parallel_loop m trees mapper st
            else
              partree ← m_make_nested_partree m partree;
              partree ← m_make_reductions m partree collapsed;
              partree ← m_make_threaded_prodders m partree;
              '(parregion, st') ← m_make_parregion m partree st;
              parregion ← m_make_guard m parregion collapsed;
              PragmaParallelizer._make_parallel_loop m trees
                (dict_set mapper (Iteration.to_node root) parregion) st'
        end
    end.
Proof. reflexivity. Qed.

Lemma make_parallel_loop_spec (trees : list (list Iteration.t)) :
  forall mapper st mapper' st',
    PragmaParallelizer._make_parallel_loop (PragmaParallelizer.methods self)
      trees mapper st = Ok (mapper', st') ->
    extends st st'
    /\ forall k v, (k, v) ∈ mapper' -> (k, v) ∈ mapper \/ emitted st'.1 v.
Proof.
  induction trees as [|tree trees IH]; intros mapper st mapper' st' Hl.
  - injection Hl as <- <-. split; [apply extends_refl|auto].
  - rewrite make_parallel_loop_cons in Hl.
    destruct (filter_iterations tree PragmaParallelizer.key) as [|c candidates];
      [by apply IH|].
    inv_bind Hl. destruct a as [root [[partree collapsed]|]]; [|by apply IH].
    destruct (dict_in (Iteration.to_node root) mapper); [by apply IH|].
    inv_bind Hl. inv_bind Hl. inv_bind Hl. inv_bind Hl.
    destruct a2 as [parregion st1]. inv_bind Hl.
    apply IH in Hl as (Hext' & Hm).
    cbn [m_make_parregion PragmaParallelizer.methods] in Ha3.
    apply make_parregion_spec in Ha3 as (Hext & derefs & Hd & Hr).
    cbn [m_make_guard PragmaParallelizer.methods] in Ha4.
    apply make_guard_shape in Ha4.
    split; [by eapply extends_trans|].
    intros k v Hkv. apply Hm in Hkv as [Hkv|Hkv]; [|by right].
    unfold dict_set in Hkv. apply elem_of_cons in Hkv as [[= -> ->]|Hkv]; [|by left].
    right. destruct Hext' as (Hsub & _).
    eapply emitted_weaken; [exact Hsub|].
    exists a1, parregion, derefs. auto.
Qed.

End Promotion.

Section PromotionResults.
Context `{DevitoIR} (self : PragmaParallelizer.t).

(** C6: in one run of the pass, started with an empty buffer-to-pointer
    array map, the names drawn from the registry for pointer arrays are as
    many as the buffers bound at the end, each bound to a pointer array of
    its own; every region the pass puts in the substitution map
    dereferences each thread-private heap array of its unit through the
    pointer array that the final map holds for that array, so two nests
    that use the same buffer share its pointer array; and a call of
    [_make_parregion] keeps every binding it finds. *)
Theorem one_pointer_array_per_buffer (iet iet' : Node) (names names' : nat)
    (meta : list Arg * list Builder) :
  PragmaParallelizer.make_parallel self iet names = Ok (iet', meta, names') ->
  (exists mapper parrays,
     PragmaParallelizer._make_parallel_loop (PragmaParallelizer.methods self)
       (retrieve_iteration_tree iet) [] (∅, names)
     = Ok (mapper, (parrays, names'))
     /\ iet' = Transformer mapper iet
     /\ names' = (names + size parrays)%nat
     /\ owned parrays
     /\ forall k v, (k, v) ∈ mapper -> emitted parrays v)
  /\ (forall partree st region st',
        PragmaParallelizer._make_parregion self partree st = Ok (region, st') ->
        st.1 ⊆ st'.1
        /\ (st'.2 + size st.1 = st.2 + size st'.1)%nat
        /\ exists derefs,
             Forall2 (bound_in st'.1) (PragmaParallelizer.heap_private partree) derefs
             /\ region_over partree derefs region).
Proof.
  intros Hp. split.
  - unfold PragmaParallelizer.make_parallel, PragmaParallelizer._make_parallel in Hp.
    inv_bind Hp. destruct a as [mapper [parrays names1]].
    inv_bind Hp. injection Hp as <- _ <-.
    exists mapper, parrays. split; [exact Ha|]. split; [reflexivity|].
    apply make_parallel_loop_spec in Ha as ((_ & Hn & Ho) & Hm). simpl in *.
    rewrite map_size_empty in Hn.
    split; [lia|]. split.
    + apply Ho. intros b pb. by rewrite lookup_empty.
    + intros k v Hkv. apply Hm in Hkv as [Hkv|Hkv]; [|exact Hkv].
      by apply elem_of_nil in Hkv.
  - intros partree st region st' Hr.
    apply make_parregion_spec in Hr as ((Hs & Hn & _) & Hd). auto.
Qed.

End PromotionResults.

Section PromotionRun.
#[local] Existing Instance Sample.ir.
Import SamplePass.

(** Both nests are rewritten, one name is drawn, and one pointer array is
    bound, through which both regions dereference [r]. *)
Lemma one_pointer_array_witness :
  exists iet' meta mapper parrays,
    PragmaParallelizer.make_parallel Sample.host two_nests 0 = Ok (iet', meta, 1%nat)
    /\ PragmaParallelizer._make_parallel_loop (PragmaParallelizer.methods Sample.host)
         (retrieve_iteration_tree two_nests) [] (∅, 0%nat)
       = Ok (mapper, (parrays, 1%nat))
    /\ length mapper = 2%nat
    /\ size parrays = 1%nat
    /\ forall k v, (k, v) ∈ mapper -> emitted parrays v.
Proof.
  assert (exists iet' meta,
            PragmaParallelizer.make_parallel Sample.host two_nests 0
            = Ok (iet', meta, 1%nat)) as (iet' & meta & Hrun).
  { eexists _, _. vm_compute. reflexivity. }
  assert (match PragmaParallelizer._make_parallel_loop
                  (PragmaParallelizer.methods Sample.host)
                  (retrieve_iteration_tree two_nests) [] (∅, 0%nat)
          with
          | Ok (mapper, _) => length mapper
          | Raise _ => 0%nat
          end = 2%nat) as Hlen by (vm_compute; reflexivity).
  destruct (one_pointer_array_per_buffer Sample.host _ _ _ _ _ Hrun)
    as ((mapper & parrays & Hl & _ & Hn & _ & Hm) & _).
  rewrite Hl in Hlen.
  exists iet', meta, mapper, parrays.
  split; [exact Hrun|]. split; [exact Hl|].
  split; [exact Hlen|split; [lia|exact Hm]].
Defined.

End PromotionRun.

(** * Further properties of the pass *)

(** ** The collapsed group *)

Section CollapsedGroup.
Context `{DevitoIR} (self : PragmaParallelizer.t).

Lemma worthwhile_group_prefix (root : Iteration.t) (candidates rest : list Iteration.t) :
  forall n, worthwhile_group self root candidates n rest `prefix_of` rest.
Proof.
  induction rest as [|i rest IH]; intros n; simpl; [done|].
  destruct (collapsable_at root candidates n i && negb (too_little_work self candidates n)).
  - apply prefix_cons, IH.
  - apply prefix_nil.
Qed.

Lemma worthwhile_group_Forall (root : Iteration.t) (candidates rest : list Iteration.t) :
  forall n,
    Forall (fun i => IsPerfectIteration i root = true /\ Iteration.is_Vectorized i = false)
           (worthwhile_group self root candidates n rest).
Proof.
  induction rest as [|i rest IH]; intros n; simpl; [constructor|].
  destruct (collapsable_at root candidates n i) eqn:Hc; simpl; [|constructor].
  destruct (too_little_work self candidates n); simpl; constructor; [|apply IH].
  unfold collapsable_at in Hc.
  apply andb_true_iff in Hc as [Hc Hv]. apply andb_true_iff in Hc as [Hp _].
  apply negb_true_iff in Hv. auto.
Qed.

Lemma find_collapsable_prefix (root : Iteration.t) (candidates collapsable : list Iteration.t) :
  PragmaParallelizer._find_collapsable self root candidates = Ok collapsable ->
  collapsable `prefix_of` drop 1 candidates.
Proof.
  rewrite find_collapsable_group. intros [= <-].
  destruct (bool_decide _); [apply worthwhile_group_prefix|apply prefix_nil].
Qed.

(** X1: [_find_collapsable] always returns, and what it returns is a run
    of consecutive candidates that starts right below the root, in the order
    of the nest: the first [k] of [candidates[1:]] for some [k], the first
    candidate being left out. Every loop of the run is perfectly nested
    under the root and not vectorized. *)
Theorem find_collapsable_is_a_run_below_the_root (root : Iteration.t)
    (candidates : list Iteration.t) :
  exists k,
    PragmaParallelizer._find_collapsable self root candidates
    = Ok (take k (drop 1 candidates))
    /\ (k <= length candidates - 1)%nat
    /\ Forall (fun i => IsPerfectIteration i root = true
                        /\ Iteration.is_Vectorized i = false)
              (take k (drop 1 candidates)).
Proof.
  rewrite find_collapsable_group.
  set (group := if bool_decide _ then _ else _).
  assert (group `prefix_of` drop 1 candidates) as Hp.
  { unfold group. destruct (bool_decide _);
      [apply worthwhile_group_prefix|apply prefix_nil]. }
  assert (Forall (fun i => IsPerfectIteration i root = true
                           /\ Iteration.is_Vectorized i = false) group) as Hall.
  { unfold group. destruct (bool_decide _);
      [apply worthwhile_group_Forall|constructor]. }
  assert (group = take (length group) (drop 1 candidates)) as Hk.
  { destruct Hp as [tail ->]. by rewrite take_app_length. }
  exists (length group). rewrite <- Hk. split; [reflexivity|]. split; [|exact Hall].
  apply prefix_length in Hp. rewrite length_drop in Hp. exact Hp.
Qed.

End CollapsedGroup.

Section PartreeInvariants.
Context `{DevitoIR} (self : DeviceAwarePragmaParallelizer.t).

(** What the device-aware [_make_partree] returns, whenever it returns. *)
Lemma device_make_partree_shape (root : Iteration.t) (rest : list Iteration.t)
    (nthreads : option Symbol.t) r :
  DeviceAwarePragmaParallelizer._make_partree self (root :: rest) nthreads = Ok r ->
  (r = (root, None)
   /\ DeviceAwarePragmaParallelizer.par_disabled self = true
   /\ is_on_device (OfNode (Iteration.to_node root))
                   (DeviceAwarePragmaParallelizer.gpu_fit self) true = false)
  \/ exists collapsable prefix kw nt,
       PragmaParallelizer._find_collapsable (DeviceAwarePragmaParallelizer.base self)
         root (root :: rest) = Ok collapsable
       /\ ParallelIteration.ncollapse kw = (1 + length collapsable)%nat
       /\ r = (root,
               Some (ParallelTree prefix
                       (Iteration_ (Some kw) (Iteration.args root) (Iteration.nodes root))
                       nt,
                     ParallelTree prefix
                       (Iteration_ (Some kw) (Iteration.args root) (Iteration.nodes root))
                       nt
                     :: map Iteration.to_node collapsable)).
Proof.
  unfold DeviceAwarePragmaParallelizer._make_partree.
  destruct (is_on_device _ _ _) eqn:Hon.
  - rewrite find_collapsable_group. cbn [mbind Result_bind].
    intros [= <-]. right. eexists _, _, _, _.
    split; [reflexivity|]. split; [|reflexivity]. reflexivity.
  - destruct (DeviceAwarePragmaParallelizer.par_disabled self) eqn:Hd; simpl.
    + intros [= <-]. left. auto.
    + intros Hr. right.
      apply make_partree_shape in Hr as (collapsable & prefix & kw & nt & Hc & Hn & ->).
      eexists _, _, _, _. split; [exact Hc|]. split; [exact Hn|reflexivity].
Qed.

(** Whichever [_make_partree] returns a tree, it has this shape. *)
Lemma either_make_partree_shape (candidates : list Iteration.t)
    (nthreads : option Symbol.t) (root : Iteration.t) (partree : Node)
    (collapsed : list Node) :
  PragmaParallelizer._make_partree (DeviceAwarePragmaParallelizer.base self)
    candidates nthreads = Ok (root, Some (partree, collapsed))
  \/ DeviceAwarePragmaParallelizer._make_partree self candidates nthreads
     = Ok (root, Some (partree, collapsed)) ->
  exists rest collapsable prefix kw nt,
    candidates = root :: rest
    /\ PragmaParallelizer._find_collapsable (DeviceAwarePragmaParallelizer.base self)
         root (root :: rest) = Ok collapsable
    /\ ParallelIteration.ncollapse kw = (1 + length collapsable)%nat
    /\ partree = ParallelTree prefix
                   (Iteration_ (Some kw) (Iteration.args root) (Iteration.nodes root)) nt
    /\ collapsed = partree :: map Iteration.to_node collapsable.
Proof.
  intros Hr.
  destruct candidates as [|root0 rest]; [destruct Hr as [Hr|Hr]; discriminate|].
  destruct Hr as [Hr|Hr].
  - apply make_partree_shape in Hr
      as (collapsable & prefix & kw & nt & Hc & Hn & [= -> -> ->]).
    by eexists rest, collapsable, prefix, kw, (Some nt).
  - apply device_make_partree_shape in Hr as [(Hnone & _)|Hr]; [discriminate|].
    destruct Hr as (collapsable & prefix & kw & nt & Hc & Hn & [= -> -> ->]).
    by eexists rest, collapsable, prefix, kw, nt.
Qed.

(** X2: both [_make_partree] methods fail their assertion on an empty
    list of candidates. Whenever one of them returns a tree, the root
    returned is the first candidate, the tree is built over the arguments and
    the body of that loop, the list of collapsed loops starts with the tree
    itself and goes on with a run of the candidates below the root, and the
    collapse degree recorded in the tree is the length of that list. *)
Theorem make_partree_degree_is_length_of_collapsed (candidates : list Iteration.t)
    (nthreads : option Symbol.t) :
  (candidates = [] ->
   PragmaParallelizer._make_partree (DeviceAwarePragmaParallelizer.base self)
     candidates nthreads = Raise AssertionError
   /\ DeviceAwarePragmaParallelizer._make_partree self candidates nthreads
      = Raise AssertionError)
  /\ (forall root partree collapsed,
        PragmaParallelizer._make_partree (DeviceAwarePragmaParallelizer.base self)
          candidates nthreads = Ok (root, Some (partree, collapsed))
        \/ DeviceAwarePragmaParallelizer._make_partree self candidates nthreads
           = Ok (root, Some (partree, collapsed)) ->
        head candidates = Some root
        /\ (exists prefix kw nt,
              partree = ParallelTree prefix
                          (Iteration_ (Some kw) (Iteration.args root) (Iteration.nodes root))
                          nt)
        /\ (exists collapsable,
              collapsed = partree :: map Iteration.to_node collapsable
              /\ collapsable `prefix_of` drop 1 candidates)
        /\ ncollapsed partree = Ok (length collapsed)
        /\ (length collapsed <= length candidates)%nat).
Proof.
  split; [intros ->; split; reflexivity|].
  intros root partree collapsed Hr.
  apply either_make_partree_shape in Hr
    as (rest & collapsable & prefix & kw & nt & -> & Hc & Hn & -> & ->).
  apply find_collapsable_prefix in Hc.
  split; [reflexivity|]. split; [eauto|]. split; [eauto|].
  simpl. rewrite length_map, Hn. split; [reflexivity|].
  apply prefix_length in Hc. simpl in Hc. rewrite drop_0 in Hc. lia.
Qed.

(** X3: below the core threshold nothing is collapsed: whichever
    [_make_partree] builds the tree, for an affine nest or not, on the host
    or on the device, its collapse degree is one and the tree is the only
    entry of the list of collapsed loops. *)
Theorem below_core_threshold_nothing_is_collapsed (candidates : list Iteration.t)
    (nthreads : option Symbol.t) (root : Iteration.t) (partree : Node)
    (collapsed : list Node) :
  PragmaParallelizer.ncores (DeviceAwarePragmaParallelizer.base self)
  < PragmaParallelizer.collapse_ncores (DeviceAwarePragmaParallelizer.base self) ->
  PragmaParallelizer._make_partree (DeviceAwarePragmaParallelizer.base self)
    candidates nthreads = Ok (root, Some (partree, collapsed))
  \/ DeviceAwarePragmaParallelizer._make_partree self candidates nthreads
     = Ok (root, Some (partree, collapsed)) ->
  collapsed = [partree] /\ ncollapsed partree = Ok 1%nat.
Proof.
  intros Hcores Hr.
  apply either_make_partree_shape in Hr
    as (rest & collapsable & prefix & kw & nt & -> & Hc & Hn & -> & ->).
  rewrite find_collapsable_group in Hc.
  rewrite bool_decide_eq_false_2 in Hc by lia. injection Hc as <-.
  simpl. rewrite Hn. auto.
Qed.

End PartreeInvariants.

Section AffineNests.
Context `{DevitoIR} (self : PragmaParallelizer.t).

(** X4: a nest all of whose candidates are affine never fails and gets no
    prologue and no chunk size. Its schedule is dynamic when the operation
    counts of the expression bundles under the root sum up to the
    par-dynamic-work threshold or more, static otherwise. Without a thread
    count supplied the tree runs on [nthreads] and the loop is not marked
    parallel; with one supplied the loop is marked parallel and carries
    that thread count. *)
Theorem affine_nest_schedule (root : Iteration.t) (rest : list Iteration.t) :
  forallb Iteration.is_Affine (root :: rest) = true ->
  exists collapsable schedule,
    PragmaParallelizer._find_collapsable self root (root :: rest) = Ok collapsable
    /\ schedule
       = (if bool_decide
               (foldr Z.add 0
                  (omap as_ExpressionBundle_ops
                     (FindNodes ExpressionBundle_ (Iteration.to_node root)))
                >= PragmaParallelizer.dynamic_work self)
          then "dynamic" else "static")
    /\ PragmaParallelizer._make_partree self (root :: rest) None
       = Ok (root,
             Some (ParallelTree []
                     (Iteration_
                        (Some (PragmaParallelizer.with_schedule
                                 (PragmaParallelizer.kwargs0 (1 + length collapsable))
                                 schedule))
                        (Iteration.args root) (Iteration.nodes root))
                     (Some (PragmaParallelizer.nthreads self)),
                   ParallelTree []
                     (Iteration_
                        (Some (PragmaParallelizer.with_schedule
                                 (PragmaParallelizer.kwargs0 (1 + length collapsable))
                                 schedule))
                        (Iteration.args root) (Iteration.nodes root))
                     (Some (PragmaParallelizer.nthreads self))
                   :: map Iteration.to_node collapsable))
    /\ forall nthreads,
         PragmaParallelizer._make_partree self (root :: rest) (Some nthreads)
         = Ok (root,
               Some (ParallelTree []
                       (Iteration_
                          (Some (PragmaParallelizer.with_parallel_nthreads
                                   (PragmaParallelizer.with_schedule
                                      (PragmaParallelizer.kwargs0 (1 + length collapsable))
                                      schedule)
                                   nthreads))
                          (Iteration.args root) (Iteration.nodes root))
                       (Some nthreads),
                     ParallelTree []
                       (Iteration_
                          (Some (PragmaParallelizer.with_parallel_nthreads
                                   (PragmaParallelizer.with_schedule
                                      (PragmaParallelizer.kwargs0 (1 + length collapsable))
                                      schedule)
                                   nthreads))
                          (Iteration.args root) (Iteration.nodes root))
                       (Some nthreads)
                     :: map Iteration.to_node collapsable)).
Proof.
  intros Haffine. eexists _, _.
  split; [apply find_collapsable_group|]. split; [reflexivity|].
  unfold PragmaParallelizer._make_partree. rewrite find_collapsable_group.
  cbn [mbind Result_bind]. rewrite Haffine. split; [reflexivity|].
  intros nthreads. reflexivity.
Qed.

End AffineNests.

(** ** Substitution maps *)

Lemma map_id_Forall {A : Type} (f : A -> A) (l : list A) :
  Forall (fun x => f x = x) l -> map f l = l.
Proof. induction 1; simpl; congruence. Qed.

Lemma map_ext_Forall {A B : Type} (f g : A -> B) (l : list A) :
  Forall (fun x => f x = g x) l -> map f l = map g l.
Proof. induction 1; simpl; congruence. Qed.

(** The empty substitution map rewrites nothing. *)
Lemma Transformer_nil (o : Node) : Transformer [] o = o.
Proof.
  induction o using Node_nested_ind; simpl; rewrite ?map_id_Forall by assumption;
    congruence.
Qed.

(** A map that sends each key of [l] to its image under [f]. *)
Lemma dict_get_images (f : Node -> Node) (l : list Node) (o : Node) :
  dict_get (map (fun i => (i, f i)) l) o = if decide (o ∈ l) then Some (f o) else None.
Proof.
  induction l as [|k l IH]; cbn [map dict_get fst snd].
  - destruct (decide (o ∈ [])) as [Hin|_]; [by apply elem_of_nil in Hin|reflexivity].
  - destruct (decide (k = o)) as [->|Hne].
    + destruct (decide (o ∈ o :: l)) as [_|Hnin]; [reflexivity|].
      exfalso. apply Hnin, list_elem_of_here.
    + rewrite IH. destruct (decide (o ∈ l)) as [Hin|Hnin].
      * destruct (decide (o ∈ k :: l)) as [_|Hnin]; [reflexivity|].
        exfalso. by apply Hnin, list_elem_of_further.
      * destruct (decide (o ∈ k :: l)) as [Hin|_]; [|reflexivity].
        apply elem_of_cons in Hin as [->|Hin]; [done|by destruct Hnin].
Qed.

Lemma FindNodes_isinstance (c : NodeClass) (o x : Node) :
  x ∈ FindNodes c o -> isinstance x c = true.
Proof.
  revert x. induction o using Node_nested_ind; intros x; cbn [FindNodes];
    rewrite elem_of_app; intros [Hx|Hx];
    try (destruct (isinstance _ c) eqn:Hc;
         [apply list_elem_of_singleton in Hx; by subst|by apply elem_of_nil in Hx]);
    try (by apply elem_of_nil in Hx);
    try (apply elem_of_app in Hx as [Hx|Hx]; [|by auto]);
    apply list_elem_of_In, in_flat_map in Hx as (ch & Hch & Hx);
    apply list_elem_of_In in Hch, Hx;
    match goal with
    | HF : Forall _ ?l, Hch : ch ∈ ?l |- _ =>
        rewrite Forall_forall in HF; by apply (HF ch Hch)
    end.
Qed.

(** ** The pass as a whole *)

Section WholePass.
Context `{DevitoIR} (self : PragmaParallelizer.t).

Lemma make_parallel_loop_no_candidates (m : Methods) (trees : list (list Iteration.t))
    mapper st :
  (forall tree, tree ∈ trees -> filter_iterations tree PragmaParallelizer.key = []) ->
  PragmaParallelizer._make_parallel_loop m trees mapper st = Ok (mapper, st).
Proof.
  induction trees as [|tree trees IH]; intros Hnone; [reflexivity|].
  rewrite make_parallel_loop_cons, (Hnone tree) by apply list_elem_of_here.
  apply IH. intros t Ht. apply Hnone. by apply list_elem_of_further.
Qed.

(** X5: when no iteration tree of the IET holds a parallelizable loop,
    the pass, under any specializer, returns the IET as it is and draws no
    name; the arguments it reports are the thread-count symbols and the
    dereferenced arrays already in the IET, and the include is the header of
    the dialect. Even then a dialect without a header makes the pass fail
    with [NotImplementedError]. *)
Theorem pass_without_candidates_keeps_the_tree (m : Methods) (iet : Node) (names : nat) :
  (forall tree, tree ∈ retrieve_iteration_tree iet ->
                filter_iterations tree PragmaParallelizer.key = []) ->
  PragmaParallelizer._make_parallel self m iet names
  = match PragmaParallelizer.lang self !! "header" with
    | Some header =>
        Ok (iet,
            (map ArgSymbol (List.filter isinstance_NThreadsMixin (FindSymbols iet))
             ++ flat_map PragmaParallelizer.dereference_args (FindNodes Dereference_ iet),
             [header]),
            names)
    | None => Raise (NotImplementedError "Must implement `lang[header]`")
    end.
Proof.
  intros Hnone. unfold PragmaParallelizer._make_parallel.
  rewrite (make_parallel_loop_no_candidates m _ _ _ Hnone).
  cbn [mbind Result_bind]. rewrite Transformer_nil.
  unfold __getitem__. destruct (PragmaParallelizer.lang self !! "header"); reflexivity.
Qed.

(** *** The host pass cannot fail *)

(** With the atomic construct defined, the map of the atomic branch sends
    every increment to the same expression with that construct as pragma. *)
Lemma atomic_mapper_Ok (exprs : list Expression.t) (b : Builder) :
  PragmaParallelizer.lang self !! "atomic" = Some b ->
  mapM (fun i => a ← __getitem__ (PragmaParallelizer.lang self) "atomic";
                 Ok (Expression_ i, Expression_ (Expression._rebuild_pragmas i a)))
       exprs
  = Ok (map (fun i => (Expression_ i, Expression_ (Expression._rebuild_pragmas i b)))
            exprs).
Proof.
  intros Hb. induction exprs as [|i exprs IH]; [reflexivity|].
  cbn [mapM map]. rewrite IH. unfold __getitem__. rewrite Hb. reflexivity.
Qed.

Lemma make_reductions_Ok (prefix : list Node) (kw : ParallelIteration.kwargs)
    (a : IterationArgs.t) (nodes : list Node) (nthreads : option Symbol.t)
    (collapsed : list Node) (cargs : list IterationArgs.t) :
  mapM loop_args collapsed = Ok cargs ->
  is_Some (PragmaParallelizer.lang self !! "atomic") ->
  exists r,
    PragmaParallelizer._make_reductions self
      (ParallelTree prefix (Iteration_ (Some kw) a nodes) nthreads) collapsed = Ok r.
Proof.
  intros Hc [b Hb]. unfold PragmaParallelizer._make_reductions.
  rewrite (anyM_loop_args _ _ _ Hc). cbn [mbind Result_bind].
  destruct (existsb _ cargs); [|simpl; eauto].
  change (negb true) with false. cbv iota.
  rewrite (allM_loop_args _ _ _ Hc). cbn [mbind Result_bind].
  destruct (_ || _).
  - cbn [root mbind Result_bind PragmaParallelizer._rebuild_reduction]. eauto.
  - rewrite (atomic_mapper_Ok _ b Hb). cbn [mbind Result_bind]. eauto.
Qed.

(** Threading the prodders keeps a unit a tree with the same thread count. *)
Lemma make_threaded_prodders_shape (prefix : list Node) (body : Node)
    (nthreads : option Symbol.t) :
  exists prefix' body',
    PragmaParallelizer._make_threaded_prodders (ParallelTree prefix body nthreads)
    = Ok (ParallelTree prefix' body' nthreads).
Proof.
  unfold PragmaParallelizer._make_threaded_prodders.
  rewrite Transformer_unfold, dict_get_images.
  destruct (decide _) as [Hin|_]; [|eauto].
  apply FindNodes_isinstance in Hin. discriminate.
Qed.

Lemma make_parregion_Ok (prefix : list Node) (body : Node) (nthreads : option Symbol.t) st :
  is_Some (PragmaParallelizer.lang self !! "thread-num") ->
  exists r,
    PragmaParallelizer._make_parregion self (ParallelTree prefix body nthreads) st = Ok r.
Proof.
  intros [b Hb]. unfold PragmaParallelizer._make_parregion.
  destruct (PragmaParallelizer.heap_globals_loop self _ st []) as [[|d derefs] st'].
  - simpl. eauto.
  - unfold PragmaParallelizer._make_tid, __getitem__. rewrite Hb. simpl. eauto.
Qed.

Lemma make_parallel_loop_Ok (trees : list (list Iteration.t)) :
  PragmaParallelizer.nhyperthreads self <= PragmaParallelizer.nested self ->
  is_Some (PragmaParallelizer.lang self !! "atomic") ->
  is_Some (PragmaParallelizer.lang self !! "thread-num") ->
  forall mapper st,
    exists r,
      PragmaParallelizer._make_parallel_loop (PragmaParallelizer.methods self)
        trees mapper st = Ok r.
Proof.
  intros Hnested Hatomic Htid.
  induction trees as [|tree trees IH]; intros mapper st; [by eexists|].
  rewrite make_parallel_loop_cons.
  destruct (filter_iterations tree PragmaParallelizer.key) as [|root rest]; [apply IH|].
  cbn [m_make_partree m_make_nested_partree m_make_reductions m_make_threaded_prodders
       m_make_parregion m_make_guard PragmaParallelizer.methods].
  destruct (make_partree_None_Ok self root rest) as [r Hr]. rewrite Hr.
  apply make_partree_shape in Hr as (collapsable & prefix & kw & nt & _ & _ & ->).
  cbn [mbind Result_bind].
  destruct (dict_in _ mapper); [apply IH|].
  unfold PragmaParallelizer._make_nested_partree.
  rewrite bool_decide_eq_true_2 by exact Hnested. cbn [mbind Result_bind].
  pose proof (mapM_loop_args_collapsed prefix
                {| Iteration.kw := Some kw; Iteration.args := Iteration.args root;
                   Iteration.nodes := Iteration.nodes root |}
                (Some nt) collapsable) as Hc.
  change (Iteration.to_node
            {| Iteration.kw := Some kw; Iteration.args := Iteration.args root;
               Iteration.nodes := Iteration.nodes root |})
    with (Iteration_ (Some kw) (Iteration.args root) (Iteration.nodes root)) in Hc.
  destruct (make_reductions_Ok prefix kw (Iteration.args root) (Iteration.nodes root)
              (Some nt) _ _ Hc Hatomic) as [reduced Hred].
  rewrite Hred. cbn [mbind Result_bind].
  apply make_reductions_shape in Hred as (prefix' & kw' & nodes' & ->).
  destruct (make_threaded_prodders_shape prefix'
              (Iteration_ (Some kw') (Iteration.args root) nodes') (Some nt))
    as (prefix'' & body'' & ->).
  cbn [mbind Result_bind].
  destruct (make_parregion_Ok prefix'' body'' (Some nt) st Htid) as [[region st'] ->].
  cbn [mbind Result_bind].
  rewrite (make_guard_cases _ _ _ Hc). cbn [mbind Result_bind]. apply IH.
Qed.

(** X6: on a platform whose threads per core do not exceed the par-nested
    threshold, with a dialect that defines the header, the atomic construct
    and the thread index, the host pass returns on every IET: no assertion
    fails, no attribute is missing and no construct is found undefined. The
    include it reports is the header of the dialect. *)
Theorem host_pass_returns (iet : Node) (names : nat) (header : Builder) :
  PragmaParallelizer.nhyperthreads self <= PragmaParallelizer.nested self ->
  PragmaParallelizer.lang self !! "header" = Some header ->
  is_Some (PragmaParallelizer.lang self !! "atomic") ->
  is_Some (PragmaParallelizer.lang self !! "thread-num") ->
  exists iet' args names',
    PragmaParallelizer.make_parallel self iet names = Ok (iet', (args, [header]), names').
Proof.
  intros Hnested Hheader Hatomic Htid.
  unfold PragmaParallelizer.make_parallel, PragmaParallelizer._make_parallel.
  destruct (make_parallel_loop_Ok (retrieve_iteration_tree iet) Hnested Hatomic Htid
              [] (∅, names)) as [[mapper [parrays names']] ->].
  cbn [mbind Result_bind]. unfold __getitem__. rewrite Hheader.
  cbn [mbind Result_bind]. eauto.
Qed.

End WholePass.

Section DevicePass.
Context `{DevitoIR} (self : DeviceAwarePragmaParallelizer.t).

(** X7: under the device-aware specializer with par-disabled set, a nest
    whose root writes a function that is off the device is given no tree,
    and the pass moves on to the next nest without touching the substitution
    map or the pointer arrays; with par-disabled unset the nest is handed to
    the host [_make_partree]. *)
Theorem nest_off_device_is_skipped_or_left_to_host (tree : list Iteration.t)
    (trees : list (list Iteration.t)) (root : Iteration.t) (rest : list Iteration.t)
    (mapper : NodeDict) (st : gmap Function.t PointerArray.t * nat) :
  filter_iterations tree PragmaParallelizer.key = root :: rest ->
  is_on_device (OfNode (Iteration.to_node root))
               (DeviceAwarePragmaParallelizer.gpu_fit self) true = false ->
  (DeviceAwarePragmaParallelizer.par_disabled self = true ->
   (forall nthreads,
      DeviceAwarePragmaParallelizer._make_partree self (root :: rest) nthreads
      = Ok (root, None))
   /\ PragmaParallelizer._make_parallel_loop (DeviceAwarePragmaParallelizer.methods self)
        (tree :: trees) mapper st
      = PragmaParallelizer._make_parallel_loop (DeviceAwarePragmaParallelizer.methods self)
          trees mapper st)
  /\ (DeviceAwarePragmaParallelizer.par_disabled self = false ->
      forall nthreads,
        DeviceAwarePragmaParallelizer._make_partree self (root :: rest) nthreads
        = PragmaParallelizer._make_partree (DeviceAwarePragmaParallelizer.base self)
            (root :: rest) nthreads).
Proof.
  intros Hcand Hoff. split; intros Hd.
  - assert (forall nthreads,
              DeviceAwarePragmaParallelizer._make_partree self (root :: rest) nthreads
              = Ok (root, None)) as Hnone.
    { intros nthreads. unfold DeviceAwarePragmaParallelizer._make_partree.
      rewrite Hoff, Hd. reflexivity. }
    split; [exact Hnone|].
    rewrite make_parallel_loop_cons, Hcand.
    cbn [m_make_partree DeviceAwarePragmaParallelizer.methods].
    rewrite Hnone. reflexivity.
  - intros nthreads. unfold DeviceAwarePragmaParallelizer._make_partree.
    rewrite Hoff, Hd. reflexivity.
Qed.

(** X8: the device-aware [_make_partree] offloads a nest exactly when all
    the functions written under its root are on the device. An offloaded
    nest never fails, affine or not, with or without a thread count: its
    tree has no prologue, runs on the thread count it was given, and its
    loop carries gpu-fit and the collapse degree and nothing else.
    Conversely a tree whose loop carries gpu-fit was built for a nest that
    is on the device. *)
Theorem nest_is_offloaded_iff_on_device (root : Iteration.t) (rest : list Iteration.t)
    (nthreads : option Symbol.t) :
  (is_on_device (OfNode (Iteration.to_node root))
                (DeviceAwarePragmaParallelizer.gpu_fit self) true = true ->
   exists collapsable,
     PragmaParallelizer._find_collapsable (DeviceAwarePragmaParallelizer.base self)
       root (root :: rest) = Ok collapsable
     /\ DeviceAwarePragmaParallelizer._make_partree self (root :: rest) nthreads
        = Ok (root,
              Some (ParallelTree []
                      (Iteration_
                         (Some (PragmaParallelizer.with_gpu_fit
                                  (PragmaParallelizer.kwargs0 (1 + length collapsable))
                                  (DeviceAwarePragmaParallelizer.gpu_fit self)))
                         (Iteration.args root) (Iteration.nodes root))
                      nthreads,
                    ParallelTree []
                      (Iteration_
                         (Some (PragmaParallelizer.with_gpu_fit
                                  (PragmaParallelizer.kwargs0 (1 + length collapsable))
                                  (DeviceAwarePragmaParallelizer.gpu_fit self)))
                         (Iteration.args root) (Iteration.nodes root))
                      nthreads
                    :: map Iteration.to_node collapsable)))
  /\ (forall prefix kw a nodes nt collapsed,
        DeviceAwarePragmaParallelizer._make_partree self (root :: rest) nthreads
        = Ok (root, Some (ParallelTree prefix (Iteration_ (Some kw) a nodes) nt, collapsed)) ->
        ParallelIteration.gpu_fit kw <> None ->
        is_on_device (OfNode (Iteration.to_node root))
                     (DeviceAwarePragmaParallelizer.gpu_fit self) true = true).
Proof.
  split.
  - intros Hon. eexists. split; [apply find_collapsable_group|].
    unfold DeviceAwarePragmaParallelizer._make_partree.
    rewrite Hon, find_collapsable_group. reflexivity.
  - intros prefix kw a nodes nt collapsed Hr Hfit.
    destruct (is_on_device _ _ _) eqn:Hon; [reflexivity|exfalso].
    unfold DeviceAwarePragmaParallelizer._make_partree in Hr. rewrite Hon in Hr.
    destruct (DeviceAwarePragmaParallelizer.par_disabled self); [discriminate|].
    cbn [negb] in Hr. cbv iota in Hr.
    unfold PragmaParallelizer._make_partree in Hr.
    rewrite find_collapsable_group in Hr. cbn [mbind Result_bind] in Hr.
    destruct (forallb Iteration.is_Affine (root :: rest)).
    + destruct nthreads as [n|]; cbn [mbind Result_bind] in Hr;
        injection Hr as _ <- _ _ _ _; by apply Hfit.
    + destruct nthreads as [n|]; [discriminate|]. cbn [assert mbind Result_bind] in Hr.
      injection Hr as _ <- _ _ _ _. by apply Hfit.
Qed.

Lemma device_loop_keeps_state (trees : list (list Iteration.t)) :
  forall mapper st mapper' st',
    PragmaParallelizer._make_parallel_loop (DeviceAwarePragmaParallelizer.methods self)
      trees mapper st = Ok (mapper', st') ->
    st' = st
    /\ forall k v, (k, v) ∈ mapper' -> (k, v) ∈ mapper \/ is_unit v.
Proof.
  induction trees as [|tree trees IH]; intros mapper st mapper' st' Hl.
  - injection Hl as <- <-. auto.
  - rewrite make_parallel_loop_cons in Hl.
    destruct (filter_iterations tree PragmaParallelizer.key) as [|root rest];
      [by apply IH|].
    cbn [m_make_partree m_make_nested_partree m_make_reductions m_make_threaded_prodders
         m_make_parregion m_make_guard DeviceAwarePragmaParallelizer.methods] in Hl.
    inv_bind Hl.
    apply device_make_partree_shape in Ha
      as [(-> & _)|(collapsable & prefix & kw & nt & _ & _ & ->)]; [by apply IH|].
    destruct (dict_in _ mapper); [by apply IH|].
    destruct (device_overrides_are_noops self prefix kw (Iteration.args root)
                (Iteration.nodes root) nt) as (Hnested & _).
    rewrite Hnested in Hl. cbn [mbind Result_bind] in Hl.
    inv_bind Hl.
    apply make_reductions_shape in Ha as (prefix' & kw' & nodes' & ->).
    destruct (device_overrides_are_noops self prefix' kw' (Iteration.args root)
                nodes' nt) as (_ & Hprod & Hregion & Hguard).
    rewrite Hprod in Hl. cbn [mbind Result_bind] in Hl.
    rewrite Hregion in Hl. cbn [mbind Result_bind] in Hl.
    rewrite Hguard in Hl. cbn [mbind Result_bind] in Hl.
    apply IH in Hl as [-> Hm]. split; [reflexivity|].
    intros k v Hkv. apply Hm in Hkv as [Hkv|Hkv]; [|by right].
    unfold dict_set in Hkv. apply elem_of_cons in Hkv as [[= -> ->]|Hkv]; [|by left].
    right. unfold is_unit. eauto 10.
Qed.

(** X9: the pass of the device-aware specializer creates no parallel
    region, no guard and no pointer array. Whenever it returns, the name
    counter of the registry is where it was, the map of pointer arrays is
    still empty, and every image in the substitution map is a bare tree over
    a loop built by [self._Iteration]; this holds for the nests offloaded and
    for the nests handed to the host [_make_partree] alike. *)
Theorem device_pass_builds_bare_trees (iet iet' : Node) (names names' : nat)
    (meta : list Arg * list Builder) :
  DeviceAwarePragmaParallelizer.make_parallel self iet names = Ok (iet', meta, names') ->
  names' = names
  /\ exists mapper,
       PragmaParallelizer._make_parallel_loop (DeviceAwarePragmaParallelizer.methods self)
         (retrieve_iteration_tree iet) [] (∅, names)
       = Ok (mapper, (∅, names))
       /\ iet' = Transformer mapper iet
       /\ forall k v, (k, v) ∈ mapper -> is_unit v.
Proof.
  unfold DeviceAwarePragmaParallelizer.make_parallel, PragmaParallelizer._make_parallel.
  intros Hp. inv_bind Hp. destruct a as [mapper [parrays names1]].
  inv_bind Hp. injection Hp as <- _ <-.
  pose proof (device_loop_keeps_state _ _ _ _ _ Ha) as [[= -> ->] Hm].
  split; [reflexivity|]. exists mapper. split; [exact Ha|]. split; [reflexivity|].
  intros k v Hkv. apply Hm in Hkv as [Hkv|Hkv]; [by apply elem_of_nil in Hkv|exact Hkv].
Qed.

End DevicePass.

(** ** Nested parallelism *)

Section Nested.
Context `{DevitoIR} (self : PragmaParallelizer.t).

Lemma nested_candidates_run (outer : list Iteration.t) (inner : list Iteration.t) :
  forall candidates,
    candidates <> [] ->
    exists run rest,
      PragmaParallelizer.nested_candidates outer inner candidates = candidates ++ run
      /\ inner = run ++ rest
      /\ Forall (fun i => within_block outer i = true) run
      /\ match rest with
         | [] => True
         | i :: _ => within_block outer i = false
         end.
Proof.
  induction inner as [|i inner IH]; intros candidates Hne.
  - exists [], []. simpl. rewrite app_nil_r. auto.
  - cbn [PragmaParallelizer.nested_candidates]. fold (within_block outer i).
    destruct (within_block outer i) eqn:Hi.
    + destruct (IH (candidates ++ [i])) as (run & rest & -> & -> & Hrun & Hrest).
      { by destruct candidates. }
      exists (i :: run), rest. rewrite <- app_assoc. simpl. auto.
    + destruct candidates as [|c candidates]; [done|].
      exists [], (i :: inner). simpl. rewrite app_nil_r. auto.
Qed.

(** X10: the candidates for nested parallelism in a tree are the first
    maximal run of consecutive inner loops that are parallel and iterate
    within a block of an outer loop: the loops skipped before the run all
    fail the test, every loop of the run passes it, and the run stops at the
    first loop after it that fails, whatever comes further in. *)
Theorem nested_candidates_first_run (outer inner : list Iteration.t) :
  exists skipped rest,
    inner = skipped ++ PragmaParallelizer.nested_candidates outer inner [] ++ rest
    /\ Forall (fun i => within_block outer i = false) skipped
    /\ Forall (fun i => within_block outer i = true)
              (PragmaParallelizer.nested_candidates outer inner [])
    /\ match rest with
       | [] => True
       | i :: _ => within_block outer i = false
                   /\ PragmaParallelizer.nested_candidates outer inner [] <> []
       end.
Proof.
  induction inner as [|i inner IH].
  - exists [], []. simpl. auto.
  - cbn [PragmaParallelizer.nested_candidates]. fold (within_block outer i).
    destruct (within_block outer i) eqn:Hi.
    + change ([] ++ [i]) with [i].
      destruct (nested_candidates_run outer inner [i]) as (run & rest & -> & -> & Hrun & Hrest);
        [done|].
      exists [], rest. simpl. split; [reflexivity|]. split; [constructor|].
      split; [by constructor|]. destruct rest; [exact I|]. split; [exact Hrest|done].
    + destruct IH as (skipped & rest & Heq & Hskipped & Hrun & Hrest).
      exists (i :: skipped), rest. simpl. split; [by rewrite <- Heq|].
      split; [by constructor|]. auto.
Qed.

(** With a thread count supplied, the host [_make_partree] returns only
    for affine nests, and what it returns is a parallel loop on these
    threads, without prologue. *)
Lemma make_partree_supplied (root : Iteration.t) (rest : list Iteration.t)
    (nt : Symbol.t) r :
  PragmaParallelizer._make_partree self (root :: rest) (Some nt) = Ok r ->
  forallb Iteration.is_Affine (root :: rest) = true
  /\ exists collapsable schedule,
       r = (root,
            Some (ParallelTree []
                    (Iteration_
                       (Some (PragmaParallelizer.with_parallel_nthreads
                                (PragmaParallelizer.with_schedule
                                   (PragmaParallelizer.kwargs0 (1 + length collapsable))
                                   schedule) nt))
                       (Iteration.args root) (Iteration.nodes root))
                    (Some nt),
                  ParallelTree []
                    (Iteration_
                       (Some (PragmaParallelizer.with_parallel_nthreads
                                (PragmaParallelizer.with_schedule
                                   (PragmaParallelizer.kwargs0 (1 + length collapsable))
                                   schedule) nt))
                       (Iteration.args root) (Iteration.nodes root))
                    (Some nt)
                  :: map Iteration.to_node collapsable)).
Proof.
  unfold PragmaParallelizer._make_partree. rewrite find_collapsable_group.
  cbn [mbind Result_bind].
  destruct (forallb Iteration.is_Affine (root :: rest)); [|discriminate].
  cbn [mbind Result_bind]. intros [= <-]. split; [reflexivity|]. by eexists _, _.
Qed.

Lemma make_nested_partree_loop_entries (partree : Node) (trees : list (list Iteration.t)) :
  forall mapper mapper',
    PragmaParallelizer._make_nested_partree_loop self
      (PragmaParallelizer._make_partree self) partree trees mapper = Ok mapper' ->
    forall k v, (k, v) ∈ mapper' -> (k, v) ∈ mapper \/ nested_entry self partree trees k v.
Proof.
  induction trees as [|tree trees IH]; intros mapper mapper' Hl k v Hkv.
  - injection Hl as <-. by left.
  - cbn [PragmaParallelizer._make_nested_partree_loop] in Hl. inv_bind Hl.
    assert (forall k v, nested_entry self partree trees k v ->
                        nested_entry self partree (tree :: trees) k v) as Hweaken.
    { intros k0 v0 (t & nc & subroot & rest & kw & Ht & Hrest).
      exists t, nc, subroot, rest, kw. split; [by apply list_elem_of_further|exact Hrest]. }
    destruct (PragmaParallelizer.nested_candidates (take a tree) (drop a tree) [])
      as [|subroot rest] eqn:Hcand.
    + destruct (IH _ _ Hl k v Hkv) as [Hin|Hent]; [by left|right; by apply Hweaken].
    + inv_bind Hl. apply make_partree_supplied in Ha0 as (Haffine & collapsable & schedule & ->).
      destruct (IH _ _ Hl k v Hkv) as [Hin|Hent]; [|right; by apply Hweaken].
      unfold dict_set in Hin. apply elem_of_cons in Hin as [[= -> ->]|Hin]; [|by left].
      right. exists tree, a, subroot, rest.
      eexists. split; [apply list_elem_of_here|]. split; [exact Ha|].
      split; [exact Hcand|]. split; [exact Haffine|]. split; [reflexivity|].
      split; [reflexivity|]. simpl. eauto 10.
Qed.

(** X11: the host [_make_nested_partree] returns the unit untouched when
    the threads per core do not exceed the par-nested threshold. Otherwise,
    whenever it returns, every sub-nest it rewrites is rooted at the first
    nested candidate of an iteration tree of the unit, all the candidates of
    that tree are affine, and the image is a tree without prologue over a
    loop marked parallel, with a schedule and no chunk size, running on
    [nthreads_nested]. *)
Theorem nested_partrees_are_affine_parallel_loops (partree : Node) :
  (PragmaParallelizer.nhyperthreads self <= PragmaParallelizer.nested self ->
   PragmaParallelizer._make_nested_partree self (PragmaParallelizer._make_partree self)
     partree = Ok partree)
  /\ (PragmaParallelizer.nhyperthreads self > PragmaParallelizer.nested self ->
      forall r,
        PragmaParallelizer._make_nested_partree self (PragmaParallelizer._make_partree self)
          partree = Ok r ->
        exists mapper,
          r = Transformer mapper partree
          /\ forall k v, (k, v) ∈ mapper ->
                         nested_entry self partree (retrieve_iteration_tree partree) k v).
Proof.
  unfold PragmaParallelizer._make_nested_partree. split; intros Hh.
  - rewrite bool_decide_eq_true_2 by exact Hh. reflexivity.
  - rewrite bool_decide_eq_false_2 by lia. intros r Hr. inv_bind Hr.
    injection Hr as <-. exists a. split; [reflexivity|].
    intros k v Hkv.
    destruct (make_nested_partree_loop_entries _ _ _ _ Ha k v Hkv) as [Hin|Hent];
      [by apply elem_of_nil in Hin|exact Hent].
Qed.

End Nested.

(** ** Rewriting the expressions and the prodders of a unit *)

Lemma replace_nodes_unfold (sel : Node -> bool) (f : Node -> Node) (o : Node) :
  replace_nodes sel f o
  = if sel o then f o
    else match o with
         | ExpressionBundle ops body => ExpressionBundle ops (map (replace_nodes sel f) body)
         | Iteration_ kw a nodes => Iteration_ kw a (map (replace_nodes sel f) nodes)
         | ParallelTree prefix body nthreads =>
             ParallelTree (map (replace_nodes sel f) prefix) (replace_nodes sel f body)
                          nthreads
         | ParallelBlock body => ParallelBlock (map (replace_nodes sel f) body)
         | List_ header body footer => List_ header (map (replace_nodes sel f) body) footer
         | Conditional c body => Conditional c (map (replace_nodes sel f) body)
         | _ => o
         end.
Proof. destruct o; reflexivity. Qed.

Lemma FindNodes_self (c : NodeClass) (o : Node) :
  isinstance o c = true -> o ∈ FindNodes c o.
Proof.
  intros Hc. destruct o; cbn [FindNodes]; rewrite Hc; apply list_elem_of_here.
Qed.

Section ReplaceNodes.
Variables (c : NodeClass) (sel : Node -> bool) (f : Node -> Node) (l : list Node).
Hypothesis Hkeys : forall x, x ∈ l -> sel x = true.
Hypothesis Hclass : forall x, sel x = true -> isinstance x c = true.

Lemma map_rewritten_children (F G : Node -> Node) (body : list Node) :
  Forall (fun o => (forall x, x ∈ FindNodes c o -> sel x = true -> x ∈ l) -> F o = G o) body ->
  (forall x, x ∈ flat_map (FindNodes c) body -> sel x = true -> x ∈ l) ->
  map F body = map G body.
Proof.
  induction 1 as [|o body Ho _ IH]; intros Hall; [reflexivity|].
  simpl in *. f_equal.
  - apply Ho. intros x Hx. apply Hall, elem_of_app. by left.
  - apply IH. intros x Hx. apply Hall, elem_of_app. by right.
Qed.

(** A substitution map that sends every selected node of a tree, and
    nothing else, to its image under [f] rewrites the tree as
    [replace_nodes] does. *)
Lemma Transformer_replace_nodes (o : Node) :
  (forall x, x ∈ FindNodes c o -> sel x = true -> x ∈ l) ->
  Transformer (map (fun i => (i, f i)) l) o = replace_nodes sel f o.
Proof.
  induction o using Node_nested_ind; intros Hall;
    rewrite Transformer_unfold, replace_nodes_unfold, dict_get_images;
    (destruct (sel _) eqn:Hsel;
     [rewrite decide_True; [reflexivity|];
      apply Hall; [by apply FindNodes_self, Hclass|exact Hsel]
     |rewrite decide_False by (intros Hin; apply Hkeys in Hin; congruence)]);
    try reflexivity;
    cbn [FindNodes] in Hall;
    repeat match goal with
    | HF : Forall _ ?body |- context [map (Transformer _) ?body] =>
        rewrite (map_rewritten_children (Transformer (map (fun i => (i, f i)) l))
                   (replace_nodes sel f) body HF)
          by (intros x Hx; apply Hall; rewrite ?elem_of_app; auto)
    end;
    try reflexivity.
  f_equal. apply IHo. intros x Hx. apply Hall. rewrite !elem_of_app. auto.
Qed.

End ReplaceNodes.

Section UnitRewrites.
Context `{DevitoIR} (self : PragmaParallelizer.t).

(** X12: the host [_make_threaded_prodders] always returns, and the tree
    it returns is the unit with every prodder replaced by its threaded
    version and every other node in place; a unit that holds no prodder is
    returned as it is. *)
Theorem threaded_prodders_replace_every_prodder (partree : Node) :
  PragmaParallelizer._make_threaded_prodders partree
  = Ok (replace_nodes (fun o => isinstance o Prodder_) _Prodder partree)
  /\ (FindNodes Prodder_ partree = [] ->
      PragmaParallelizer._make_threaded_prodders partree = Ok partree).
Proof.
  unfold PragmaParallelizer._make_threaded_prodders. split.
  - f_equal. apply (Transformer_replace_nodes Prodder_); auto.
    intros x Hx. by apply FindNodes_isinstance in Hx.
  - intros ->. simpl. by rewrite Transformer_nil.
Qed.

Lemma increments_nodes (partree : Node) (x : Node) :
  x ∈ FindNodes Expression partree ->
  is_reduction_increment x = true ->
  x ∈ map Expression_ (increments partree).
Proof.
  intros Hx Hsel. destruct x as [e| | | | | | | | |]; try discriminate.
  apply list_elem_of_fmap. exists e. split; [reflexivity|].
  unfold increments. apply list_elem_of_In, filter_In. split; [|exact Hsel].
  apply list_elem_of_In, list_elem_of_omap. exists (Expression_ e). auto.
Qed.

Lemma increments_selected (partree : Node) (x : Node) :
  x ∈ map Expression_ (increments partree) -> is_reduction_increment x = true.
Proof.
  intros Hx. apply list_elem_of_fmap in Hx as (e & -> & He).
  unfold increments in He. apply list_elem_of_In, filter_In in He as [_ He]. exact He.
Qed.

(** X13: in a unit whose collapsed loops include an atomic candidate and a
    non-affine loop, and one of whose increments targets an indexed
    location, every increment of the unit, whatever its target, is rebuilt
    with the atomic construct as its pragma; every other node stays in
    place and the root loop keeps its keyword arguments, so no reduction set
    is attached. With no atomic construct in the dialect the rewrite fails
    with [NotImplementedError]. *)
Theorem nonaffine_indexed_increments_are_made_atomic (prefix : list Node)
    (kw : ParallelIteration.kwargs) (a : IterationArgs.t) (nodes : list Node)
    (nthreads : option Symbol.t) (collapsed : list Node)
    (cargs : list IterationArgs.t) :
  mapM loop_args collapsed = Ok cargs ->
  existsb IterationArgs.is_ParallelAtomic cargs = true ->
  forallb IterationArgs.is_Affine cargs = false ->
  (exists i, i ∈ increments (ParallelTree prefix (Iteration_ (Some kw) a nodes) nthreads)
             /\ is_Indexed (Expression.output i) = true) ->
  (forall b,
     PragmaParallelizer.lang self !! "atomic" = Some b ->
     PragmaParallelizer._make_reductions self
       (ParallelTree prefix (Iteration_ (Some kw) a nodes) nthreads) collapsed
     = Ok (ParallelTree
             (map (replace_nodes is_reduction_increment (made_atomic b)) prefix)
             (Iteration_ (Some kw) a
                (map (replace_nodes is_reduction_increment (made_atomic b)) nodes))
             nthreads))
  /\ (PragmaParallelizer.lang self !! "atomic" = None ->
      PragmaParallelizer._make_reductions self
        (ParallelTree prefix (Iteration_ (Some kw) a nodes) nthreads) collapsed
      = Raise (NotImplementedError "Must implement `lang[atomic]`")).
Proof.
  intros Hc Hatomic Haffine (i & Hi & Hindexed).
  set (partree := ParallelTree prefix (Iteration_ (Some kw) a nodes) nthreads) in *.
  assert (forallb (fun i => negb (is_Indexed i))
                  (map Expression.output (increments partree)) = false) as Hsome.
  { apply not_true_is_false. intros Hall. rewrite forallb_forall in Hall.
    specialize (Hall (Expression.output i)). rewrite Hindexed in Hall.
    assert (negb true = true); [|discriminate].
    apply Hall, in_map, list_elem_of_In, Hi. }
  unfold PragmaParallelizer._make_reductions.
  rewrite (anyM_loop_args _ _ _ Hc), Hatomic. cbn [mbind Result_bind negb].
  rewrite (allM_loop_args _ _ _ Hc), Haffine. cbn [mbind Result_bind].
  fold (increments partree). rewrite Hsome. cbn [orb].
  split.
  - intros b Hb. rewrite (atomic_mapper_Ok self _ b Hb). cbn [mbind Result_bind].
    f_equal.
    replace (map (fun i => (Expression_ i, Expression_ (Expression._rebuild_pragmas i b)))
                 (increments partree))
      with (map (fun o => (o, made_atomic b o)) (map Expression_ (increments partree)))
      by (rewrite map_map; reflexivity).
    rewrite (Transformer_replace_nodes Expression is_reduction_increment).
    + reflexivity.
    + apply increments_selected.
    + intros x Hx. by destruct x.
    + apply increments_nodes.
  - intros Hnone. destruct (increments partree) as [|e exprs];
      [by apply elem_of_nil in Hi|].
    cbn [mapM]. unfold __getitem__. rewrite Hnone. reflexivity.
Qed.

(** X14: in a unit whose collapsed loops are all affine and include an
    atomic candidate, the targets of all the increments, indexed ones
    included, become the reduction set of the root loop; no expression is
    rewritten and the dialect is not consulted. *)
Theorem affine_increments_are_reduced (prefix : list Node)
    (kw : ParallelIteration.kwargs) (a : IterationArgs.t) (nodes : list Node)
    (nthreads : option Symbol.t) (collapsed : list Node)
    (cargs : list IterationArgs.t) :
  mapM loop_args collapsed = Ok cargs ->
  existsb IterationArgs.is_ParallelAtomic cargs = true ->
  forallb IterationArgs.is_Affine cargs = true ->
  exists prefix',
    PragmaParallelizer._make_reductions self
      (ParallelTree prefix (Iteration_ (Some kw) a nodes) nthreads) collapsed
    = Ok (ParallelTree prefix'
            (Iteration_
               (Some (ParallelIteration._rebuild_reduction kw
                        (map Expression.output
                             (increments (ParallelTree prefix
                                            (Iteration_ (Some kw) a nodes) nthreads)))))
               a nodes)
            nthreads)
    /\ FindNodes Expression
         (ParallelTree prefix'
            (Iteration_
               (Some (ParallelIteration._rebuild_reduction kw
                        (map Expression.output
                             (increments (ParallelTree prefix
                                            (Iteration_ (Some kw) a nodes) nthreads)))))
               a nodes)
            nthreads)
       = FindNodes Expression (ParallelTree prefix (Iteration_ (Some kw) a nodes) nthreads).
Proof.
  intros Hc Hatomic Haffine.
  unfold PragmaParallelizer._make_reductions.
  rewrite (anyM_loop_args _ _ _ Hc), Hatomic. cbn [mbind Result_bind negb].
  rewrite (allM_loop_args _ _ _ Hc), Haffine. cbn [mbind Result_bind orb].
  fold (increments (ParallelTree prefix (Iteration_ (Some kw) a nodes) nthreads)).
  cbn [root mbind Result_bind PragmaParallelizer._rebuild_reduction].
  set (r := Iteration_ (Some kw) a nodes).
  set (r' := Iteration_ (Some _) a nodes).
  assert (forall k v, dict_get [(r, r')] k = Some v ->
                      FindNodes Expression v = FindNodes Expression k) as Hm.
  { intros k v. simpl. destruct (decide (r = k)) as [<-|]; [|discriminate].
    intros [= <-]. reflexivity. }
  exists (map (Transformer [(r, r')]) prefix).
  assert (Transformer [(r, r')] (ParallelTree prefix r nthreads)
          = ParallelTree (map (Transformer [(r, r')]) prefix) r' nthreads) as Ht.
  { rewrite Transformer_unfold. simpl.
    destruct (decide (r = ParallelTree prefix r nthreads)); [discriminate|].
    f_equal. fold r. destruct (decide (r = r)); [reflexivity|done]. }
  rewrite Ht. split; [reflexivity|].
  rewrite <- Ht. by apply FindNodes_Expression_rebuilt.
Qed.

End UnitRewrites.

(** ** Data movement: sections *)

Section DataMovement.
Context `{DevitoIR} (self : DeviceAwarePragmaParallelizer.t).

Lemma sections_of_full_mask (datasize : list SExpr) :
  map (fun ij => DeviceAwarePragmaParallelizer.section_of ij.1 ij.2)
      (zip (replicate (length datasize) FULL) datasize)
  = map (fun i => "[0:" +:+ str i +:+ "]") datasize.
Proof. induction datasize as [|j datasize IH]; simpl; [reflexivity|]. by rewrite IH. Qed.

Lemma make_sections_full (f : Function.t) :
  DeviceAwarePragmaParallelizer._make_sections_from_imask f None
  = Ok (DeviceAwarePragmaParallelizer.full_sections f).
Proof.
  unfold DeviceAwarePragmaParallelizer._make_sections_from_imask.
  rewrite bool_decide_eq_true_2 by apply length_replicate.
  cbn [assert mbind Result_bind]. rewrite sections_of_full_mask. reflexivity.
Qed.

(** X15: without a mask, and with a mask that asks for the full extent of
    every dimension, the sections are the full extents of the mapped data,
    the very sections that [_map_update] and [_map_release] always address;
    so the five directives that take a mask, called without one,
    [_map_update] and [_map_release] apply their constructs to the same name
    and sections. A release without a removal flag carries an empty
    condition. *)
Theorem unmasked_directives_address_full_extents (f : Function.t) :
  DeviceAwarePragmaParallelizer._make_sections_from_imask f None
  = Ok (DeviceAwarePragmaParallelizer.full_sections f)
  /\ DeviceAwarePragmaParallelizer._make_sections_from_imask f
       (Some (replicate (length (DeviceAwarePragmaParallelizer._map_data f)) FULL))
     = Ok (DeviceAwarePragmaParallelizer.full_sections f)
  /\ forall b,
       (DeviceAwarePragmaParallelizer.lang self !! "map-update" = Some b ->
        DeviceAwarePragmaParallelizer._map_update self f
        = Ok (Apply b [Function.name f; DeviceAwarePragmaParallelizer.full_sections f]))
       /\ (DeviceAwarePragmaParallelizer.lang self !! "map-enter-to" = Some b ->
           DeviceAwarePragmaParallelizer._map_to self f None
           = Ok (Apply b [Function.name f; DeviceAwarePragmaParallelizer.full_sections f]))
       /\ (DeviceAwarePragmaParallelizer.lang self !! "map-enter-alloc" = Some b ->
           DeviceAwarePragmaParallelizer._map_alloc self f None
           = Ok (Apply b [Function.name f; DeviceAwarePragmaParallelizer.full_sections f]))
       /\ (DeviceAwarePragmaParallelizer.lang self !! "map-update-host" = Some b ->
           DeviceAwarePragmaParallelizer._map_update_host self f None
           = Ok (Apply b [Function.name f; DeviceAwarePragmaParallelizer.full_sections f]))
       /\ (DeviceAwarePragmaParallelizer.lang self !! "map-update-device" = Some b ->
           DeviceAwarePragmaParallelizer._map_update_device self f None
           = Ok (Apply b [Function.name f; DeviceAwarePragmaParallelizer.full_sections f]))
       /\ (forall devicerm,
             DeviceAwarePragmaParallelizer.lang self !! "map-exit-delete" = Some b ->
             exists cond,
               DeviceAwarePragmaParallelizer._map_delete self f None devicerm
               = Ok (Apply b [Function.name f;
                              DeviceAwarePragmaParallelizer.full_sections f; cond]))
       /\ (forall devicerm,
             DeviceAwarePragmaParallelizer.lang self !! "map-release" = Some b ->
             exists cond,
               DeviceAwarePragmaParallelizer._map_release self f devicerm
               = Ok (Apply b [Function.name f;
                              DeviceAwarePragmaParallelizer.full_sections f; cond])
               /\ (devicerm = None -> cond = EmptyString)).
Proof.
  split; [apply make_sections_full|]. split.
  - unfold DeviceAwarePragmaParallelizer._make_sections_from_imask.
    rewrite bool_decide_eq_true_2 by apply length_replicate.
    cbn [assert mbind Result_bind]. rewrite sections_of_full_mask. reflexivity.
  - intros b.
    unfold DeviceAwarePragmaParallelizer._map_update, DeviceAwarePragmaParallelizer._map_to,
      DeviceAwarePragmaParallelizer._map_alloc,
      DeviceAwarePragmaParallelizer._map_update_host,
      DeviceAwarePragmaParallelizer._map_update_device,
      DeviceAwarePragmaParallelizer._map_delete,
      DeviceAwarePragmaParallelizer._map_release.
    rewrite make_sections_full. unfold __getitem__. cbn [mbind Result_bind].
    repeat split; try (intros ->; reflexivity).
    + intros devicerm ->. eexists. reflexivity.
    + intros devicerm ->. eexists. split; [reflexivity|]. by intros ->.
Qed.

(** X16: a mask with more or fewer entries than the data has mapped
    dimensions fails the assertion of [_make_sections_from_imask], and with
    it every directive that takes the mask, before the dialect is consulted;
    a mask with one entry per mapped dimension never fails it. *)
Theorem mask_of_wrong_length_fails_the_assertion (f : Function.t) (imask : list IMask)
    (devicerm : option Symbol.t) :
  (length imask <> length (DeviceAwarePragmaParallelizer._map_data f) ->
   DeviceAwarePragmaParallelizer._make_sections_from_imask f (Some imask)
   = Raise AssertionError
   /\ DeviceAwarePragmaParallelizer._map_to self f (Some imask) = Raise AssertionError
   /\ DeviceAwarePragmaParallelizer._map_alloc self f (Some imask) = Raise AssertionError
   /\ DeviceAwarePragmaParallelizer._map_update_host self f (Some imask)
      = Raise AssertionError
   /\ DeviceAwarePragmaParallelizer._map_update_device self f (Some imask)
      = Raise AssertionError
   /\ DeviceAwarePragmaParallelizer._map_delete self f (Some imask) devicerm
      = Raise AssertionError)
  /\ (length imask = length (DeviceAwarePragmaParallelizer._map_data f) ->
      DeviceAwarePragmaParallelizer._make_sections_from_imask f (Some imask)
      = Ok (String.concat ""
              (map (fun ij => DeviceAwarePragmaParallelizer.section_of ij.1 ij.2)
                   (zip imask (DeviceAwarePragmaParallelizer._map_data f))))).
Proof.
  split; intros Hlen.
  - assert (DeviceAwarePragmaParallelizer._make_sections_from_imask f (Some imask)
            = Raise AssertionError) as Hs.
    { unfold DeviceAwarePragmaParallelizer._make_sections_from_imask.
      rewrite bool_decide_eq_false_2 by exact Hlen. reflexivity. }
    unfold DeviceAwarePragmaParallelizer._map_to, DeviceAwarePragmaParallelizer._map_alloc,
      DeviceAwarePragmaParallelizer._map_update_host,
      DeviceAwarePragmaParallelizer._map_update_device,
      DeviceAwarePragmaParallelizer._map_delete.
    rewrite Hs. repeat split.
  - unfold DeviceAwarePragmaParallelizer._make_sections_from_imask.
    rewrite bool_decide_eq_true_2 by exact Hlen. reflexivity.
Qed.

End DataMovement.

(** ** Device placement: monotonicity *)

Lemma inspected_only_writes `{DevitoIR} (ms : MaybeSymbol) :
  inspected_functions ms true ⊆ inspected_functions ms false.
Proof.
  destruct ms as [i|f|iet]; simpl; [done|done|].
  apply intersection_subseteq_l.
Qed.

(** X17: the placement test is monotone. Declaring more functions in
    gpu-fit never moves an object off the device, and an object that is on
    the device when all its functions are inspected is on the device when
    only the written ones are. *)
Theorem is_on_device_is_monotone `{DevitoIR} (ms : MaybeSymbol)
    (gpu_fit gpu_fit' : list Function.t) (only_writes : bool) :
  (forall f, f ∈ gpu_fit -> f ∈ gpu_fit') ->
  is_on_device ms gpu_fit only_writes = true ->
  is_on_device ms gpu_fit' only_writes = true
  /\ (only_writes = false -> is_on_device ms gpu_fit' true = true).
Proof.
  intros Hsub Hon. rewrite is_on_device_true in Hon.
  assert (forall f, not_on_device gpu_fit f = false -> not_on_device gpu_fit' f = false)
    as Hmono.
  { intros f Hf. apply not_true_iff_false. intros Hoff.
    apply not_on_device_true in Hoff as (Ht & Hs & Hfit).
    assert (not_on_device gpu_fit f = true); [|congruence].
    apply not_on_device_true. split; [exact Ht|]. split; [exact Hs|].
    intros Hin. apply Hfit, Hsub, Hin. }
  split.
  - apply is_on_device_true. auto.
  - intros ->. apply is_on_device_true. intros f Hf.
    apply Hmono, Hon. by apply inspected_only_writes.
Qed.

(** ** Vectorization *)

Section Simd.
Context `{DevitoIR} `{DevitoLoops} (self : PragmaParallelizer.t).

Lemma last_of_candidates {A : Type} (outermost i : A) (inner : list A) :
  exists outer,
    outermost :: i :: inner = outer ++ [List.last (i :: inner) outermost]
    /\ outer <> [].
Proof.
  exists (removelast (outermost :: i :: inner)). split.
  - rewrite (app_removelast_last outermost) at 1 by discriminate. reflexivity.
  - discriminate.
Qed.

Lemma make_simd_loop_entries (trees : list (list Iteration.t)) :
  forall mapper mapper',
    HostPragmaParallelizer.make_simd_loop self trees mapper = Ok mapper' ->
    forall k v, (k, v) ∈ mapper' -> (k, v) ∈ mapper \/ simd_entry self trees k v.
Proof.
  induction trees as [|tree trees IH]; intros mapper mapper' Hl k v Hkv.
  - injection Hl as <-. by left.
  - assert (forall k v, simd_entry self trees k v -> simd_entry self (tree :: trees) k v)
      as Hweaken.
    { intros k0 v0 (t & outer & c & p & Ht & Hrest).
      exists t, outer, c, p. split; [by apply list_elem_of_further|exact Hrest]. }
    cbn [HostPragmaParallelizer.make_simd_loop] in Hl.
    destruct (List.filter is_Parallel tree) as [|outermost [|i inner]] eqn:Hcand.
    + destruct (IH _ _ Hl k v Hkv) as [Hin|Hent]; [by left|right; by apply Hweaken].
    + destruct (IH _ _ Hl k v Hkv) as [Hin|Hent]; [by left|right; by apply Hweaken].
    + inv_bind Hl.
      destruct (IH _ _ Hl k v Hkv) as [Hin|Hent]; [|right; by apply Hweaken].
      unfold dict_set in Hin. apply elem_of_cons in Hin as [[= -> ->]|Hin]; [|by left].
      right. destruct (last_of_candidates outermost i inner) as (outer & Hlast & Hne).
      set (c := List.last (i :: inner) outermost) in *.
      assert (exists p, a = [p] /\ simd_pragma self c p) as (p & -> & Hp).
      { unfold simd_pragma.
        destruct (List.filter is_DiscreteFunction (FindSymbols_symbolics _))
          as [|g aligned]; inv_bind Ha; injection Ha as <-;
          unfold __getitem__ in Ha0;
          destruct (PragmaParallelizer.lang self !! _) as [b|] eqn:Hb;
          try discriminate; injection Ha0 as <-; eauto. }
      exists tree, outer, c, p. split; [apply list_elem_of_here|].
      split; [by rewrite Hcand|]. auto.
Qed.

(** X18: whenever [make_simd] returns, it reports no argument and no
    include, and every loop it rewrites is the innermost parallel loop of an
    iteration tree that has at least one more parallel loop outside it. The
    loop is rebuilt with its pragmas followed by exactly one more, and with
    its properties followed by [VECTORIZED]. The pragma added is the
    simd-for construct when no discrete function is found under the loop,
    and otherwise the simd-for-aligned construct applied to the names of
    these functions joined by commas and to the register size of the
    platform; the construct used is defined by the dialect. *)
Theorem make_simd_vectorizes_innermost_parallel_loops (iet : Node)
    (r : Node * (list Arg * list Builder)) :
  HostPragmaParallelizer.make_simd self iet = Ok r ->
  exists mapper,
    HostPragmaParallelizer.make_simd_loop self (retrieve_iteration_tree iet) [] = Ok mapper
    /\ r = (Transformer mapper iet, ([], []))
    /\ forall k v, (k, v) ∈ mapper -> simd_entry self (retrieve_iteration_tree iet) k v.
Proof.
  unfold HostPragmaParallelizer.make_simd. intros Hr. inv_bind Hr. injection Hr as <-.
  exists a. split; [exact Ha|]. split; [reflexivity|].
  intros k v Hkv.
  destruct (make_simd_loop_entries _ _ _ Ha k v Hkv) as [Hin|Hent];
    [by apply elem_of_nil in Hin|exact Hent].
Qed.

Lemma make_simd_loop_nothing (trees : list (list Iteration.t)) (mapper : NodeDict) :
  (forall tree, tree ∈ trees -> (length (List.filter is_Parallel tree) < 2)%nat) ->
  HostPragmaParallelizer.make_simd_loop self trees mapper = Ok mapper.
Proof.
  induction trees as [|tree trees IH]; intros Hfew; [reflexivity|].
  cbn [HostPragmaParallelizer.make_simd_loop].
  assert (length (List.filter is_Parallel tree) < 2)%nat as Ht
    by apply Hfew, list_elem_of_here.
  assert (HostPragmaParallelizer.make_simd_loop self trees mapper = Ok mapper) as Hrest.
  { apply IH. intros t Hin. by apply Hfew, list_elem_of_further. }
  destruct (List.filter is_Parallel tree) as [|outermost [|i inner]];
    [exact Hrest|exact Hrest|simpl in Ht; lia].
Qed.

(** X19: an IET none of whose iteration trees holds two parallel loops is
    returned by [make_simd] as it is, whatever the dialect defines: a
    single level of parallelism is never vectorized and the dialect is not
    consulted. *)
Theorem make_simd_needs_an_outer_parallel_loop (iet : Node) :
  (forall tree, tree ∈ retrieve_iteration_tree iet ->
                (length (List.filter is_Parallel tree) < 2)%nat) ->
  HostPragmaParallelizer.make_simd self iet = Ok (iet, ([], [])).
Proof.
  intros Hfew. unfold HostPragmaParallelizer.make_simd.
  rewrite (make_simd_loop_nothing _ _ Hfew). cbn [mbind Result_bind].
  by rewrite Transformer_nil.
Qed.

End Simd.

(** ** The guard at run time *)

Lemma Boolean_holds_Or (rho : string -> Q) (args : list Relational) :
  Boolean_holds rho (Or args) = existsb (Relational_holds rho) args.
Proof.
  destruct args as [|r [|r' args]]; simpl; [reflexivity| |reflexivity].
  by rewrite orb_false_r.
Qed.

(** X20: when some collapsed loop has a symbolic step, the condition under
    which the guard of the host specializer returns before the region holds
    at run time exactly when one of the symbolic steps is zero; steps that
    are not symbols are not tested. *)
Theorem guard_fires_iff_a_symbolic_step_is_zero (partree : Node)
    (collapsed : list Node) (cargs : list IterationArgs.t) :
  mapM loop_args collapsed = Ok cargs ->
  (exists a, a ∈ cargs /\ isinstance_Symbol (IterationArgs.step a) = true) ->
  exists cond,
    PragmaParallelizer._make_guard partree collapsed
    = Ok (List_ [] [Conditional cond [Return]; partree] [])
    /\ forall rho,
         Boolean_holds rho cond = true
         <-> exists a, a ∈ cargs
                       /\ isinstance_Symbol (IterationArgs.step a) = true
                       /\ (eval rho (IterationArgs.step a) == 0)%Q.
Proof.
  intros Hc Hex. exists (zero_step_condition cargs). split.
  - rewrite (make_guard_cases _ _ _ Hc).
    apply existsb_elem_of in Hex. by rewrite Hex.
  - intros rho. unfold zero_step_condition.
    rewrite Boolean_holds_Or, existsb_elem_of. split.
    + intros (r & Hr & Hholds).
      apply list_elem_of_fmap in Hr as (s & -> & Hs).
      apply list_elem_of_In, filter_In in Hs as [Hs Hsym].
      apply list_elem_of_In, list_elem_of_fmap in Hs as (a & -> & Ha).
      exists a. split; [exact Ha|]. split; [exact Hsym|].
      by apply Qeq_bool_iff in Hholds.
    + intros (a & Ha & Hsym & Hz).
      exists (CondEq (IterationArgs.step a) (Integer 0)). split.
      * apply list_elem_of_fmap. exists (IterationArgs.step a). split; [reflexivity|].
        apply list_elem_of_In, filter_In. split; [|exact Hsym].
        apply list_elem_of_In, list_elem_of_fmap. eauto.
      * by apply Qeq_bool_iff.
Qed.

(** ** Regions and pointer arrays *)

Section Regions.
Context `{DevitoIR} (self : PragmaParallelizer.t).

Lemma heap_globals_loop_length (heap_private : list Function.t) :
  forall st acc,
    length (PragmaParallelizer.heap_globals_loop self heap_private st acc).1
    = (length acc + length heap_private)%nat.
Proof.
  induction heap_private as [|i rest IH]; intros st acc; simpl; [lia|].
  destruct (PragmaParallelizer.promote self st i) as [pi st1].
  rewrite IH, length_app. simpl. lia.
Qed.

(** X21: a unit that holds no thread-private heap array is wrapped in a
    region as it is: no name is drawn, the map of pointer arrays is left
    alone and the dialect is not consulted. A unit that holds one needs the
    thread index of the dialect: without it region assembly fails with
    [NotImplementedError]. *)
Theorem region_needs_thread_index_only_for_private_arrays (partree : Node)
    (st : gmap Function.t PointerArray.t * nat) :
  (PragmaParallelizer.heap_private partree = [] ->
   PragmaParallelizer._make_parregion self partree st = Ok (ParallelBlock [partree], st))
  /\ (PragmaParallelizer.heap_private partree <> [] ->
      PragmaParallelizer.lang self !! "thread-num" = None ->
      PragmaParallelizer._make_parregion self partree st
      = Raise (NotImplementedError "Must implement `lang[thread-num]`")).
Proof.
  unfold PragmaParallelizer._make_parregion. split.
  - intros ->. reflexivity.
  - intros Hne Hnone.
    pose proof (heap_globals_loop_length (PragmaParallelizer.heap_private partree) st [])
      as Hlen.
    destruct (PragmaParallelizer.heap_globals_loop self _ st []) as [[|d derefs] st'].
    + destruct (PragmaParallelizer.heap_private partree); [done|discriminate].
    + unfold PragmaParallelizer._make_tid, __getitem__. rewrite Hnone. reflexivity.
Qed.

(** An invariant of the pointer-array state that [promote] keeps is kept by
    region assembly and by the loop over the nests. *)
Section StateInvariant.
Variable P : gmap Function.t PointerArray.t * nat -> Prop.
Hypothesis Hpromote : forall st i, P st -> P (PragmaParallelizer.promote self st i).2.

Lemma heap_globals_loop_inv (heap_private : list Function.t) :
  forall st acc, P st -> P (PragmaParallelizer.heap_globals_loop self heap_private st acc).2.
Proof.
  induction heap_private as [|i rest IH]; intros st acc Hst; simpl; [exact Hst|].
  destruct (PragmaParallelizer.promote self st i) as [pi st1] eqn:Hp.
  apply IH. specialize (Hpromote st i Hst). by rewrite Hp in Hpromote.
Qed.

Lemma make_parregion_inv (partree : Node) st region st' :
  PragmaParallelizer._make_parregion self partree st = Ok (region, st') ->
  P st -> P st'.
Proof.
  unfold PragmaParallelizer._make_parregion. intros Hr Hst.
  pose proof (heap_globals_loop_inv (PragmaParallelizer.heap_private partree) st [] Hst)
    as Hinv.
  destruct (PragmaParallelizer.heap_globals_loop self _ st []) as [heap_globals st1].
  inv_bind Hr. injection Hr as _ <-. exact Hinv.
Qed.

Lemma make_parallel_loop_inv (trees : list (list Iteration.t)) :
  forall mapper st mapper' st',
    PragmaParallelizer._make_parallel_loop (PragmaParallelizer.methods self)
      trees mapper st = Ok (mapper', st') ->
    P st -> P st'.
Proof.
  induction trees as [|tree trees IH]; intros mapper st mapper' st' Hl Hst.
  - by injection Hl as <- <-.
  - rewrite make_parallel_loop_cons in Hl.
    destruct (filter_iterations tree PragmaParallelizer.key) as [|c candidates];
      [by eapply IH|].
    inv_bind Hl. destruct a as [root [[partree collapsed]|]]; [|by eapply IH].
    destruct (dict_in (Iteration.to_node root) mapper); [by eapply IH|].
    inv_bind Hl. inv_bind Hl. inv_bind Hl. inv_bind Hl.
    destruct a2 as [parregion st1]. inv_bind Hl.
    cbn [m_make_parregion PragmaParallelizer.methods] in Ha3.
    eapply IH; [exact Hl|]. by eapply make_parregion_inv.
Qed.

End StateInvariant.

Lemma promote_distinctly_named (names0 : nat) st i :
  (forall j k, make_name j = make_name k -> j = k) ->
  distinctly_named names0 st ->
  distinctly_named names0 (PragmaParallelizer.promote self st i).2.
Proof.
  intros Hinj (Hle & Hnames & Hdistinct). destruct st as [parrays n].
  unfold PragmaParallelizer.promote.
  destruct (parrays !! i) as [pi0|] eqn:Hi; [by repeat split|].
  unfold distinctly_named. cbn [fst snd] in *. split; [lia|]. split.
  - intros a pa. destruct (decide (i = a)) as [<-|Hne].
    + rewrite lookup_insert_eq. intros [= <-]. exists n. split; [lia|reflexivity].
    + rewrite lookup_insert_ne by exact Hne. intros Ha.
      destruct (Hnames a pa Ha) as (k & Hk & Hn). exists k. split; [lia|exact Hn].
  - intros a a' pa pa'.
    destruct (decide (i = a)) as [<-|Hne], (decide (i = a')) as [<-|Hne'];
      rewrite ?lookup_insert_eq, ?lookup_insert_ne by assumption.
    + done.
    + intros [= <-] Ha' Heq. simpl in Heq.
      destruct (Hnames a' pa' Ha') as (k & Hk & Hn).
      rewrite Hn in Heq. apply Hinj in Heq. lia.
    + intros Ha [= <-] Heq. simpl in Heq.
      destruct (Hnames a pa Ha) as (k & Hk & Hn).
      rewrite Hn in Heq. apply Hinj in Heq. lia.
    + apply Hdistinct.
Qed.

(** X22: if the registry never hands out the same name twice, the pointer
    arrays bound at the end of a run of the host pass carry pairwise
    distinct names, each drawn from the registry during the run. *)
Theorem pointer_arrays_are_distinctly_named (iet iet' : Node) (names names' : nat)
    (meta : list Arg * list Builder) :
  (forall j k, make_name j = make_name k -> j = k) ->
  PragmaParallelizer.make_parallel self iet names = Ok (iet', meta, names') ->
  exists mapper parrays,
    PragmaParallelizer._make_parallel_loop (PragmaParallelizer.methods self)
      (retrieve_iteration_tree iet) [] (∅, names)
    = Ok (mapper, (parrays, names'))
    /\ (forall a pa, parrays !! a = Some pa ->
                     exists k, (names <= k < names')%nat
                               /\ PointerArray.name pa = make_name k)
    /\ (forall a a' pa pa',
          parrays !! a = Some pa -> parrays !! a' = Some pa' ->
          PointerArray.name pa = PointerArray.name pa' -> a = a').
Proof.
  intros Hinj Hp.
  unfold PragmaParallelizer.make_parallel, PragmaParallelizer._make_parallel in Hp.
  inv_bind Hp. destruct a as [mapper [parrays names1]].
  inv_bind Hp. injection Hp as _ _ <-.
  exists mapper, parrays. split; [exact Ha|].
  apply (make_parallel_loop_inv (distinctly_named names)) in Ha.
  - destruct Ha as (_ & Hnames & Hdistinct). auto.
  - intros st i. by apply promote_distinctly_named.
  - split; [reflexivity|].
    split; simpl; [intros b pb Hb|intros b b' pb pb' Hb]; by rewrite lookup_empty in Hb.
Qed.

(** *** The roots rewritten *)

Lemma dict_in_keys (k : Node) (mapper : NodeDict) :
  dict_in k mapper = true <-> k ∈ map fst mapper.
Proof.
  unfold dict_in. induction mapper as [|[k' v] mapper IH]; simpl.
  - split; [discriminate|]. intros Hin. by apply elem_of_nil in Hin.
  - destruct (decide (k' = k)) as [->|Hne].
    + split; [|reflexivity]. intros _. apply list_elem_of_here.
    + rewrite IH. split.
      * intros Hin. by apply list_elem_of_further.
      * intros Hin. apply elem_of_cons in Hin as [->|Hin]; [done|exact Hin].
Qed.

Lemma make_parallel_loop_keys (trees : list (list Iteration.t)) :
  forall mapper st mapper' st',
    PragmaParallelizer._make_parallel_loop (PragmaParallelizer.methods self)
      trees mapper st = Ok (mapper', st') ->
    (NoDup (map fst mapper) -> NoDup (map fst mapper'))
    /\ forall k, k ∈ map fst mapper' <-> k ∈ map fst mapper \/ rooted_in trees k.
Proof.
  induction trees as [|tree trees IH]; intros mapper st mapper' st' Hl.
  - injection Hl as <- <-. split; [auto|]. intros k. split; [auto|].
    intros [Hin|(tree & root & rest & Hin & _)]; [exact Hin|by apply elem_of_nil in Hin].
  - assert (forall k, rooted_in trees k -> rooted_in (tree :: trees) k) as Hweaken.
    { intros k (t & root & rest & Ht & Hrest).
      exists t, root, rest. split; [by apply list_elem_of_further|exact Hrest]. }
    assert (forall k, rooted_in (tree :: trees) k ->
              (exists root rest,
                 filter_iterations tree PragmaParallelizer.key = root :: rest
                 /\ k = Iteration.to_node root)
              \/ rooted_in trees k) as Hsplit.
    { intros k (t & root & rest & Ht & Hc & Hk).
      apply elem_of_cons in Ht as [->|Ht]; [left; eauto|right].
      exists t, root, rest. auto. }
    rewrite make_parallel_loop_cons in Hl.
    destruct (filter_iterations tree PragmaParallelizer.key) as [|c candidates] eqn:Hcand.
    { apply IH in Hl as [Hnd Hkeys]. split; [exact Hnd|].
      intros k. rewrite Hkeys. split.
      - intros [Hin|Hin]; [by left|right; by apply Hweaken].
      - intros [Hin|Hin]; [by left|].
        apply Hsplit in Hin as [(root & rest & Hc & _)|Hin]; [discriminate|by right]. }
    inv_bind Hl.
    cbn [m_make_partree PragmaParallelizer.methods] in Ha.
    apply make_partree_shape in Ha as (collapsable & prefix & kw & nt & _ & _ & ->).
    assert (rooted_in (tree :: trees) (Iteration.to_node c)) as Hroot.
    { exists tree, c, candidates. split; [apply list_elem_of_here|]. auto. }
    destruct (dict_in (Iteration.to_node c) mapper) eqn:Hin.
    { apply dict_in_keys in Hin.
      apply IH in Hl as [Hnd Hkeys]. split; [exact Hnd|].
      intros k. rewrite Hkeys. split.
      - intros [Hk|Hk]; [by left|right; by apply Hweaken].
      - intros [Hk|Hk]; [by left|].
        apply Hsplit in Hk as [(root & rest & [= <- <-] & ->)|Hk]; [by left|by right]. }
    inv_bind Hl. inv_bind Hl. inv_bind Hl. inv_bind Hl.
    destruct a2 as [parregion st1]. inv_bind Hl.
    apply IH in Hl as [Hnd Hkeys]. split.
    + intros Hmapper. apply Hnd. unfold dict_set. simpl.
      apply NoDup_cons. split; [|exact Hmapper].
      rewrite <- dict_in_keys. congruence.
    + intros k. rewrite Hkeys. unfold dict_set. simpl. rewrite elem_of_cons. split.
      * intros [[->|Hk]|Hk]; [by right|by left|right; by apply Hweaken].
      * intros [Hk|Hk]; [left; by right|].
        apply Hsplit in Hk as [(root & rest & [= <- <-] & ->)|Hk];
          [left; by left|by right].
Qed.

(** X23: in a run of the host pass the loops that receive a region are
    exactly the first parallelizable loops of the iteration trees of the
    IET, and none of them is entered twice in the substitution map: a root
    reached again through another tree keeps the region it was given first. *)
Theorem each_root_is_rewritten_once (trees : list (list Iteration.t))
    (st st' : gmap Function.t PointerArray.t * nat) (mapper : NodeDict) :
  PragmaParallelizer._make_parallel_loop (PragmaParallelizer.methods self)
    trees [] st = Ok (mapper, st') ->
  NoDup (map fst mapper)
  /\ forall k, k ∈ map fst mapper <-> rooted_in trees k.
Proof.
  intros Hl. apply make_parallel_loop_keys in Hl as [Hnd Hkeys]. split.
  - apply Hnd. constructor.
  - intros k. rewrite Hkeys. split; [|by right].
    intros [Hin|Hin]; [by apply elem_of_nil in Hin|exact Hin].
Qed.

End Regions.

(** ** What the passes need of the dialect *)

Section DialectNeeds.
Context `{DevitoIR} (self : PragmaParallelizer.t).

Lemma make_reductions_result (prefix : list Node) (kw : ParallelIteration.kwargs)
    (a : IterationArgs.t) (nodes : list Node) (nthreads : option Symbol.t)
    (collapsed : list Node) (cargs : list IterationArgs.t) :
  mapM loop_args collapsed = Ok cargs ->
  (exists r,
     PragmaParallelizer._make_reductions self
       (ParallelTree prefix (Iteration_ (Some kw) a nodes) nthreads) collapsed = Ok r)
  \/ (exists msg,
        PragmaParallelizer._make_reductions self
          (ParallelTree prefix (Iteration_ (Some kw) a nodes) nthreads) collapsed
        = Raise (NotImplementedError msg)).
Proof.
  intros Hc.
  destruct (PragmaParallelizer.lang self !! "atomic") as [b|] eqn:Hb.
  { left. eapply make_reductions_Ok; [exact Hc|by eexists]. }
  unfold PragmaParallelizer._make_reductions.
  rewrite (anyM_loop_args _ _ _ Hc). cbn [mbind Result_bind].
  destruct (existsb _ cargs); [|left; simpl; eauto].
  change (negb true) with false. cbv iota.
  rewrite (allM_loop_args _ _ _ Hc). cbn [mbind Result_bind].
  destruct (_ || _).
  - left. cbn [root mbind Result_bind PragmaParallelizer._rebuild_reduction]. eauto.
  - destruct (List.filter _ _) as [|e exprs].
    + left. cbn [mapM mbind Result_bind]. eauto.
    + right. cbn [mapM]. unfold __getitem__. rewrite Hb. by eexists.
Qed.

Lemma make_parregion_result (prefix : list Node) (body : Node)
    (nthreads : option Symbol.t) st :
  (exists r,
     PragmaParallelizer._make_parregion self (ParallelTree prefix body nthreads) st = Ok r)
  \/ (exists msg,
        PragmaParallelizer._make_parregion self (ParallelTree prefix body nthreads) st
        = Raise (NotImplementedError msg)).
Proof.
  destruct (PragmaParallelizer.lang self !! "thread-num") as [b|] eqn:Hb.
  { left. apply make_parregion_Ok. by eexists. }
  unfold PragmaParallelizer._make_parregion.
  destruct (PragmaParallelizer.heap_globals_loop self _ st []) as [[|d derefs] st'].
  - left. simpl. eauto.
  - right. unfold PragmaParallelizer._make_tid, __getitem__. rewrite Hb. by eexists.
Qed.

(** Without nested parallelism, the only failures of the loop over the
    nests are lookups of constructs that the dialect does not define. *)
Lemma make_parallel_loop_result (trees : list (list Iteration.t)) :
  PragmaParallelizer.nhyperthreads self <= PragmaParallelizer.nested self ->
  forall mapper st,
    (exists r,
       PragmaParallelizer._make_parallel_loop (PragmaParallelizer.methods self)
         trees mapper st = Ok r)
    \/ (exists msg,
          PragmaParallelizer._make_parallel_loop (PragmaParallelizer.methods self)
            trees mapper st = Raise (NotImplementedError msg)).
Proof.
  intros Hnested.
  induction trees as [|tree trees IH]; intros mapper st; [left; by eexists|].
  rewrite make_parallel_loop_cons.
  destruct (filter_iterations tree PragmaParallelizer.key) as [|root rest]; [apply IH|].
  cbn [m_make_partree m_make_nested_partree m_make_reductions m_make_threaded_prodders
       m_make_parregion m_make_guard PragmaParallelizer.methods].
  destruct (make_partree_None_Ok self root rest) as [r Hr]. rewrite Hr.
  apply make_partree_shape in Hr as (collapsable & prefix & kw & nt & _ & _ & ->).
  cbn [mbind Result_bind].
  destruct (dict_in _ mapper); [apply IH|].
  unfold PragmaParallelizer._make_nested_partree.
  rewrite bool_decide_eq_true_2 by exact Hnested. cbn [mbind Result_bind].
  pose proof (mapM_loop_args_collapsed prefix
                {| Iteration.kw := Some kw; Iteration.args := Iteration.args root;
                   Iteration.nodes := Iteration.nodes root |}
                (Some nt) collapsable) as Hc.
  change (Iteration.to_node
            {| Iteration.kw := Some kw; Iteration.args := Iteration.args root;
               Iteration.nodes := Iteration.nodes root |})
    with (Iteration_ (Some kw) (Iteration.args root) (Iteration.nodes root)) in Hc.
  destruct (make_reductions_result prefix kw (Iteration.args root) (Iteration.nodes root)
              (Some nt) _ _ Hc) as [[reduced Hred]|[msg Hred]];
    rewrite Hred; cbn [mbind Result_bind]; [|right; by eexists].
  apply make_reductions_shape in Hred as (prefix' & kw' & nodes' & ->).
  destruct (make_threaded_prodders_shape prefix'
              (Iteration_ (Some kw') (Iteration.args root) nodes') (Some nt))
    as (prefix'' & body'' & ->).
  cbn [mbind Result_bind].
  destruct (make_parregion_result prefix'' body'' (Some nt) st)
    as [[[region st'] ->]|[msg ->]]; cbn [mbind Result_bind]; [|right; by eexists].
  rewrite (make_guard_cases _ _ _ Hc). cbn [mbind Result_bind]. apply IH.
Qed.

(** X24: the header of the dialect is needed by every run of the host
    pass: on a platform whose threads per core do not exceed the par-nested
    threshold, with a dialect that defines no header, [make_parallel] raises
    [NotImplementedError] on every IET, and never any other exception. In
    particular the pass cannot run on the empty construct table that the
    abstract specializer declares. *)
Theorem host_pass_needs_the_header (iet : Node) (names : nat) :
  PragmaParallelizer.nhyperthreads self <= PragmaParallelizer.nested self ->
  PragmaParallelizer.lang self !! "header" = None ->
  exists msg,
    PragmaParallelizer.make_parallel self iet names = Raise (NotImplementedError msg).
Proof.
  intros Hnested Hheader.
  unfold PragmaParallelizer.make_parallel, PragmaParallelizer._make_parallel.
  destruct (make_parallel_loop_result (retrieve_iteration_tree iet) Hnested [] (∅, names))
    as [[[mapper [parrays names']] ->]|[msg ->]]; cbn [mbind Result_bind].
  - unfold __getitem__. rewrite Hheader. by eexists.
  - by eexists.
Qed.

End DialectNeeds.

Section DeviceDialectNeeds.
Context `{DevitoIR} (self : DeviceAwarePragmaParallelizer.t).

Lemma device_make_partree_None_Ok (root : Iteration.t) (rest : list Iteration.t) :
  exists r, DeviceAwarePragmaParallelizer._make_partree self (root :: rest) None = Ok r.
Proof.
  unfold DeviceAwarePragmaParallelizer._make_partree.
  destruct (is_on_device _ _ _).
  - rewrite find_collapsable_group. cbn [mbind Result_bind]. eauto.
  - destruct (DeviceAwarePragmaParallelizer.par_disabled self); simpl; [eauto|].
    apply make_partree_None_Ok.
Qed.

Lemma device_loop_Ok (trees : list (list Iteration.t)) :
  is_Some (PragmaParallelizer.lang (DeviceAwarePragmaParallelizer.base self) !! "atomic") ->
  forall mapper st,
    exists r,
      PragmaParallelizer._make_parallel_loop (DeviceAwarePragmaParallelizer.methods self)
        trees mapper st = Ok r.
Proof.
  intros Hatomic.
  induction trees as [|tree trees IH]; intros mapper st; [by eexists|].
  rewrite make_parallel_loop_cons.
  destruct (filter_iterations tree PragmaParallelizer.key) as [|root rest]; [apply IH|].
  cbn [m_make_partree m_make_nested_partree m_make_reductions m_make_threaded_prodders
       m_make_parregion m_make_guard DeviceAwarePragmaParallelizer.methods].
  destruct (device_make_partree_None_Ok root rest) as [r Hr]. rewrite Hr.
  apply device_make_partree_shape in Hr
    as [(-> & _)|(collapsable & prefix & kw & nt & _ & _ & ->)];
    cbn [mbind Result_bind]; [apply IH|].
  destruct (dict_in _ mapper); [apply IH|].
  destruct (device_overrides_are_noops self prefix kw (Iteration.args root)
              (Iteration.nodes root) nt) as (Hnested & _).
  rewrite Hnested. cbn [mbind Result_bind].
  pose proof (mapM_loop_args_collapsed prefix
                {| Iteration.kw := Some kw; Iteration.args := Iteration.args root;
                   Iteration.nodes := Iteration.nodes root |}
                nt collapsable) as Hc.
  change (Iteration.to_node
            {| Iteration.kw := Some kw; Iteration.args := Iteration.args root;
               Iteration.nodes := Iteration.nodes root |})
    with (Iteration_ (Some kw) (Iteration.args root) (Iteration.nodes root)) in Hc.
  destruct (make_reductions_Ok (DeviceAwarePragmaParallelizer.base self) prefix kw
              (Iteration.args root) (Iteration.nodes root) nt _ _ Hc Hatomic)
    as [reduced Hred].
  rewrite Hred. cbn [mbind Result_bind].
  apply make_reductions_shape in Hred as (prefix' & kw' & nodes' & ->).
  destruct (device_overrides_are_noops self prefix' kw' (Iteration.args root)
              nodes' nt) as (_ & Hprod & Hregion & Hguard).
  rewrite Hprod. cbn [mbind Result_bind].
  rewrite Hregion. cbn [mbind Result_bind].
  rewrite Hguard. cbn [mbind Result_bind]. apply IH.
Qed.

(** X25: with a dialect that defines the header and the atomic construct,
    the pass of the device-aware specializer returns on every IET, whatever
    the threads per core of the platform: it never asks the dialect for the
    thread index, never enters nested parallelism, and leaves the name
    counter where it was. *)
Theorem device_pass_returns (iet : Node) (names : nat) (header : Builder) :
  DeviceAwarePragmaParallelizer.lang self !! "header" = Some header ->
  is_Some (DeviceAwarePragmaParallelizer.lang self !! "atomic") ->
  exists iet' args,
    DeviceAwarePragmaParallelizer.make_parallel self iet names
    = Ok (iet', (args, [header]), names).
Proof.
  intros Hheader Hatomic.
  unfold DeviceAwarePragmaParallelizer.make_parallel, PragmaParallelizer._make_parallel.
  destruct (device_loop_Ok (retrieve_iteration_tree iet) Hatomic [] (∅, names))
    as [[mapper [parrays names']] Hl].
  rewrite Hl. cbn [mbind Result_bind].
  apply device_loop_keeps_state in Hl as [[= -> ->] _].
  unfold DeviceAwarePragmaParallelizer.lang in Hheader.
  unfold __getitem__. rewrite Hheader. cbn [mbind Result_bind]. eauto.
Qed.

End DeviceDialectNeeds.

(** ** Thresholds and placement, once more *)

Section WorkThreshold.
Context `{DevitoIR} (self self' : PragmaParallelizer.t).

Lemma too_little_work_mono (candidates : list Iteration.t) (n : nat) :
  PragmaParallelizer.collapse_work self <= PragmaParallelizer.collapse_work self' ->
  too_little_work self candidates n = true ->
  too_little_work self' candidates n = true.
Proof.
  intros Hle. unfold too_little_work.
  destruct (drop (n + 1) candidates) as [|j nested]; [done|].
  destruct (static_work (j :: nested)) as [work|]; [|done].
  rewrite !bool_decide_eq_true. lia.
Qed.

Lemma worthwhile_group_mono (root : Iteration.t) (candidates rest : list Iteration.t) :
  PragmaParallelizer.collapse_work self <= PragmaParallelizer.collapse_work self' ->
  forall n, worthwhile_group self' root candidates n rest
            `prefix_of` worthwhile_group self root candidates n rest.
Proof.
  intros Hle. induction rest as [|i rest IH]; intros n; simpl; [done|].
  destruct (collapsable_at root candidates n i); simpl; [|done].
  destruct (too_little_work self candidates n) eqn:Hw; simpl.
  - by rewrite (too_little_work_mono _ _ Hle Hw).
  - destruct (too_little_work self' candidates n); simpl;
      [apply prefix_nil|apply prefix_cons, IH].
Qed.

(** X26: raising the par-collapse-work threshold can only shrink the
    collapsed group: on the same platform and with the same core threshold,
    the loops collapsed under the higher work threshold are a leading part
    of the loops collapsed under the lower one. *)
Theorem raising_the_work_threshold_shrinks_the_group (root : Iteration.t)
    (candidates : list Iteration.t) :
  PragmaParallelizer.ncores self' = PragmaParallelizer.ncores self ->
  PragmaParallelizer.collapse_ncores self' = PragmaParallelizer.collapse_ncores self ->
  PragmaParallelizer.collapse_work self <= PragmaParallelizer.collapse_work self' ->
  exists group group',
    PragmaParallelizer._find_collapsable self root candidates = Ok group
    /\ PragmaParallelizer._find_collapsable self' root candidates = Ok group'
    /\ group' `prefix_of` group.
Proof.
  intros Hcores Hthreshold Hle. eexists _, _.
  split; [apply find_collapsable_group|]. split; [apply find_collapsable_group|].
  rewrite Hcores, Hthreshold.
  destruct (bool_decide _); [by apply worthwhile_group_mono|done].
Qed.

End WorkThreshold.

(** X27: a piece of IET is on the device exactly when each of the
    functions inspected in it, taken alone, is on the device; with
    [only_writes] these are the functions of the IET that some expression
    writes. *)
Theorem iet_is_on_device_iff_its_functions_are `{DevitoIR} (iet : Node)
    (gpu_fit : list Function.t) (only_writes : bool) :
  (is_on_device (OfNode iet) gpu_fit only_writes = true
   <-> forall f, f ∈ inspected_functions (OfNode iet) only_writes ->
                 is_on_device (OfFunction f) gpu_fit false = true)
  /\ (forall f,
        f ∈ inspected_functions (OfNode iet) true
        <-> f ∈ FindSymbols iet
            /\ exists e, Expression_ e ∈ FindNodes Expression iet
                         /\ Expression.write e = f).
Proof.
  split.
  - rewrite is_on_device_true. split; intros Hall f Hf.
    + apply is_on_device_true. intros g Hg. simpl in Hg.
      apply elem_of_singleton in Hg. subst g. by apply Hall.
    + specialize (Hall f Hf). rewrite is_on_device_true in Hall.
      apply Hall. simpl. by apply elem_of_singleton.
  - intros f. simpl. rewrite elem_of_intersection, !elem_of_list_to_set.
    rewrite list_elem_of_fmap. split.
    + intros (Hs & e & -> & He). split; [exact Hs|].
      apply list_elem_of_omap in He as (o & Ho & Hoe).
      destruct o; try discriminate. injection Hoe as ->. eauto.
    + intros (Hs & e & He & <-). split; [exact Hs|].
      exists e. split; [reflexivity|].
      apply list_elem_of_omap. exists (Expression_ e). auto.
Qed.

(** ** Runs on the sample data *)

Section FurtherRuns.
#[local] Existing Instance Sample.ir.
#[local] Existing Instance SampleLoops.loops.
Import Sample SampleNests SampleUnits SamplePass SampleRuns.

Lemma make_partree_degree_witness :
  exists partree collapsed,
    PragmaParallelizer._make_partree Sample.host [x; y; z] None
    = Ok (x, Some (partree, collapsed))
    /\ ncollapsed partree = Ok (length collapsed)
    /\ (length collapsed <= 3)%nat.
Proof.
  assert (exists partree collapsed,
            PragmaParallelizer._make_partree
              (DeviceAwarePragmaParallelizer.base Sample.device) [x; y; z] None
            = Ok (x, Some (partree, collapsed))) as (partree & collapsed & Hr).
  { eexists _, _. vm_compute. reflexivity. }
  destruct (make_partree_degree_is_length_of_collapsed Sample.device [x; y; z] None)
    as [_ Hshape].
  destruct (Hshape x partree collapsed (or_introl Hr)) as (_ & _ & _ & Hn & Hle).
  exists partree, collapsed. split; [exact Hr|]. split; [exact Hn|exact Hle].
Defined.

Lemma below_core_threshold_witness :
  exists partree,
    PragmaParallelizer._make_partree (DeviceAwarePragmaParallelizer.base small_device)
      [x; y; z] None
    = Ok (x, Some (partree, [partree]))
    /\ ncollapsed partree = Ok 1%nat.
Proof.
  assert (exists partree collapsed,
            PragmaParallelizer._make_partree
              (DeviceAwarePragmaParallelizer.base small_device) [x; y; z] None
            = Ok (x, Some (partree, collapsed))) as (partree & collapsed & Hr).
  { eexists _, _. vm_compute. reflexivity. }
  destruct (below_core_threshold_nothing_is_collapsed small_device [x; y; z] None
              x partree collapsed) as [Hc Hn].
  - vm_compute. reflexivity.
  - left. exact Hr.
  - exists partree. rewrite <- Hc. auto.
Defined.

(** The symbolic nest is affine and holds no expression bundle: its
    schedule is static. *)
Lemma affine_nest_schedule_witness :
  forallb Iteration.is_Affine [x; y; z] = true
  /\ exists collapsable,
       PragmaParallelizer._make_partree Sample.host [x; y; z] None
       = Ok (x,
             Some (ParallelTree []
                     (Iteration_
                        (Some (PragmaParallelizer.with_schedule
                                 (PragmaParallelizer.kwargs0 (1 + length collapsable))
                                 "static"))
                        (Iteration.args x) (Iteration.nodes x))
                     (Some (PragmaParallelizer.nthreads Sample.host)),
                   ParallelTree []
                     (Iteration_
                        (Some (PragmaParallelizer.with_schedule
                                 (PragmaParallelizer.kwargs0 (1 + length collapsable))
                                 "static"))
                        (Iteration.args x) (Iteration.nodes x))
                     (Some (PragmaParallelizer.nthreads Sample.host))
                   :: map Iteration.to_node collapsable)).
Proof.
  assert (forallb Iteration.is_Affine [x; y; z] = true) as Ha by reflexivity.
  split; [exact Ha|].
  destruct (affine_nest_schedule Sample.host x [y; z] Ha)
    as (collapsable & schedule & _ & Hs & Hp & _).
  exists collapsable. vm_compute in Hs. subst schedule. exact Hp.
Defined.

(** A time-stepping loop holds nothing to parallelize. *)
Lemma pass_without_candidates_witness :
  PragmaParallelizer.make_parallel Sample.host (Iteration.to_node stepping) 5
  = Ok (Iteration.to_node stepping, ([], [ {| builder_id := "header" |} ]), 5%nat).
Proof.
  unfold PragmaParallelizer.make_parallel.
  rewrite (pass_without_candidates_keeps_the_tree Sample.host).
  - reflexivity.
  - intros tree Hin. apply list_elem_of_singleton in Hin. subst tree. reflexivity.
Defined.

Lemma host_pass_returns_witness :
  exists iet' args names',
    PragmaParallelizer.make_parallel Sample.host two_nests 0
    = Ok (iet', (args, [ {| builder_id := "header" |} ]), names').
Proof.
  apply (host_pass_returns Sample.host two_nests 0).
  - vm_compute. discriminate.
  - reflexivity.
  - eexists. reflexivity.
  - eexists. reflexivity.
Defined.

(** With par-disabled set, the nest that writes a time function with saved
    history is given no tree. *)
Lemma nest_off_device_witness :
  DeviceAwarePragmaParallelizer.par_disabled strict_device = true
  /\ DeviceAwarePragmaParallelizer._make_partree strict_device [saving] None
     = Ok (saving, None)
  /\ PragmaParallelizer._make_parallel_loop
       (DeviceAwarePragmaParallelizer.methods strict_device) [[saving]] [] (∅, 0%nat)
     = Ok ([], (∅, 0%nat)).
Proof.
  assert (DeviceAwarePragmaParallelizer.par_disabled strict_device = true) as Hd
    by reflexivity.
  split; [exact Hd|].
  destruct (nest_off_device_is_skipped_or_left_to_host strict_device [saving] []
              saving [] [] (∅, 0%nat)) as [Hskip _].
  - reflexivity.
  - vm_compute. reflexivity.
  - destruct (Hskip Hd) as [Hnone Hloop]. split; [apply Hnone|]. rewrite Hloop. reflexivity.
Defined.

(** The non-affine nest writes a grid function only: it is offloaded even
    with a thread count supplied, which the host [_make_partree] refuses. *)
Lemma nest_is_offloaded_witness :
  is_on_device (OfNode (Iteration.to_node p_sparse)) [] true = true
  /\ DeviceAwarePragmaParallelizer._make_partree Sample.device [p_sparse]
       (Some (PragmaParallelizer.nthreads_nested Sample.host))
     = Ok (p_sparse,
           Some (ParallelTree []
                   (Iteration_
                      (Some (PragmaParallelizer.with_gpu_fit
                               (PragmaParallelizer.kwargs0 1) []))
                      (Iteration.args p_sparse) (Iteration.nodes p_sparse))
                   (Some (PragmaParallelizer.nthreads_nested Sample.host)),
                 [ParallelTree []
                   (Iteration_
                      (Some (PragmaParallelizer.with_gpu_fit
                               (PragmaParallelizer.kwargs0 1) []))
                      (Iteration.args p_sparse) (Iteration.nodes p_sparse))
                   (Some (PragmaParallelizer.nthreads_nested Sample.host))]))
  /\ PragmaParallelizer._make_partree Sample.host [p_sparse]
       (Some (PragmaParallelizer.nthreads_nested Sample.host))
     = Raise AssertionError.
Proof.
  assert (is_on_device (OfNode (Iteration.to_node p_sparse)) [] true = true) as Hon
    by (vm_compute; reflexivity).
  split; [exact Hon|]. split; [|reflexivity].
  destruct (nest_is_offloaded_iff_on_device Sample.device p_sparse []
              (Some (PragmaParallelizer.nthreads_nested Sample.host))) as [Hoff _].
  destruct (Hoff Hon) as (collapsable & Hc & Hp).
  vm_compute in Hc. injection Hc as <-. exact Hp.
Defined.

(** Run on the two nests that share a heap array, the device-aware pass
    draws no name, where the host pass draws one. *)
Lemma device_pass_witness :
  exists iet' meta,
    DeviceAwarePragmaParallelizer.make_parallel Sample.device two_nests 0
    = Ok (iet', meta, 0%nat).
Proof.
  assert (exists iet' meta names',
            DeviceAwarePragmaParallelizer.make_parallel Sample.device two_nests 0
            = Ok (iet', meta, names')) as (iet' & meta & names' & Hrun).
  { eexists _, _, _. vm_compute. reflexivity. }
  destruct (device_pass_builds_bare_trees Sample.device _ _ _ _ _ Hrun) as [Hn _].
  exists iet', meta. subst names'. exact Hrun.
Defined.

(** On four threads per core, the loop within a block becomes a nested
    parallel loop. *)
Lemma nested_partrees_witness :
  PragmaParallelizer._make_partree nesting_host [blocks; within] None
  = Ok (blocks, Some (blocks_unit, [blocks_unit]))
  /\ exists r mapper,
       PragmaParallelizer._make_nested_partree nesting_host
         (PragmaParallelizer._make_partree nesting_host) blocks_unit = Ok r
       /\ r = Transformer mapper blocks_unit
       /\ r <> blocks_unit
       /\ forall k v, (k, v) ∈ mapper ->
                      nested_entry nesting_host blocks_unit
                        (retrieve_iteration_tree blocks_unit) k v.
Proof.
  split; [vm_compute; reflexivity|].
  assert (exists r, PragmaParallelizer._make_nested_partree nesting_host
                      (PragmaParallelizer._make_partree nesting_host) blocks_unit = Ok r
                    /\ r <> blocks_unit) as (r & Hr & Hne).
  { eexists. split; [vm_compute; reflexivity|]. vm_compute. discriminate. }
  destruct (nested_partrees_are_affine_parallel_loops nesting_host blocks_unit)
    as [_ Hnested].
  destruct (Hnested ltac:(vm_compute; reflexivity) r Hr) as (mapper & Hm & Hentries).
  exists r, mapper. auto.
Defined.

Lemma nonaffine_increments_witness :
  mapM loop_args [mixed_unit] = Ok [Iteration.args mixed]
  /\ PragmaParallelizer._make_reductions Sample.host mixed_unit [mixed_unit]
     = Ok (ParallelTree []
             (Iteration_ (Some (PragmaParallelizer.kwargs0 1)) (Iteration.args mixed)
                [Expression_ (Expression._rebuild_pragmas scalar_inc
                                {| builder_id := "atomic" |});
                 Expression_ (Expression._rebuild_pragmas indexed_inc
                                {| builder_id := "atomic" |})])
             (Some (PragmaParallelizer.nthreads_nonaffine Sample.host))).
Proof.
  assert (mapM loop_args [mixed_unit] = Ok [Iteration.args mixed]) as Hc by reflexivity.
  split; [exact Hc|].
  destruct (nonaffine_indexed_increments_are_made_atomic Sample.host []
              (PragmaParallelizer.kwargs0 1) (Iteration.args mixed) (Iteration.nodes mixed)
              (Some (PragmaParallelizer.nthreads_nonaffine Sample.host))
              [mixed_unit] [Iteration.args mixed] Hc) as [Hatomic _].
  - reflexivity.
  - reflexivity.
  - exists indexed_inc. split; [|reflexivity].
    apply (bool_decide_unpack _). vm_compute. exact I.
  - apply (Hatomic {| builder_id := "atomic" |}). reflexivity.
Defined.

Lemma affine_increments_witness :
  mapM loop_args [summing_unit] = Ok [Iteration.args summing]
  /\ exists prefix',
       PragmaParallelizer._make_reductions Sample.host summing_unit [summing_unit]
       = Ok (ParallelTree prefix'
               (Iteration_
                  (Some (ParallelIteration._rebuild_reduction
                           (PragmaParallelizer.kwargs0 1)
                           [Indexed u [Sym "p"]]))
                  (Iteration.args summing) (Iteration.nodes summing))
               (Some (PragmaParallelizer.nthreads Sample.host))).
Proof.
  assert (mapM loop_args [summing_unit] = Ok [Iteration.args summing]) as Hc by reflexivity.
  split; [exact Hc|].
  destruct (affine_increments_are_reduced Sample.host []
              (PragmaParallelizer.kwargs0 1) (Iteration.args summing)
              (Iteration.nodes summing) (Some (PragmaParallelizer.nthreads Sample.host))
              [summing_unit] [Iteration.args summing] Hc eq_refl eq_refl)
    as (prefix' & Hr & _).
  exists prefix'. exact Hr.
Defined.

Lemma mask_of_wrong_length_witness :
  DeviceAwarePragmaParallelizer._map_to Sample.device (grid_function "u") (Some [FULL])
  = Raise AssertionError
  /\ DeviceAwarePragmaParallelizer._make_sections_from_imask (grid_function "u")
       (Some [FULL; Index (Sym "y")])
     = Ok "[0:u_vec->size[x]][y:1]".
Proof.
  destruct (mask_of_wrong_length_fails_the_assertion Sample.device (grid_function "u")
              [FULL] None) as [Hwrong _].
  destruct (mask_of_wrong_length_fails_the_assertion Sample.device (grid_function "u")
              [FULL; Index (Sym "y")] None) as [_ Hright].
  split.
  - apply Hwrong. vm_compute. discriminate.
  - rewrite Hright by reflexivity. reflexivity.
Defined.

Lemma is_on_device_monotone_witness :
  is_on_device (OfFunction (time_function "usave" (Some 100)))
               [time_function "usave" (Some 100); grid_function "u"] false = true.
Proof.
  destruct (is_on_device_is_monotone (OfFunction (time_function "usave" (Some 100)))
              [time_function "usave" (Some 100)]
              [time_function "usave" (Some 100); grid_function "u"] false) as [Hon _].
  - intros f Hf. apply list_elem_of_singleton in Hf. subst f. apply list_elem_of_here.
  - vm_compute. reflexivity.
  - exact Hon.
Defined.

(** In the nest of three parallel loops the innermost one is vectorized,
    aligned on the function it writes. *)
Lemma make_simd_witness :
  exists r mapper,
    HostPragmaParallelizer.make_simd Sample.host (Iteration.to_node x32) = Ok r
    /\ r = (Transformer mapper (Iteration.to_node x32), ([], []))
    /\ mapper
       = [(Iteration.to_node z32,
           _rebuild z32
             [PragmaAligned {| builder_id := "simd-for-aligned" |} "u" 32]
             [VECTORIZED])]
    /\ forall k v, (k, v) ∈ mapper ->
                   simd_entry Sample.host (retrieve_iteration_tree (Iteration.to_node x32))
                              k v.
Proof.
  assert (exists r, HostPragmaParallelizer.make_simd Sample.host (Iteration.to_node x32)
                    = Ok r) as [r Hr].
  { eexists. vm_compute. reflexivity. }
  destruct (make_simd_vectorizes_innermost_parallel_loops Sample.host _ r Hr)
    as (mapper & Hl & Hm & Hentries).
  exists r, mapper. split; [exact Hr|]. split; [exact Hm|]. split; [|exact Hentries].
  vm_compute in Hl. injection Hl as <-. reflexivity.
Defined.

Lemma make_simd_single_loop_witness :
  HostPragmaParallelizer.make_simd Sample.host (Iteration.to_node z32)
  = Ok (Iteration.to_node z32, ([], [])).
Proof.
  apply (make_simd_needs_an_outer_parallel_loop Sample.host).
  intros tree Hin. apply list_elem_of_singleton in Hin. subst tree.
  vm_compute. lia.
Defined.

(** The guard of the strided unit fires when [p_step] is zero and not when
    it is one. *)
Lemma guard_fires_witness :
  exists cond,
    PragmaParallelizer._make_guard (ParallelBlock [strided_unit]) [strided_unit]
    = Ok (List_ [] [Conditional cond [Return]; ParallelBlock [strided_unit]] [])
    /\ Boolean_holds (fun _ => 0%Q) cond = true
    /\ Boolean_holds (fun _ => 1%Q) cond = false.
Proof.
  destruct (guard_fires_iff_a_symbolic_step_is_zero (ParallelBlock [strided_unit])
              [strided_unit]
              [Iteration.args (sparse (Sym "p_step") [Expression_ scalar_inc])] eq_refl)
    as (cond & Hg & Hholds).
  - eexists. split; [apply list_elem_of_here|reflexivity].
  - exists cond. split; [exact Hg|]. split.
    + apply Hholds. eexists. split; [apply list_elem_of_here|]. split; reflexivity.
    + apply not_true_is_false. intros Hfires.
      apply Hholds in Hfires as (a & Ha & _ & Hz).
      apply list_elem_of_singleton in Ha. subst a. discriminate.
Defined.

Lemma region_witness :
  PragmaParallelizer._make_parregion Sample.host scalar_unit (∅, 3%nat)
  = Ok (ParallelBlock [scalar_unit], (∅, 3%nat)).
Proof.
  destruct (region_needs_thread_index_only_for_private_arrays Sample.host scalar_unit
              (∅, 3%nat)) as [Hplain _].
  apply Hplain. reflexivity.
Defined.

Lemma sample_make_name_inj (j k : nat) : make_name j = make_name k -> j = k.
Proof.
  change (make_name j) with ("name" +:+ pretty j).
  change (make_name k) with ("name" +:+ pretty k).
  intros Heq. apply (inj (String.app "name")) in Heq. by apply pretty_nat_inj in Heq.
Qed.

Lemma pointer_arrays_witness :
  exists mapper parrays,
    PragmaParallelizer._make_parallel_loop (PragmaParallelizer.methods Sample.host)
      (retrieve_iteration_tree two_nests) [] (∅, 0%nat)
    = Ok (mapper, (parrays, 1%nat))
    /\ forall a a' pa pa',
         parrays !! a = Some pa -> parrays !! a' = Some pa' ->
         PointerArray.name pa = PointerArray.name pa' -> a = a'.
Proof.
  assert (exists iet' meta,
            PragmaParallelizer.make_parallel Sample.host two_nests 0
            = Ok (iet', meta, 1%nat)) as (iet' & meta & Hrun).
  { eexists _, _. vm_compute. reflexivity. }
  destruct (pointer_arrays_are_distinctly_named Sample.host _ _ _ _ _
              sample_make_name_inj Hrun) as (mapper & parrays & Hl & _ & Hdistinct).
  exists mapper, parrays. split; [exact Hl|exact Hdistinct].
Defined.

Lemma each_root_witness :
  exists mapper st',
    PragmaParallelizer._make_parallel_loop (PragmaParallelizer.methods Sample.host)
      (retrieve_iteration_tree two_nests) [] (∅, 0%nat)
    = Ok (mapper, st')
    /\ NoDup (map fst mapper)
    /\ Iteration.to_node over_x ∈ map fst mapper
    /\ Iteration.to_node over_y ∈ map fst mapper.
Proof.
  destruct (make_parallel_loop_Ok Sample.host (retrieve_iteration_tree two_nests))
    with (mapper := @nil (Node * Node)) (st := (∅ : gmap Function.t PointerArray.t, 0%nat))
    as [[mapper st'] Hl].
  - vm_compute. discriminate.
  - eexists. reflexivity.
  - eexists. reflexivity.
  - destruct (each_root_is_rewritten_once Sample.host _ _ _ _ Hl) as [Hnd Hkeys].
    exists mapper, st'. split; [exact Hl|]. split; [exact Hnd|].
    split; apply Hkeys.
    + exists [over_x], over_x, []. split; [apply list_elem_of_here|]. split; reflexivity.
    + exists [over_y], over_y, [].
      split; [apply list_elem_of_further, list_elem_of_here|]. split; reflexivity.
Defined.

End FurtherRuns.

Section DialectRuns.
#[local] Existing Instance Sample.ir.
Import Sample SamplePass SampleRuns.

(** The host specializer on the empty construct table of the abstract
    class. *)
Lemma host_pass_needs_the_header_witness :
  exists msg,
    PragmaParallelizer.make_parallel abstract_host two_nests 0
    = Raise (NotImplementedError msg).
Proof.
  apply (host_pass_needs_the_header abstract_host two_nests 0).
  - vm_compute. discriminate.
  - reflexivity.
Defined.

(** On four threads per core and with no thread index in the dialect, the
    device-aware pass still returns. *)
Lemma device_pass_returns_witness :
  exists iet' args,
    DeviceAwarePragmaParallelizer.make_parallel bare_device two_nests 0
    = Ok (iet', (args, [ {| builder_id := "header" |} ]), 0%nat).
Proof.
  apply (device_pass_returns bare_device two_nests 0).
  - reflexivity.
  - eexists. reflexivity.
Defined.

(** With a work threshold of 16 the nest of static size 32 is collapsed in
    full; with the threshold of 512 nothing is. *)
Lemma work_threshold_witness :
  exists group group',
    PragmaParallelizer._find_collapsable eager_host SampleNests.x32
      [SampleNests.x32; SampleNests.y32; SampleNests.z32]
    = Ok group
    /\ PragmaParallelizer._find_collapsable host SampleNests.x32
         [SampleNests.x32; SampleNests.y32; SampleNests.z32]
       = Ok group'
    /\ group = [SampleNests.y32; SampleNests.z32]
    /\ group' = []
    /\ group' `prefix_of` group.
Proof.
  destruct (raising_the_work_threshold_shrinks_the_group eager_host host SampleNests.x32
              [SampleNests.x32; SampleNests.y32; SampleNests.z32])
    as (group & group' & Hg & Hg' & Hprefix).
  - reflexivity.
  - reflexivity.
  - vm_compute. discriminate.
  - exists group, group'. split; [exact Hg|]. split; [exact Hg'|].
    split; [|split; [|exact Hprefix]].
    + vm_compute in Hg. by injection Hg as <-.
    + vm_compute in Hg'. by injection Hg' as <-.
Defined.

End DialectRuns.
